(** * DegNorm: the NMF over-approximation engine (degnorm/nmf.py) and the
      exon unions of degnorm/visualizations.py

    A shallow embedding of class [GeneNMFOA] and of [get_exon_unions].  Coverage values, read counts
    and DI scores are rationals ([Q]); a numpy 2-d array is the list of its
    rows; a python exception is a [Raise] result.  The numeric library calls
    the class makes (scipy's [svds], numpy's [sqrt], [linalg.norm], [median]
    and [random.choice]) are variables of the section the class lives in:
    what the class does with their results is modelled, not how they obtain
    them nor when they refuse their argument.  IEEE artefacts (nan, inf,
    rounding) are outside this model. *)

From Stdlib Require Import String List ZArith QArith Qabs Bool Arith Lia Lqa Sorted.
From Stdlib Require Import Permutation.
Import ListNotations.

Set Implicit Arguments.

(** ** Python exceptions and fallible computations *)

Inductive exn : Type :=
| ValueError
| IndexError
| ZeroDivisionError
| StopIteration
| OutOfFuel.  (* not a python exception: the bound of a modelled while loop *)

Inductive result (A : Type) : Type :=
| Ok (a : A)
| Raise (e : exn).

Arguments Ok {A} a.
Arguments Raise {A} e.

Definition bind {A B : Type} (m : result A) (k : A -> result B) : result B :=
  match m with
  | Ok a => k a
  | Raise e => Raise e
  end.

Notation "x <- m ;; k" := (bind m (fun x => k))
  (at level 61, m at next level, right associativity).
Notation "' p <- m ;; k" := (bind m (fun p => k))
  (at level 61, p pattern, m at next level, right associativity).

Fixpoint mapM {A B : Type} (f : A -> result B) (l : list A) : result (list B) :=
  match l with
  | [] => Ok []
  | a :: l' => b <- f a ;; bs <- mapM f l' ;; Ok (b :: bs)
  end.

(** ** Rational comparisons as booleans *)

Definition Qltb (a b : Q) : bool := negb (Qle_bool b a).
Definition Qgeb (a b : Q) : bool := Qle_bool b a.
Definition Qgtb (a b : Q) : bool := Qltb b a.

Definition Qmaxb (a b : Q) : Q := if Qltb a b then b else a.
Definition Qminb (a b : Q) : Q := if Qltb b a then b else a.

(** ** Vectors and matrices *)

Abbreviation vec := (list Q) (only parsing).
Abbreviation matrix := (list (list Q)) (only parsing).

Definition nrows (x : matrix) : nat := length x.
Definition ncols (x : matrix) : nat := length (hd [] x).

(** A numpy 2-d array has rows of one length. *)
Definition rect (x : matrix) : Prop := Forall (fun r => length r = ncols x) x.

Fixpoint zip_with {A B C : Type} (f : A -> B -> C) (a : list A) (b : list B) : list C :=
  match a, b with
  | x :: a', y :: b' => f x y :: zip_with f a' b'
  | _, _ => []
  end.

Definition mat_zip (f : Q -> Q -> Q) (a b : matrix) : matrix := zip_with (zip_with f) a b.
Definition mat_map (f : Q -> Q) (a : matrix) : matrix := map (map f) a.

Definition vsum (v : vec) : Q := fold_right Qplus 0 v.

(** [x.sum(axis=1)]: one sum per row. *)
Definition row_sums (x : matrix) : vec := map vsum x.

(** [K.dot(E)] for a column [K] (p x 1) and a row [E] (1 x L). *)
Definition dot (K E : vec) : matrix := map (fun k => map (fun e => k * e) E) K.

Definition zeros_like (x : matrix) : matrix := mat_map (fun _ => 0) x.

(** [est[est < x] = x[est < x]] *)
Definition over_approx (est x : matrix) : matrix :=
  mat_zip (fun e v => if Qltb e v then v else e) est x.

(** [rho[rho < 0] = 0.; rho[rho >= 1] = 1. - 1e-5] on one cell. *)
Definition clip_di (r : Q) : Q :=
  let r1 := if Qltb r 0 then 0 else r in
  if Qgeb r1 1 then 1 - (1 # 100000) else r1.

(** Elementwise [<=] on matrices of one shape. *)
Definition mat_le (a b : matrix) : Prop := Forall2 (Forall2 Qle) a b.

(** [np.unique]: the sorted list of the distinct values. *)
Fixpoint insert_uniq (z : Z) (l : list Z) : list Z :=
  match l with
  | [] => [z]
  | y :: l' =>
      if (z <? y)%Z then z :: l
      else if (z =? y)%Z then l
      else y :: insert_uniq z l'
  end.

Definition unique (l : list Z) : list Z := fold_right insert_uniq [] l.

(** [a.sort()] *)
Fixpoint insert_sorted (z : Z) (l : list Z) : list Z :=
  match l with
  | [] => [z]
  | y :: l' => if (z <=? y)%Z then z :: l else y :: insert_sorted z l'
  end.

Definition sort (l : list Z) : list Z := fold_right insert_sorted [] l.

Definition memZ (z : Z) (l : list Z) : bool := existsb (Z.eqb z) l.

(** [np.intersect1d(a, b)]: the sorted distinct values found in both. *)
Definition intersect1d (a b : list Z) : list Z :=
  unique (filter (fun i => memZ i b) a).

(** [np.where(mask)[0]] *)
Fixpoint where_from (i : Z) (mask : list bool) : list Z :=
  match mask with
  | [] => []
  | b :: mask' =>
      if b then i :: where_from (i + 1)%Z mask' else where_from (i + 1)%Z mask'
  end.

Definition np_where (mask : list bool) : list Z := where_from 0%Z mask.

(** [np.arange(start, stop, step)] for a positive step. *)
Definition arange (start stop step : nat) : list Z :=
  map (fun k => Z.of_nat (start + k * step)%nat)
      (seq 0 ((stop - start + step - 1) / step)%nat).

(** A python index into an axis of length [L]: negative indices count from
    the end, anything else out of range is an [IndexError]. *)
Definition norm_index (L : nat) (i : Z) : result nat :=
  if ((0 <=? i) && (i <? Z.of_nat L))%Z then Ok (Z.to_nat i)
  else if ((- Z.of_nat L <=? i) && (i <? 0))%Z then Ok (Z.to_nat (Z.of_nat L + i))
  else Raise IndexError.

(** [x[:, idx]] *)
Definition take_cols (x : matrix) (idx : list Z) : result matrix :=
  js <- mapM (norm_index (ncols x)) idx ;;
  Ok (map (fun r => map (fun j => nth j r 0) js) x).

(** [x[idx, :]] *)
Definition take_rows (x : matrix) (idx : list Z) : result matrix :=
  js <- mapM (norm_index (nrows x)) idx ;;
  Ok (map (fun j => nth j x []) js).

(** [l[i]] on a python list. *)
Definition item {A : Type} (l : list A) (i : nat) : result A :=
  match nth_error l i with
  | Some a => Ok a
  | None => Raise IndexError
  end.

(** [l[0]] and [l[-1]] *)
Definition first_item {A : Type} (l : list A) : result A := item l 0%nat.
Definition last_item {A : Type} (l : list A) : result A := item l (length l - 1)%nat.

(** [del l[i]] *)
Definition delete_at {A : Type} (i : nat) (l : list A) : list A :=
  firstn i l ++ skipn (S i) l.

(** [x.max(axis=0)]: the maximum of every column. *)
Definition col_max (x : matrix) : result vec :=
  match x with
  | [] => Raise ValueError
  | r :: rs => Ok (fold_left (zip_with Qmaxb) rs r)
  end.

(** [x.max()], also [np.nanmax] of a vector: a zero-size array has no maximum. *)
Definition vmax (v : vec) : result Q :=
  match v with
  | [] => Raise ValueError
  | a :: l => Ok (fold_left Qmaxb l a)
  end.

Definition mat_max (x : matrix) : result Q := vmax (concat x).

(** [x.sum(axis=0)] and [x.mean(axis=0)] *)
Definition col_sums (x : matrix) : vec :=
  match x with
  | [] => []
  | r :: rs => fold_left (zip_with Qplus) rs r
  end.

Definition col_means (x : matrix) : vec :=
  map (fun s => s / inject_Z (Z.of_nat (nrows x))) (col_sums x).

(** [np.nanargmax]: the first position of the maximum. *)
Fixpoint argmax_from (best_i : nat) (best : Q) (i : nat) (l : vec) : nat :=
  match l with
  | [] => best_i
  | v :: l' =>
      if Qltb best v then argmax_from i v (S i) l'
      else argmax_from best_i best (S i) l'
  end.

Definition nanargmax (l : vec) : result nat :=
  match l with
  | [] => Raise ValueError
  | v :: l' => Ok (argmax_from 0%nat v 1%nat l')
  end.

(** [get_high_coverage_idx]:
    [np.where(x.max(axis=0) > 0.1 * x.max())[0]] *)
Definition get_high_coverage_idx (x : matrix) : result (list Z) :=
  cm <- col_max x ;;
  gm <- mat_max x ;;
  Ok (np_where (map (fun v => Qgtb v ((1 # 10) * gm)) cm)).

(** The DI scores of one gene:
    [1 - F.sum(axis=1) / (KE.sum(axis=1) + 1)], then the two clipping lines. *)
Definition di_scores (F_sums KE_sums : vec) : vec :=
  map clip_di (zip_with (fun f ke => 1 - f / (ke + 1)) F_sums KE_sums).

Definition epsilon : Q := 1 # 100000.

(** [K[K < 1.e-5] = np.min(K[K >= 1.e-5])]: the minimum of an empty
    selection is a [ValueError]. *)
Definition floor_K (K : vec) : result vec :=
  match filter (fun k => Qgeb k epsilon) K with
  | [] => Raise ValueError
  | a :: l =>
      let m := fold_left Qminb l a in
      Ok (map (fun k => if Qltb k epsilon then m else k) K)
  end.

(** Modelled from the spec: [split_into_chunks] of [degnorm.utils], which is
    not among the sources.  The spec has it partition a list into
    contiguous chunks of near-equal size, in order: every chunk takes
    ceil(len / n) items and the last one what is left. *)
Fixpoint chunks {A : Type} (fuel csize : nat) (x : list A) : list (list A) :=
  match fuel with
  | O => []
  | S fuel' =>
      match x with
      | [] => []
      | _ :: _ => firstn csize x :: chunks fuel' csize (skipn csize x)
      end
  end.

Definition split_into_chunks {A : Type} (x : list A) (n : nat) : result (list (list A)) :=
  if (n =? 0)%nat then Raise ZeroDivisionError
  else Ok (chunks (length x) ((length x + n - 1) / n)%nat x).

(** Modelled from the spec: [flatten_2d] of [degnorm.utils], which is not
    among the sources: the union of the remaining bins, in order. *)
Definition flatten_2d {A : Type} (l : list (list A)) : list A := concat l.

(** [shift_bins]: [bins] is the list after [del bins[dropped_bin]]. *)
Definition shift_bins (bins : list (list Z)) (dropped_bin : nat) : result (list (list Z)) :=
  if ((dropped_bin =? length bins) || (length bins =? 1))%nat then Ok bins
  else
    delta <-
      (if (dropped_bin =? 0)%nat then
         b0 <- item bins 0%nat ;; first_item b0
       else
         bd <- item bins dropped_bin ;;
         f <- first_item bd ;;
         bp <- item bins (dropped_bin - 1)%nat ;;
         l <- last_item bp ;;
         Ok (f - l - 1)%Z) ;;
    Ok (firstn dropped_bin bins
        ++ map (map (fun idx => (idx - delta)%Z)) (skipn dropped_bin bins)).

(** ** Arrays of any rank

    [fit] receives whatever arrays its caller built and checks their rank
    itself, so its input is an array of rank 0 to 3. *)

Inductive ndarray : Type :=
| Arr0 (a : Q)
| Arr1 (v : vec)
| Arr2 (m : matrix)
| Arr3 (t : list matrix).

Definition ndim (a : ndarray) : nat :=
  match a with
  | Arr0 _ => 0
  | Arr1 _ => 1
  | Arr2 _ => 2
  | Arr3 _ => 3
  end%nat.

Definition shape (a : ndarray) : list nat :=
  match a with
  | Arr0 _ => []
  | Arr1 v => [length v]
  | Arr2 m => [nrows m; ncols m]
  | Arr3 t => [length t; nrows (hd [] t); ncols (hd [] t)]
  end.

(** [a.shape[i]] *)
Definition shape_at (a : ndarray) (i : nat) : result nat := item (shape a) i.

(** [a.nbytes] of a float64 array. *)
Definition nbytes (a : ndarray) : Z :=
  (8 * Z.of_nat (fold_right Nat.mul 1%nat (shape a)))%Z.

(** The 2-d view the numeric code works on; scipy and numpy reject the other
    ranks where the class hands them an array. *)
Definition as_2d (a : ndarray) : result matrix :=
  match a with
  | Arr2 m => Ok m
  | _ => Raise ValueError
  end.

(** ** The object *)

Record GeneNMFOA : Type := mkGeneNMFOA {
  degnorm_iter : nat;
  nmf_iter : nat;
  n_jobs : nat;
  bins : nat;
  min_high_coverage : nat;
  min_bins : nat;
  use_baseline_selection : list bool;
  downsample_rate : nat;
  mem_splits : nat;
  x : matrix;
  x_adj : matrix;
  p : nat;
  n_genes : nat;
  scale_factors : vec;
  rho : matrix;
  Lis : list nat;
  estimates : list matrix;
  cov_mats : list ndarray;
  cov_mats_adj : list matrix;
  cov_sums : matrix;
  genes : list string;
  fitted : bool;
  transformed : bool
}.

(** Field assignments [self.f = v]. *)
Definition set_n_genes (v : nat) (s : GeneNMFOA) : GeneNMFOA :=
  mkGeneNMFOA (degnorm_iter s) (nmf_iter s) (n_jobs s) (bins s) (min_high_coverage s)
    (min_bins s) (use_baseline_selection s) (downsample_rate s) (mem_splits s) (x s)
    (x_adj s) (p s) v (scale_factors s) (rho s) (Lis s) (estimates s) (cov_mats s)
    (cov_mats_adj s) (cov_sums s) (genes s) (fitted s) (transformed s).

Definition set_genes (v : list string) (s : GeneNMFOA) : GeneNMFOA :=
  mkGeneNMFOA (degnorm_iter s) (nmf_iter s) (n_jobs s) (bins s) (min_high_coverage s)
    (min_bins s) (use_baseline_selection s) (downsample_rate s) (mem_splits s) (x s)
    (x_adj s) (p s) (n_genes s) (scale_factors s) (rho s) (Lis s) (estimates s)
    (cov_mats s) (cov_mats_adj s) (cov_sums s) v (fitted s) (transformed s).

Definition set_p (v : nat) (s : GeneNMFOA) : GeneNMFOA :=
  mkGeneNMFOA (degnorm_iter s) (nmf_iter s) (n_jobs s) (bins s) (min_high_coverage s)
    (min_bins s) (use_baseline_selection s) (downsample_rate s) (mem_splits s) (x s)
    (x_adj s) v (n_genes s) (scale_factors s) (rho s) (Lis s) (estimates s) (cov_mats s)
    (cov_mats_adj s) (cov_sums s) (genes s) (fitted s) (transformed s).

Definition set_cov_mats (v : list ndarray) (s : GeneNMFOA) : GeneNMFOA :=
  mkGeneNMFOA (degnorm_iter s) (nmf_iter s) (n_jobs s) (bins s) (min_high_coverage s)
    (min_bins s) (use_baseline_selection s) (downsample_rate s) (mem_splits s) (x s)
    (x_adj s) (p s) (n_genes s) (scale_factors s) (rho s) (Lis s) (estimates s) v
    (cov_mats_adj s) (cov_sums s) (genes s) (fitted s) (transformed s).

Definition set_x (v : matrix) (s : GeneNMFOA) : GeneNMFOA :=
  mkGeneNMFOA (degnorm_iter s) (nmf_iter s) (n_jobs s) (bins s) (min_high_coverage s)
    (min_bins s) (use_baseline_selection s) (downsample_rate s) (mem_splits s) v (x_adj
    s) (p s) (n_genes s) (scale_factors s) (rho s) (Lis s) (estimates s) (cov_mats s)
    (cov_mats_adj s) (cov_sums s) (genes s) (fitted s) (transformed s).

Definition set_x_adj (v : matrix) (s : GeneNMFOA) : GeneNMFOA :=
  mkGeneNMFOA (degnorm_iter s) (nmf_iter s) (n_jobs s) (bins s) (min_high_coverage s)
    (min_bins s) (use_baseline_selection s) (downsample_rate s) (mem_splits s) (x s) v
    (p s) (n_genes s) (scale_factors s) (rho s) (Lis s) (estimates s) (cov_mats s)
    (cov_mats_adj s) (cov_sums s) (genes s) (fitted s) (transformed s).

Definition set_use_baseline_selection (v : list bool) (s : GeneNMFOA) : GeneNMFOA :=
  mkGeneNMFOA (degnorm_iter s) (nmf_iter s) (n_jobs s) (bins s) (min_high_coverage s)
    (min_bins s) v (downsample_rate s) (mem_splits s) (x s) (x_adj s) (p s) (n_genes s)
    (scale_factors s) (rho s) (Lis s) (estimates s) (cov_mats s) (cov_mats_adj s)
    (cov_sums s) (genes s) (fitted s) (transformed s).

Definition set_Lis (v : list nat) (s : GeneNMFOA) : GeneNMFOA :=
  mkGeneNMFOA (degnorm_iter s) (nmf_iter s) (n_jobs s) (bins s) (min_high_coverage s)
    (min_bins s) (use_baseline_selection s) (downsample_rate s) (mem_splits s) (x s)
    (x_adj s) (p s) (n_genes s) (scale_factors s) (rho s) v (estimates s) (cov_mats s)
    (cov_mats_adj s) (cov_sums s) (genes s) (fitted s) (transformed s).

Definition set_cov_sums (v : matrix) (s : GeneNMFOA) : GeneNMFOA :=
  mkGeneNMFOA (degnorm_iter s) (nmf_iter s) (n_jobs s) (bins s) (min_high_coverage s)
    (min_bins s) (use_baseline_selection s) (downsample_rate s) (mem_splits s) (x s)
    (x_adj s) (p s) (n_genes s) (scale_factors s) (rho s) (Lis s) (estimates s)
    (cov_mats s) (cov_mats_adj s) v (genes s) (fitted s) (transformed s).

Definition set_mem_splits (v : nat) (s : GeneNMFOA) : GeneNMFOA :=
  mkGeneNMFOA (degnorm_iter s) (nmf_iter s) (n_jobs s) (bins s) (min_high_coverage s)
    (min_bins s) (use_baseline_selection s) (downsample_rate s) v (x s) (x_adj s) (p s)
    (n_genes s) (scale_factors s) (rho s) (Lis s) (estimates s) (cov_mats s)
    (cov_mats_adj s) (cov_sums s) (genes s) (fitted s) (transformed s).

Definition set_fitted (v : bool) (s : GeneNMFOA) : GeneNMFOA :=
  mkGeneNMFOA (degnorm_iter s) (nmf_iter s) (n_jobs s) (bins s) (min_high_coverage s)
    (min_bins s) (use_baseline_selection s) (downsample_rate s) (mem_splits s) (x s)
    (x_adj s) (p s) (n_genes s) (scale_factors s) (rho s) (Lis s) (estimates s)
    (cov_mats s) (cov_mats_adj s) (cov_sums s) (genes s) v (transformed s).

Definition set_rho (v : matrix) (s : GeneNMFOA) : GeneNMFOA :=
  mkGeneNMFOA (degnorm_iter s) (nmf_iter s) (n_jobs s) (bins s) (min_high_coverage s)
    (min_bins s) (use_baseline_selection s) (downsample_rate s) (mem_splits s) (x s)
    (x_adj s) (p s) (n_genes s) (scale_factors s) v (Lis s) (estimates s) (cov_mats s)
    (cov_mats_adj s) (cov_sums s) (genes s) (fitted s) (transformed s).

Definition set_scale_factors (v : vec) (s : GeneNMFOA) : GeneNMFOA :=
  mkGeneNMFOA (degnorm_iter s) (nmf_iter s) (n_jobs s) (bins s) (min_high_coverage s)
    (min_bins s) (use_baseline_selection s) (downsample_rate s) (mem_splits s) (x s)
    (x_adj s) (p s) (n_genes s) v (rho s) (Lis s) (estimates s) (cov_mats s)
    (cov_mats_adj s) (cov_sums s) (genes s) (fitted s) (transformed s).

Definition set_cov_mats_adj (v : list matrix) (s : GeneNMFOA) : GeneNMFOA :=
  mkGeneNMFOA (degnorm_iter s) (nmf_iter s) (n_jobs s) (bins s) (min_high_coverage s)
    (min_bins s) (use_baseline_selection s) (downsample_rate s) (mem_splits s) (x s)
    (x_adj s) (p s) (n_genes s) (scale_factors s) (rho s) (Lis s) (estimates s)
    (cov_mats s) v (cov_sums s) (genes s) (fitted s) (transformed s).

Definition set_estimates (v : list matrix) (s : GeneNMFOA) : GeneNMFOA :=
  mkGeneNMFOA (degnorm_iter s) (nmf_iter s) (n_jobs s) (bins s) (min_high_coverage s)
    (min_bins s) (use_baseline_selection s) (downsample_rate s) (mem_splits s) (x s)
    (x_adj s) (p s) (n_genes s) (scale_factors s) (rho s) (Lis s) v (cov_mats s)
    (cov_mats_adj s) (cov_sums s) (genes s) (fitted s) (transformed s).

Definition set_transformed (v : bool) (s : GeneNMFOA) : GeneNMFOA :=
  mkGeneNMFOA (degnorm_iter s) (nmf_iter s) (n_jobs s) (bins s) (min_high_coverage s)
    (min_bins s) (use_baseline_selection s) (downsample_rate s) (mem_splits s) (x s)
    (x_adj s) (p s) (n_genes s) (scale_factors s) (rho s) (Lis s) (estimates s)
    (cov_mats s) (cov_mats_adj s) (cov_sums s) (genes s) (fitted s) v.

(** [np.ceil(bins * 0.3)] in exact arithmetic. *)
Definition ceil_three_tenths (b : nat) : nat := ((3 * b + 9) / 10)%nat.

(** [__init__]: fields python initialises to [None] start empty here. *)
Definition init (degnorm_iter0 downsample_rate0 min_high_coverage0 nmf_iter0 bins0 n_jobs0 : nat)
  : GeneNMFOA :=
  {| degnorm_iter := degnorm_iter0;
     nmf_iter := nmf_iter0;
     n_jobs := n_jobs0;
     bins := bins0;
     min_high_coverage := min_high_coverage0;
     min_bins := ceil_three_tenths bins0;
     use_baseline_selection := [];
     downsample_rate := downsample_rate0;
     mem_splits := 0;
     x := [];
     x_adj := [];
     p := 0;
     n_genes := 0;
     scale_factors := [];
     rho := [];
     Lis := [];
     estimates := [];
     cov_mats := [];
     cov_mats_adj := [];
     cov_sums := [];
     genes := [];
     fitted := false;
     transformed := false |}.

(** ** Methods that change the object: state and exception together

    A python method that raises leaves behind the assignments it made
    before; [M A] returns the object as it stands with the outcome. *)

Definition M (A : Type) : Type := GeneNMFOA -> GeneNMFOA * result A.

Definition ret {A : Type} (a : A) : M A := fun s => (s, Ok a).
Definition raise {A : Type} (e : exn) : M A := fun s => (s, Raise e).
Definition lift {A : Type} (r : result A) : M A := fun s => (s, r).
Definition get_self : M GeneNMFOA := fun s => (s, Ok s).
Definition assign (f : GeneNMFOA -> GeneNMFOA) : M unit := fun s => (f s, Ok tt).

Definition bindM {A B : Type} (m : M A) (k : A -> M B) : M B :=
  fun s =>
    match m s with
    | (s', Ok a) => k a s'
    | (s', Raise e) => (s', Raise e)
    end.

Notation "x <~ m ;; k" := (bindM m (fun x => k))
  (at level 61, m at next level, right associativity).
Notation "m1 ;;; m2" := (bindM m1 (fun _ => m2))
  (at level 61, right associativity).

(** The trimming loop of [baseline_selection] keeps these locals. *)
Record trim_state : Type := mkTrim {
  t_n_bins : nat;
  t_bin_segs : list (list Z);
  t_F_bin : matrix;
  t_KE_bin : matrix;
  t_rho_vec : vec
}.

Section NMFOA.

(** scipy's [svds(x, k=1)]: the leading singular triple (u, s, v). *)
Variable svds : matrix -> vec * Q * vec.
(** [np.sqrt] *)
Variable sqrt : Q -> Q.
(** [np.linalg.norm] of a 2-d array *)
Variable norm : matrix -> Q.
(** [np.median] *)
Variable median : vec -> Q.
(** [np.random.choice(n)] as the call at hand receives it.  numpy draws
    from its global generator, so every call gets a value of its own: one
    call of [baseline_selection] draws once at most, and this variable is
    the draw of that call; the runs over several genes, further down, hand
    every call its own draw. *)
Variable random_choice : nat -> nat.

(** [rank_one_approx]: [return u*s, v] *)
Definition rank_one_approx (x : matrix) : vec * vec :=
  let '(u, s, v) := svds x in
  (map (fun ui => ui * s) u, v).

(** One pass of the body of the [for _ in range(self.nmf_iter)] loop of [nmf];
    the state is (K, E, est, lmbda). *)
Definition nmf_step (x : matrix) (c : Q) (st : vec * vec * matrix * matrix)
  : vec * vec * matrix * matrix :=
  let '(_, _, est, lmbda) := st in
  let res := mat_zip Qminus est x in
  let lmbda := mat_zip Qminus lmbda (mat_map (fun r => r * (1 / c)) res) in
  let lmbda := mat_map (fun l => if Qltb l 0 then 0 else l) lmbda in
  let '(K, E) := rank_one_approx (mat_zip Qplus est lmbda) in
  (K, E, dot K E, lmbda).

Definition nmf_run (self : GeneNMFOA) (x : matrix) : vec * vec * matrix * matrix :=
  let '(K, E) := rank_one_approx x in
  let est := dot K E in
  let lmbda := zeros_like x in
  let c := sqrt (inject_Z (Z.of_nat (nmf_iter self))) in
  Nat.iter (nmf_iter self) (nmf_step x c) (K, E, est, lmbda).

(** [nmf(x, factors=True)] *)
Definition nmf_factors (self : GeneNMFOA) (x : matrix) : vec * vec :=
  let '(K, E, _, _) := nmf_run self x in
  (map Qabs K, map Qabs E).

(** [nmf(x, factors=False)] *)
Definition nmf_estimate (self : GeneNMFOA) (x : matrix) : matrix :=
  let '(_, _, est, _) := nmf_run self x in
  over_approx est x.

(** [nmf]: the two return shapes of the python method. *)
Definition nmf (self : GeneNMFOA) (x : matrix) (factors : bool)
  : (vec * vec) + matrix :=
  if factors then inl (nmf_factors self x) else inr (nmf_estimate self x).

(** [run_nmf_serial]; its callers leave [factors] at [False]. *)
Definition run_nmf_serial (self : GeneNMFOA) (x : list matrix) : list matrix :=
  map (nmf_estimate self) x.

(** joblib's [Parallel(...)(map(delayed(f), dat))]: the list of the results
    of [f], in the order of [dat]; an exception of a job is raised.  What
    the threads share besides the object is numpy's generator: which draw a
    job receives depends on the schedule, and is an argument of the job
    where it draws. *)
Definition Parallel {A B : Type} (f : A -> result B) (dat : list A) : result (list B) :=
  mapM f dat.

(** [par_apply_nmf] *)
Definition par_apply_nmf (self : GeneNMFOA) (dat : list matrix) : result (list matrix) :=
  dat <- split_into_chunks dat (mem_splits self) ;;
  nmf_ests <- Parallel (fun chunk => Ok (run_nmf_serial self chunk)) dat ;;
  Ok (concat nmf_ests).

(** The DI matrix of [compute_scale_factors]:
    [1 - self.cov_sums / (np.vstack(est_sums) + 1)], then the two clipping lines. *)
Definition di_matrix (cov_sums est_sums : matrix) : matrix :=
  mat_map clip_di (mat_zip (fun c e => 1 - c / (e + 1)) cov_sums est_sums).

(** [compute_scale_factors] *)
Definition compute_scale_factors (estimates : list matrix) : M unit :=
  self <~ get_self ;;
  let est_sums := map row_sums estimates in
  assign (set_rho (di_matrix (cov_sums self) est_sums)) ;;;
  self <~ get_self ;;
  let scaled_counts_mat := mat_zip (fun xv r => xv / (1 - r)) (x self) (rho self) in
  let scaled_counts_sums := col_sums scaled_counts_mat in
  assign (set_scale_factors
            (map (fun s => s / median scaled_counts_sums) scaled_counts_sums)).

(** [(F.T / self.scale_factors).T]: row j over the j-th scale factor. *)
Definition scale_rows (F : matrix) (factors : vec) : matrix :=
  zip_with (fun row s => map (fun f => f / s) row) F factors.

(** [adjust_coverage_curves] *)
Definition adjust_coverage_curves : M unit :=
  self <~ get_self ;;
  mats <~ lift (mapM as_2d (cov_mats self)) ;;
  assign (set_cov_mats_adj (map (fun F => scale_rows F (scale_factors self)) mats)).

(** [m[idx, :] = vals] for the rows [idx = np.where(sel)[0]]. *)
Fixpoint assign_rows (sel : list bool) (vals m : matrix) : matrix :=
  match sel, vals, m with
  | b :: sel', v :: vals', r :: m' => (if b then v else r) :: assign_rows sel' vals' m'
  | _, _, _ => m
  end.

(** [adjust_read_counts] *)
Definition adjust_read_counts : M unit :=
  self <~ get_self ;;
  let adj_standard := use_baseline_selection self in
  (if existsb (fun b => b) adj_standard then
     assign (set_x_adj
               (assign_rows adj_standard
                  (mat_zip (fun xv r => xv / (1 - r)) (x self) (rho self))
                  (x_adj self)))
   else ret tt) ;;;
  self <~ get_self ;;
  let adj_low := map negb (use_baseline_selection self) in
  if existsb (fun b => b) adj_low then
    let avg_di_score := col_means (rho self) in
    assign (set_x_adj
              (assign_rows adj_low
                 (map (fun row => zip_with (fun xv a => xv / (1 - a)) row avg_di_score)
                    (x self))
                 (x_adj self)))
  else ret tt.

(** [np.random.choice(n)] refuses [n = 0]; otherwise it gives the draw of
    this call. *)
Definition np_random_choice (n : nat) : result nat :=
  if (n =? 0)%nat then Raise ValueError else Ok (random_choice n).

(** [_systematic_sample]: one drawn position when the gap covers the
    population, else the positions start, start + take_every, ... *)
Definition systematic_sample (n take_every : nat) : result (Z + list Z) :=
  if (n <=? take_every)%nat then
    i <- np_random_choice n ;; Ok (inl (Z.of_nat i))
  else
    start <- np_random_choice take_every ;;
    Ok (inr (arange start n take_every)).

(** [downsample_2d] *)
Definition downsample_2d (self : GeneNMFOA) (x : matrix) (by_row : bool)
  : result (ndarray * (Z + list Z)) :=
  let Li := if by_row then nrows x else ncols x in
  if (downsample_rate self =? 1)%nat then Ok (Arr2 x, inr (arange 0 Li 1))
  else if (Li <=? downsample_rate self)%nat then Raise ValueError
  else
    downsample_idx <- systematic_sample Li (downsample_rate self) ;;
    match downsample_idx with
    | inr idx =>
        m <- (if by_row then take_rows x idx else take_cols x idx) ;;
        Ok (Arr2 m, downsample_idx)
    | inl i =>
        m <- (if by_row then take_rows x [i] else take_cols x [i]) ;;
        Ok (Arr1 (concat m), downsample_idx)
    end.

(** An index argument of [np.intersect1d], flattened. *)
Definition index_list (idx : Z + list Z) : list Z :=
  match idx with
  | inl i => [i]
  | inr l => l
  end.

(** [baseline_selection], the overhead: downsample, find the high-coverage
    positions and decide whether to go on.  [None] is the early
    [return F, ran] with [ran = False]; [Some idx] carries [hi_cov_idx]. *)
Definition baseline_overhead (self : GeneNMFOA) (F : matrix) : result (option (list Z)) :=
  downsample <-
    (if (1 <? downsample_rate self)%nat then
       '(_, downsample_idx) <- downsample_2d self F false ;; Ok (Some downsample_idx)
     else Ok None) ;;
  hi_cov_idx <- get_high_coverage_idx F ;;
  let n_hi_cov := length hi_cov_idx in
  match downsample with
  | None =>
      if (n_hi_cov <? min_high_coverage self)%nat then Ok None
      else Ok (Some hi_cov_idx)
  | Some downsample_idx =>
      let hi_cov_idx := intersect1d (index_list downsample_idx) hi_cov_idx in
      let n_hi_cov := length hi_cov_idx in
      if (n_hi_cov <=? 1)%nat then Ok None
      else Ok (Some hi_cov_idx)
  end.

(** [baseline_selection] from [hi_cov_idx.sort()] to the first DI scores:
    the factor pair of the first fit and the locals of the loop. *)
Definition baseline_start (self : GeneNMFOA) (F : matrix) (hi_cov_idx : list Z)
  : result (vec * vec * trim_state) :=
  let hi_cov_idx := sort hi_cov_idx in
  F_start <- take_cols F hi_cov_idx ;;
  let F_bin := F_start in
  let '(K, E) := nmf_factors self F_bin in
  let KE_bin := mat_map Qabs (dot K E) in
  bin_segs <- split_into_chunks (map Z.of_nat (seq 0 (ncols F_bin))) (bins self) ;;
  let n_bins := length bin_segs in
  let rho_vec := di_scores (row_sums F_bin) (row_sums KE_bin) in
  Ok (K, E, mkTrim n_bins bin_segs F_bin KE_bin rho_vec).

(** [(n_bins > self.min_bins) and (np.nanmax(rho_vec) > 0.1)] *)
Definition trim_cond (self : GeneNMFOA) (st : trim_state) : result bool :=
  if (min_bins self <? t_n_bins st)%nat then
    m <- vmax (t_rho_vec st) ;; Ok (Qgtb m (1 # 10))
  else Ok false.

(** [x[:, np.unique(idx)]] for a python list [idx]: of an empty list
    [np.unique] makes an empty array of floats, which numpy refuses as an
    index. *)
Definition index_cols (x : matrix) (keep_idx : list Z) : result matrix :=
  match keep_idx with
  | [] => Raise IndexError
  | _ :: _ => take_cols x keep_idx
  end.

(** The body of the [while] loop of [baseline_selection]. *)
Definition trim_body (self : GeneNMFOA) (st : trim_state) : result trim_state :=
  let bin_segs := t_bin_segs st in
  let F_bin := t_F_bin st in
  let KE_bin := t_KE_bin st in
  let n_bins := length bin_segs in
  ss <- mapM (fun seg =>
                r <- take_cols (mat_zip Qminus KE_bin F_bin) seg ;;
                f <- take_cols F_bin seg ;;
                Ok (norm r, norm f)) bin_segs ;;
  let res_norms :=
    map (fun rf => if Qeq_bool (snd rf) 0 then 0 else fst rf / snd rf) ss in
  drop_idx <- nanargmax res_norms ;;
  let bin_segs := delete_at drop_idx bin_segs in
  let keep_idx := unique (flatten_2d bin_segs) in
  bin_segs <- shift_bins bin_segs drop_idx ;;
  F_bin <- index_cols F_bin keep_idx ;;
  let KE_bin := nmf_estimate self F_bin in
  let rho_vec := di_scores (row_sums F_bin) (row_sums KE_bin) in
  Ok (mkTrim n_bins bin_segs F_bin KE_bin rho_vec).

(** The [while] loop.  Every pass deletes a bin, so the number of bins at
    entry bounds the passes; [fuel] is that bound. *)
Fixpoint trim_loop (fuel : nat) (self : GeneNMFOA) (st : trim_state) : result trim_state :=
  go <- trim_cond self st ;;
  if go then
    match fuel with
    | O => Raise OutOfFuel
    | S fuel' => st' <- trim_body self st ;; trim_loop fuel' self st'
    end
  else Ok st.

(** [baseline_selection] after the loop: refit on convergence, floor K,
    refine E over the whole of F, and over-approximate.  E holds rationals
    here, so the [np.isnan] test of the source has nothing to raise on. *)
Definition baseline_finish (self : GeneNMFOA) (F : matrix) (K E : vec) (st : trim_state)
  : result matrix :=
  m <- vmax (t_rho_vec st) ;;
  let '(K, E) := if Qltb m (1 # 10) then nmf_factors self (t_F_bin st) else (K, E) in
  K <- floor_K K ;;
  E <- col_max (scale_rows F K) ;;
  let est := mat_map Qabs (dot K E) in
  Ok (over_approx est F).

(** [baseline_selection] *)
Definition baseline_selection (self : GeneNMFOA) (F : matrix) : result (matrix * bool) :=
  let ran := false in
  o <- baseline_overhead self F ;;
  match o with
  | None => Ok (F, ran)
  | Some hi_cov_idx =>
      '(K, E, st) <- baseline_start self F hi_cov_idx ;;
      let ran := true in
      st <- trim_loop (S (length (t_bin_segs st))) self st ;;
      est <- baseline_finish self F K E st ;;
      Ok (est, ran)
  end.

End NMFOA.

(** ** The runs over all genes

    [draws i] is what [np.random.choice] answers to the call of
    [baseline_selection] on gene [i] of the list, when that call draws.
    Two runs on the same genes have draws of their own. *)

Section Runs.

Variable svds : matrix -> vec * Q * vec.
Variable sqrt : Q -> Q.
Variable norm : matrix -> Q.
Variable median : vec -> Q.

(** [run_baseline_selection_serial] on the genes [first], [first + 1],
    ... of the list. *)
Fixpoint run_baseline_selection_serial (self : GeneNMFOA) (draws : nat -> nat -> nat)
    (first : nat) (x : list matrix) : result (list (matrix * bool)) :=
  match x with
  | [] => Ok []
  | F :: x' =>
      r <- baseline_selection svds sqrt norm (draws first) self F ;;
      rs <- run_baseline_selection_serial self draws (S first) x' ;;
      Ok (r :: rs)
  end.

(** The chunks with the position of their first gene in the list. *)
Fixpoint with_offsets {A : Type} (first : nat) (chunks : list (list A))
  : list (nat * list A) :=
  match chunks with
  | [] => []
  | c :: chunks' => (first, c) :: with_offsets (first + length c) chunks'
  end.

(** [par_apply_baseline_selection] *)
Definition par_apply_baseline_selection (draws : nat -> nat -> nat) (dat : list matrix)
  : M (list matrix) :=
  self <~ get_self ;;
  dat <~ lift (split_into_chunks dat (mem_splits self)) ;;
  baseline_ests <~
    lift (Parallel (fun job => run_baseline_selection_serial self draws (fst job) (snd job))
            (with_offsets 0 dat)) ;;
  let baseline_ests := concat baseline_ests in
  assign (set_use_baseline_selection (map snd baseline_ests)) ;;;
  ret (map fst baseline_ests).

(** [np.vstack] of 1-d arrays: they need one length, and there has to be
    one of them. *)
Definition np_vstack (rows : list vec) : result matrix :=
  match rows with
  | [] => Raise ValueError
  | r :: rs =>
      if forallb (fun r' => (length r' =? length r)%nat) rs then Ok rows
      else Raise ValueError
  end.

(** [np.min] of a list of lengths. *)
Definition np_min (l : list nat) : result nat :=
  match l with
  | [] => Raise ValueError
  | a :: l' => Ok (fold_left Nat.min l' a)
  end.

(** [fit].  [cov_dat] is the dict in key order.  The warning about matrices
    taller than wide changes nothing and is left out. *)
Definition fit (cov_dat : list (string * ndarray)) (reads_dat : matrix) : M unit :=
  assign (set_n_genes (length cov_dat)) ;;;
  assign (set_genes (map fst cov_dat)) ;;;
  p0 <~ lift (match cov_dat with
              | [] => Raise StopIteration
              | kv :: _ => shape_at (snd kv) 0
              end) ;;
  assign (set_p p0) ;;;
  assign (set_cov_mats (map snd cov_dat)) ;;;
  assign (set_x reads_dat) ;;;
  assign (set_x_adj reads_dat) ;;;
  self <~ get_self ;;
  assign (set_use_baseline_selection (repeat true (n_genes self))) ;;;
  lis <~ lift (mapM (fun a => shape_at a 1) (cov_mats self)) ;;
  assign (set_Lis lis) ;;;
  self <~ get_self ;;
  if negb (nrows (x self) =? n_genes self)%nat then raise ValueError
  else if negb (forallb (fun z => (ndim z =? 2)%nat) (cov_mats self)) then raise ValueError
  else
    (if (1 <? downsample_rate self)%nat then
       m <~ lift (np_min (Lis self)) ;;
       if negb (downsample_rate self <=? m)%nat then raise ValueError else ret tt
     else ret tt) ;;;
    mats <~ lift (mapM as_2d (cov_mats self)) ;;
    sums <~ lift (np_vstack (map row_sums mats)) ;;
    assign (set_cov_sums sums) ;;;
    let total := fold_right Z.add 0%Z (map nbytes (cov_mats self)) in
    let mem_splits0 := Z.to_nat ((total + 99999999) / 100000000)%Z in
    assign (set_mem_splits
              (if (n_jobs self <? mem_splits0)%nat then mem_splits0 else n_jobs self)) ;;;
    assign (set_fitted true).

(** One pass of [while i < self.degnorm_iter] in [transform]. *)
Definition degnorm_round (draws : nat -> nat -> nat) : M unit :=
  self <~ get_self ;;
  ests <~ par_apply_baseline_selection draws (cov_mats_adj self) ;;
  assign (set_estimates ests) ;;;
  self <~ get_self ;;
  compute_scale_factors median (estimates self) ;;;
  adjust_coverage_curves ;;;
  adjust_read_counts.

(** The passes [i], [i + 1], ..., [n] of them; [draws i] are the draws of
    pass [i]. *)
Fixpoint degnorm_rounds (draws : nat -> nat -> nat -> nat) (i n : nat) : M unit :=
  match n with
  | O => ret tt
  | S n' => degnorm_round (draws i) ;;; degnorm_rounds draws (S i) n'
  end.

(** [transform]; the progress bar and the prints are left out. *)
Definition transform (draws : nat -> nat -> nat -> nat) : M unit :=
  self <~ get_self ;;
  if negb (fitted self) then raise ValueError
  else
    mats <~ lift (mapM as_2d (cov_mats self)) ;;
    ests <~ lift (par_apply_nmf svds sqrt self mats) ;;
    assign (set_estimates ests) ;;;
    self <~ get_self ;;
    compute_scale_factors median (estimates self) ;;;
    adjust_coverage_curves ;;;
    adjust_read_counts ;;;
    degnorm_rounds draws 0 (degnorm_iter self) ;;;
    assign (set_transformed true).

(** [fit_transform] *)
Definition fit_transform (draws : nat -> nat -> nat -> nat)
    (coverage_dat : list (string * ndarray)) (reads_dat : matrix) : M unit :=
  fit coverage_dat reads_dat ;;; transform draws.

End Runs.

(** ** Stand-ins for the numeric libraries

    Total, computable instances of the section's variables, used to run the
    class on concrete inputs.  They are not scipy's or numpy's results:
    [svds_envelope] answers with the rank-one matrix of the column maxima
    (a rank-one matrix that dominates its argument), [norm_l1] with the sum
    of the absolute values, [sqrt_unit] is exact at 0 and 1 only, and
    [choice_zero] always draws 0. *)

Definition svds_envelope (m : matrix) : vec * Q * vec :=
  (map (fun _ => 1) m, 1,
   match col_max m with
   | Ok v => v
   | Raise _ => []
   end).

Definition sqrt_unit (q : Q) : Q := q.

Definition norm_l1 (m : matrix) : Q := vsum (map Qabs (concat m)).

Fixpoint insert_Q (q : Q) (l : vec) : vec :=
  match l with
  | [] => [q]
  | y :: l' => if Qle_bool q y then q :: l else y :: insert_Q q l'
  end.

(** [np.median]: the middle of the sorted values, or the mean of the two
    middle ones. *)
Definition median_sorted (v : vec) : Q :=
  let s := fold_right insert_Q [] v in
  let n := length s in
  if Nat.even n then (nth (n / 2 - 1) s 0 + nth (n / 2) s 0) / 2
  else nth (n / 2) s 0.

Definition choice_zero (n : nat) : nat := 0.

(** The same draw of 0 for every gene, and for every pass and gene. *)
Definition draws_zero (gene : nat) : nat -> nat := choice_zero.

Definition all_draws_zero (pass : nat) : nat -> nat -> nat := draws_zero.

(** ** Predicates of the statements *)

(** What the clipping lines give: a cell in [0, 1). *)
Definition di_cell_ok (r : Q) : Prop := 0 <= r /\ r < 1.

(** The bound of the specification: a cell in [0, 1 - 1e-5]. *)
Definition di_cell_claimed (r : Q) : Prop := 0 <= r /\ r <= 1 - epsilon.

(** The rows of [m] whose flag is set. *)
Definition eligible_rows (sel : list bool) (m : matrix) : matrix :=
  map snd (filter fst (combine sel m)).

(** The adjustment of a gene without baseline as the specification words it:
    the divisor is 1 minus the mean DI score over the baseline-eligible
    genes. *)
Definition adjust_low_claimed (self : GeneNMFOA) (g : nat) : vec :=
  zip_with (fun xv a => xv / (1 - a)) (nth g (x self) [])
    (col_means (eligible_rows (use_baseline_selection self) (rho self))).

(** The positions k*c, ..., k*c + c - 1 of bin k, and the partition of
    [0, B*c) into B bins of c positions. *)
Definition bin_range (c k : nat) : list Z := map Z.of_nat (seq (k * c) c).

Definition equal_bins (c B : nat) : list (list Z) := map (bin_range c) (seq 0 B).

(** The count the loop condition of [baseline_selection] reads is one pass
    old. *)
Definition stale_count (st : trim_state) : Prop :=
  t_n_bins st = S (length (t_bin_segs st)).

(** A result that is not the bound of a modelled loop. *)
Definition no_fuel_error {A : Type} (r : result A) : Prop := r <> Raise OutOfFuel.

(** Some sample row sums to zero. *)
Definition has_zero_row (F : list (list Q)) : Prop := exists row, In row F /\ vsum row == 0.

(** A matrix of [p] rows of [L] entries. *)
Definition has_dims (p L : nat) (m : list (list Q)) : Prop :=
  length m = p /\ Forall (fun r => length r = L) m.

(** What scipy promises of [svds(x, k=1)]: [u] has an entry per row of [x]
    and [v] an entry per column. *)
Definition svds_shaped (svds : list (list Q) -> list Q * Q * list Q) : Prop :=
  forall m, rect m ->
    length (fst (fst (svds m))) = nrows m /\ length (snd (svds m)) = ncols m.

(** The shapes the locals (K, E, est, lmbda) of [nmf] keep. *)
Definition nmf_shapes (p L : nat) (st : list Q * list Q * list (list Q) * list (list Q))
  : Prop :=
  let '(K, E, est, lmbda) := st in
  length K = p /\ (p = 0%nat \/ length E = L) /\ has_dims p L est /\ has_dims p L lmbda.

(** ** Concrete objects and inputs *)

(** One gene, two samples, two positions: the first sample has one faint
    read where the second has none, and nothing where the second is deep. *)
Definition faint_gene : list (string * ndarray) :=
  [("g"%string, Arr2 [[1; 0]; [0; 999998]])].

Definition faint_obj : GeneNMFOA :=
  fst (fit faint_gene [[5; 5]] (init 5 1 50 100 20 1)).

(** A rank-one estimate that dominates the coverage of [faint_gene]. *)
Definition faint_estimate : list matrix := [dot [1; 1] [1; 999998]].

(** Two genes and two samples after a round in which only the first gene
    went through baseline selection. *)
Definition two_gene_obj : GeneNMFOA :=
  set_use_baseline_selection [true; false]
    (set_rho [[1 # 5; 1 # 10]; [3 # 5; 1 # 2]]
       (set_x_adj [[10; 20]; [10; 20]]
          (set_x [[10; 20]; [10; 20]] (init 5 1 50 100 20 1)))).

(** Three genes of two samples, and an object whose work is split in two. *)
Definition three_genes : list (list (list Q)) :=
  [[[10; 10; 10]; [5; 5; 5]]; [[4; 0; 4]; [0; 0; 0]]; [[1; 2; 3]; [3; 2; 1]]].

Definition split_obj : GeneNMFOA := set_mem_splits 2 (init 1 1 2 1 4 2).

(** Two samples over twenty positions, each at a tenth of the depth of the
    other on every second position, and an object with the default 20
    bins. *)
Definition degraded_gene : list (list Q) :=
  [concat (repeat [10; 1] 10); concat (repeat [1; 10] 10)].

Definition default_bins_obj : GeneNMFOA := init 5 1 20 1 20 1.

(** Two samples over four positions, and an object with two bins. *)
Definition short_gene : list (list Q) := [[10; 10; 2; 2]; [1; 1; 2; 2]].

Definition two_bins_obj : GeneNMFOA := init 5 1 2 1 2 1.

(** The locals of [baseline_selection] when its loop stops: the steps of
    [baseline_selection] up to the loop, without what comes after it.
    [None] is the early exit. *)
Definition trimmed (svds : list (list Q) -> list Q * Q * list Q) (sqrt : Q -> Q)
    (norm : list (list Q) -> Q) (random_choice : nat -> nat)
    (self : GeneNMFOA) (F : list (list Q)) : result (option trim_state) :=
  o <- baseline_overhead random_choice self F ;;
  match o with
  | None => Ok None
  | Some hi_cov_idx =>
      '(_, _, st) <- baseline_start svds sqrt self F hi_cov_idx ;;
      st <- trim_loop svds sqrt norm (S (length (t_bin_segs st))) self st ;;
      Ok (Some st)
  end.

(** Two samples over three positions, the second sample without a read,
    and an object that asks for two high-coverage positions. *)
Definition silent_sample_gene : list (list Q) := [[10; 10; 10]; [0; 0; 0]].

Definition low_threshold_obj : GeneNMFOA := init 5 1 2 1 20 1.

(** One high-coverage position out of three, without and with
    downsampling at every second position. *)
Definition peak_gene : list (list Q) := [[10; 1; 1]; [10; 1; 1]].

Definition downsampling_obj : GeneNMFOA := init 5 2 2 1 20 1.

(** Six positions of high coverage where fifty are asked for, under
    downsampling at every second position. *)
Definition six_position_gene : list (list Q) := [[10; 10; 10; 10; 10; 10]; [5; 5; 5; 5; 5; 5]].

Definition downsampling_fifty_obj : GeneNMFOA := init 5 2 50 1 20 1.

(** One gene of two samples over two positions, and an object that
    downsamples at every second position. *)
Definition two_position_gene : list (string * ndarray) :=
  [("g"%string, Arr2 [[3; 3]; [1; 1]])].

Definition stride_two_obj : GeneNMFOA := init 1 2 1 1 20 1.

(** Inputs that [fit] refuses: a read-count matrix of two rows for one
    gene, and a coverage array of rank 3. *)
Definition two_count_rows : list (list Q) := [[5; 5]; [7; 7]].

Definition rank_three_gene : list (string * ndarray) :=
  [("g"%string, Arr3 [[[3; 3]; [1; 1]]])].

(** * The exon unions of visualizations.py

    [get_exon_unions] works on an n x 2 integer array of (start, end) rows.
    numpy's default [argsort] is not a stable sort, so the order it gives
    to equal keys is left to the library: it is a variable here. *)

(** [l[i]] for an index that numpy computed. *)
Definition at_index {A : Type} (l : list A) (i : Z) : result A :=
  k <- norm_index (length l) i ;; item l k.

(** [x[idx, :]] for the index array of an [argsort]. *)
Definition rows_at (x : list (Z * Z)) (idx : list nat) : result (list (Z * Z)) :=
  mapM (item x) idx.

(** [np.where(x[i, 1] >= x[(i + 1):, 0])[0]] *)
Definition bleeding (x : list (Z * Z)) (i : nat) : result (list Z) :=
  xi <- item x i ;;
  Ok (np_where (map (fun r => (fst r <=? snd xi)%Z) (skipn (S i) x))).

(** One pass of the first loop: the pair [[i, max(bleeding) + (i + 1)]] it
    appends, if any. *)
Definition bleed_pair (x : list (Z * Z)) (i : nat) : result (list (Z * Z)) :=
  b <- bleeding x i ;;
  match b with
  | [] => Ok []
  | b0 :: bs => Ok [(Z.of_nat i, (fold_left Z.max bs b0 + (Z.of_nat i + 1))%Z)]
  end.

(** The list [concat_exons] after [for i in range(x.shape[0] - 1)]. *)
Definition concat_exons (x : list (Z * Z)) : result (list (Z * Z)) :=
  ps <- mapM (bleed_pair x) (seq 0 (length x - 1)) ;;
  Ok (concat ps).

(** [np.min(np.where([z[1] == j for z in concat_exons])[0])] *)
Definition bleed_start (pairs : list (Z * Z)) (j : Z) : result Z :=
  match np_where (map (fun z => (snd z =? j)%Z) pairs) with
  | [] => Raise ValueError
  | k :: ks => Ok (fold_left Z.min ks k)
  end.

(** One pass of the second loop: the row [[start, end]] it appends. *)
Definition union_exon (x pairs : list (Z * Z)) (j : Z) : result (Z * Z) :=
  k <- bleed_start pairs j ;;
  z <- at_index pairs k ;;
  s <- at_index x (fst z) ;;
  e <- at_index x j ;;
  Ok (fst s, snd e).

(** [np.delete(x, obj=idx, axis=0)] *)
Definition np_delete {A : Type} (x : list A) (idx : list Z) : result (list A) :=
  ks <- mapM (norm_index (length x)) idx ;;
  Ok (map snd
        (filter (fun ir => negb (existsb (Nat.eqb (fst ir)) ks))
           (combine (seq 0 (length x)) x))).

(** [np.unique(x, axis=0)]: the distinct rows, in lexicographic order. *)
Definition row_ltb (a b : Z * Z) : bool :=
  ((fst a <? fst b) || ((fst a =? fst b) && (snd a <? snd b)))%Z.

Definition row_eqb (a b : Z * Z) : bool := ((fst a =? fst b) && (snd a =? snd b))%Z.

Fixpoint insert_row (r : Z * Z) (l : list (Z * Z)) : list (Z * Z) :=
  match l with
  | [] => [r]
  | y :: l' =>
      if row_ltb r y then r :: l
      else if row_eqb r y then l
      else y :: insert_row r l'
  end.

Definition unique_rows (l : list (Z * Z)) : list (Z * Z) := fold_right insert_row [] l.

Section Visualizations.

(** [np.argsort] *)
Variable argsort : list Z -> list nat.

(** [get_exon_unions] *)
Definition get_exon_unions (x : list (Z * Z)) : result (list (Z * Z)) :=
  if (length x =? 1)%nat then Ok x
  else
    x <- rows_at x (argsort (map fst x)) ;;
    pairs <- concat_exons x ;;
    match pairs with
    | [] => Ok x
    | _ :: _ =>
        let drop_exons := unique (flatten_2d (map (fun z => [fst z; snd z]) pairs)) in
        union_exons <- mapM (union_exon x pairs) (unique (map snd pairs)) ;;
        x <- np_delete x drop_exons ;;
        let x := x ++ union_exons in
        let x := unique_rows x in
        rows_at x (argsort (map fst x))
    end.

End Visualizations.

(** What numpy promises of [argsort]: a permutation of the positions that
    puts the keys in increasing order. *)
Definition argsort_sorts (argsort : list Z -> list nat) : Prop :=
  forall l : list Z,
    Permutation (argsort l) (seq 0 (length l))
    /\ StronglySorted Z.le (map (fun i => nth i l 0%Z) (argsort l)).

(** A stand-in for [np.argsort]: insertion of the positions, from the last
    one to the first, each before the keys that are not smaller. *)
Fixpoint insert_key (l : list Z) (i : nat) (sorted : list nat) : list nat :=
  match sorted with
  | [] => [i]
  | j :: rest =>
      if (nth i l 0 <=? nth j l 0)%Z then i :: sorted else j :: insert_key l i rest
  end.

Definition argsort_stable (l : list Z) : list nat :=
  fold_right (insert_key l) [] (seq 0 (length l)).

(** Every exon ends before the exons after it start. *)
Definition apart (x : list (Z * Z)) : Prop :=
  StronglySorted (fun r s => (snd r < fst s)%Z) x.

(** The pairs of [concat_exons] are positions of [x], the second one after
    the first. *)
Definition pair_in_range (n : nat) (z : Z * Z) : Prop :=
  (0 <= fst z < snd z)%Z /\ (snd z < Z.of_nat n)%Z.

(** Two samples over four positions, of high coverage at every second
    one, an object with the default settings but a stride of 2 and one
    chunk, and a run in which every call draws 1. *)
Definition alternating_gene : list (list Q) := [[10; 1; 10; 1]; [5; 1; 5; 1]].

Definition stride_one_chunk_obj : GeneNMFOA := set_mem_splits 1 (init 5 2 50 100 20 1).

Definition draws_one (gene : nat) (n : nat) : nat := 1%nat.

(** Two samples over twenty positions, the second sample without a read. *)
Definition silent_gene : list (list Q) := [repeat 10 20; repeat 0 20].

(** What is left of [silent_gene] when [B] of its positions are kept. *)
Definition silent_bin (B : nat) : list (list Q) := [repeat 10 B; repeat 0 B].

(** The locals of the loop of [baseline_selection] on [silent_gene] while
    [B] bins of one position are left: the DI score of the silent sample
    is at its ceiling. *)
Definition silent_inv (B : nat) (st : trim_state) : Prop :=
  t_bin_segs st = equal_bins 1 B
  /\ t_F_bin st = silent_bin B
  /\ has_dims 2 B (t_KE_bin st)
  /\ exists r, t_rho_vec st = [r; 1 - (1 # 100000)].

(** ** Further predicates and inputs *)

(** Every entry is zero. *)
Definition all_zero (m : list (list Q)) : Prop := Forall (Forall (fun q => q == 0)) m.

(** A gene without a single read, two samples over three positions. *)
Definition empty_gene : list (list Q) := [[0; 0; 0]; [0; 0; 0]].

(** An object that samples every second position, with the draw of
    [choice_zero]. *)
Definition six_columns : list (list Q) := [[1; 2; 3; 4; 5; 6]; [6; 5; 4; 3; 2; 1]].

(** The read counts of one gene in two samples. *)
Definition one_count_row : list (list Q) := [[5; 5]].

(** A coverage dict whose second array is a vector. *)
Definition vector_gene : list (string * ndarray) :=
  [("g"%string, Arr2 [[3; 3]; [1; 1]]); ("h"%string, Arr1 [3; 3])].

(** What [fit] stores and [__init__] configures: everything but the
    results of the iterations. *)
Definition settings (s : GeneNMFOA) :=
  (degnorm_iter s, nmf_iter s, n_jobs s, bins s, min_high_coverage s, min_bins s,
   downsample_rate s, mem_splits s, x s, p s, n_genes s, Lis s, cov_mats s,
   cov_sums s, genes s, fitted s).

(** A method that leaves the view [f] of the object as it found it,
    whether it returns or raises. *)
Definition keeps {A B : Type} (f : GeneNMFOA -> B) (m : M A) : Prop :=
  forall s, f (fst (m s)) = f s.

(** A method that can change the view [f] only by returning. *)
Definition keeps_unless_ok {A B : Type} (f : GeneNMFOA -> B) (m : M A) : Prop :=
  forall s, f (fst (m s)) = f s \/ exists a, snd (m s) = Ok a.

(** A method that, when it returns, has the flag [transformed] up. *)
Definition sets_transformed {A : Type} (m : M A) : Prop :=
  forall s a, snd (m s) = Ok a -> transformed (fst (m s)) = true.

(** A fitted object on [two_position_gene], without downsampling. *)
Definition fitted_obj : GeneNMFOA :=
  fst (fit two_position_gene one_count_row (init 1 1 1 1 20 1)).

(** [faint_obj] with an estimate for a gene whose second sample is silent:
    coverage sums 1 and 0. *)
Definition silent_obj : GeneNMFOA := set_cov_sums [[1; 0]] faint_obj.

(** The locals of [baseline_selection] on [degraded_gene] when its loop is
    entered: twenty bins of one position each. *)
Definition degraded_start : trim_state :=
  match baseline_start svds_envelope sqrt_unit default_bins_obj degraded_gene
          (map Z.of_nat (seq 0 20)) with
  | Ok (_, _, st) => st
  | Raise _ => mkTrim 0 [] [] [] []
  end.

(** * Properties *)

(** ** Boolean comparisons *)

Lemma Qltb_true (a b : Q) : Qltb a b = true <-> a < b.
Proof.
  unfold Qltb. rewrite negb_true_iff, <- not_true_iff_false, Qle_bool_iff.
  split; [apply Qnot_le_lt | apply Qlt_not_le].
Qed.

Lemma Qltb_false (a b : Q) : Qltb a b = false <-> b <= a.
Proof.
  unfold Qltb. rewrite negb_false_iff. apply Qle_bool_iff.
Qed.

Lemma Qgeb_true (a b : Q) : Qgeb a b = true <-> b <= a.
Proof. apply Qle_bool_iff. Qed.

Lemma Qgeb_false (a b : Q) : Qgeb a b = false <-> a < b.
Proof.
  unfold Qgeb. rewrite <- not_true_iff_false, Qle_bool_iff.
  split; [apply Qnot_le_lt | apply Qlt_not_le].
Qed.

Ltac qbool :=
  repeat match goal with
    | H : Qltb _ _ = true |- _ => apply Qltb_true in H
    | H : Qltb _ _ = false |- _ => apply Qltb_false in H
    | H : Qgeb _ _ = true |- _ => apply Qgeb_true in H
    | H : Qgeb _ _ = false |- _ => apply Qgeb_false in H
    end.

(** ** DI scores *)

Lemma clip_di_range (r : Q) : 0 <= clip_di r /\ clip_di r < 1.
Proof.
  unfold clip_di.
  destruct (Qltb r 0) eqn:Hneg.
  - destruct (Qgeb 0 1) eqn:Hge; qbool; lra.
  - destruct (Qgeb r 1) eqn:Hge; qbool; lra.
Qed.

Lemma clip_di_saturated (r : Q) : 1 <= r -> clip_di r = 1 - (1 # 100000).
Proof.
  intros Hr. unfold clip_di.
  destruct (Qltb r 0) eqn:Hneg; qbool; [lra |].
  destruct (Qgeb r 1) eqn:Hge; qbool; [reflexivity | lra].
Qed.

Lemma clip_di_inside (r : Q) : 0 <= r -> r < 1 -> clip_di r = r.
Proof.
  intros H0 H1. unfold clip_di.
  destruct (Qltb r 0) eqn:Hneg; qbool; [lra |].
  destruct (Qgeb r 1) eqn:Hge; qbool; [lra | reflexivity].
Qed.

Lemma di_scores_range (F_sums KE_sums : vec) :
  Forall di_cell_ok (di_scores F_sums KE_sums).
Proof.
  unfold di_scores. apply Forall_map, Forall_forall.
  intros r _. apply clip_di_range.
Qed.

Lemma di_matrix_range (cov est : matrix) :
  Forall (Forall di_cell_ok) (di_matrix cov est).
Proof.
  unfold di_matrix, mat_map. apply Forall_map, Forall_forall.
  intros row _. apply Forall_map, Forall_forall.
  intros r _. apply clip_di_range.
Qed.

Lemma compute_scale_factors_rho (median : vec -> Q) (ests : list matrix) (self : GeneNMFOA) :
  rho (fst (compute_scale_factors median ests self))
  = di_matrix (cov_sums self) (map row_sums ests).
Proof. reflexivity. Qed.

(** C2, as amended.  After [compute_scale_factors] every cell of the DI
    matrix [rho] lies in [0, 1), and so does every cell of the DI vector
    that [baseline_selection] computes with [di_scores]: the clipping lines
    send negative values to 0 and values of 1 or more to 1 - 1e-5, and leave
    the values in between alone. *)
Theorem di_bounds_below_one
  (median : vec -> Q) (ests : list matrix) (self : GeneNMFOA) (F_sums KE_sums : vec) :
  Forall (Forall di_cell_ok) (rho (fst (compute_scale_factors median ests self)))
  /\ Forall di_cell_ok (di_scores F_sums KE_sums).
Proof.
  split.
  - rewrite compute_scale_factors_rho. apply di_matrix_range.
  - apply di_scores_range.
Qed.

(** C2 as stated fails: the first sample of [faint_gene], whose estimate
    dwarfs its coverage, gets a DI score of 999999/1000000, which is above
    1 - 1e-5 and below 1, so neither clipping line touches it. *)
Lemma di_bounds_counterexample :
  exists (r : Q) (others : list Q),
    rho (fst (compute_scale_factors median_sorted faint_estimate faint_obj))
    = [r :: others]
    /\ r == 999999 # 1000000
    /\ ~ di_cell_claimed r
    /\ ~ Forall (Forall di_cell_claimed)
           (rho (fst (compute_scale_factors median_sorted faint_estimate faint_obj))).
Proof.
  eexists. eexists.
  split; [reflexivity |].
  split; [vm_compute; reflexivity |].
  assert (Hr : ~ di_cell_claimed (clip_di (1 - vsum [1; 0] / (vsum [1 * 1; 1 * 999998] + 1)))).
  { intros [_ Hr]. vm_compute in Hr. apply Hr. reflexivity. }
  split; [exact Hr |].
  intros H. inversion H as [| row rows Hrow _]; subst.
  inversion Hrow as [| r rs Hcell _]; subst.
  apply Hr. exact Hcell.
Qed.

(** ** Flooring of K *)



Lemma Qminb_cases (a b : Q) : Qminb a b = a \/ Qminb a b = b.
Proof. unfold Qminb. destruct (Qltb b a); auto. Qed.

Lemma fold_min_in (l : vec) (a : Q) : In (fold_left Qminb l a) (a :: l).
Proof.
  revert a. induction l as [| b l IH]; intros a; simpl.
  - auto.
  - destruct (IH (Qminb a b)) as [H | H].
    + rewrite <- H. destruct (Qminb_cases a b) as [E | E]; rewrite E; simpl; auto.
    + simpl. auto.
Qed.



(** The flooring line raises exactly when no entry reaches epsilon. *)
Lemma floor_K_returns (K : vec) :
  (exists k, In k K /\ epsilon <= k) <-> exists K', floor_K K = Ok K'.
Proof.
  unfold floor_K. split.
  - intros [k [Hin Hk]].
    assert (Hf : In k (filter (fun k => Qgeb k epsilon) K)).
    { apply filter_In. split; [exact Hin | apply Qgeb_true; exact Hk]. }
    destruct (filter (fun k => Qgeb k epsilon) K); [destruct Hf | eauto].
  - intros [K' H].
    destruct (filter (fun k => Qgeb k epsilon) K) as [| a l] eqn:Hf; [discriminate |].
    assert (Ha : In a (filter (fun k => Qgeb k epsilon) K)) by (rewrite Hf; left; reflexivity).
    apply filter_In in Ha. destruct Ha as [Hin Hge]. qbool. eauto.
Qed.



(** ** Read-count adjustment *)

Lemma assign_rows_length (sel : list bool) (vals m : matrix) :
  length (assign_rows sel vals m) = length m.
Proof.
  revert vals m. induction sel as [| b sel IH]; intros [| v vals] [| r m]; simpl; auto.
Qed.

Lemma assign_rows_nth (sel : list bool) (vals m : matrix) (g : nat) (b : bool) (v r : vec) :
  nth_error sel g = Some b ->
  nth_error vals g = Some v ->
  nth_error m g = Some r ->
  nth_error (assign_rows sel vals m) g = Some (if b then v else r).
Proof.
  revert sel vals m.
  induction g as [| g IH]; intros [| b0 sel] [| v0 vals] [| r0 m]; simpl; try discriminate.
  - intros [= ->] [= ->] [= ->]. reflexivity.
  - apply IH.
Qed.

Lemma assign_rows_keep (sel : list bool) (vals m : matrix) (g : nat) :
  nth_error sel g = Some false ->
  nth_error (assign_rows sel vals m) g = nth_error m g.
Proof.
  revert sel vals m.
  induction g as [| g IH]; intros [| b0 sel] [| v0 vals] [| r0 m]; simpl;
    try discriminate; try reflexivity.
  - intros [= ->]. reflexivity.
  - apply IH.
Qed.

Lemma existsb_nth_true (l : list bool) (g : nat) :
  nth_error l g = Some true -> existsb (fun b => b) l = true.
Proof.
  intros H. apply existsb_exists. exists true. split; [| reflexivity].
  eapply nth_error_In; eauto.
Qed.

(** C6, as amended.  A gene that is not flagged baseline-eligible gets, in
    every sample j, its raw count over 1 - m_j, where m_j is the mean of
    column j of the whole DI matrix: the mean is taken over all the genes,
    eligible or not, and the same vector of divisors serves every such
    gene. *)
Theorem adjust_low_uses_mean_of_all_genes (self : GeneNMFOA) (g : nat) (raw old : vec) :
  nth_error (use_baseline_selection self) g = Some false ->
  nth_error (x self) g = Some raw ->
  nth_error (x_adj self) g = Some old ->
  nth_error (x_adj (fst (adjust_read_counts self))) g
  = Some (zip_with (fun xv a => xv / (1 - a)) raw (col_means (rho self))).
Proof.
  intros Hsel Hraw Hold.
  assert (Hlow : existsb (fun b => b) (map negb (use_baseline_selection self)) = true).
  { apply existsb_nth_true with (g := g). rewrite nth_error_map, Hsel. reflexivity. }
  assert (Hneg : nth_error (map negb (use_baseline_selection self)) g = Some true).
  { rewrite nth_error_map, Hsel. reflexivity. }
  assert (Hval : nth_error
                   (map (fun row => zip_with (fun xv a => xv / (1 - a)) row
                                      (col_means (rho self))) (x self)) g
                 = Some (zip_with (fun xv a => xv / (1 - a)) raw (col_means (rho self)))).
  { rewrite nth_error_map, Hraw. reflexivity. }
  unfold adjust_read_counts, bindM, get_self, assign, ret.
  destruct (existsb (fun b => b) (use_baseline_selection self)); cbn.
  - rewrite Hlow. cbn.
    assert (Hmid : nth_error
                     (assign_rows (use_baseline_selection self)
                        (mat_zip (fun xv r => xv / (1 - r)) (x self) (rho self))
                        (x_adj self)) g = Some old).
    { rewrite assign_rows_keep by exact Hsel. exact Hold. }
    rewrite (assign_rows_nth _ _ _ g Hneg Hval Hmid). reflexivity.
  - rewrite Hlow. cbn.
    rewrite (assign_rows_nth _ _ _ g Hneg Hval Hold). reflexivity.
Qed.

(** The second gene of [two_gene_obj], which is not eligible. *)
Lemma adjust_low_uses_mean_of_all_genes_witness :
  nth_error (x_adj (fst (adjust_read_counts two_gene_obj))) 1
  = Some (zip_with (fun xv a => xv / (1 - a)) [10; 20] (col_means (rho two_gene_obj))).
Proof.
  apply (@adjust_low_uses_mean_of_all_genes two_gene_obj 1%nat [10; 20] [10; 20]);
    reflexivity.
Defined.

(** C6 as stated fails: with DI scores 1/5 for the eligible gene and 3/5 for
    the other one in the first sample, the code divides the count of the
    second gene by 1 - 2/5 (the mean over both genes) and not by 1 - 1/5
    (the mean over the eligible gene). *)
Lemma adjust_low_counterexample :
  exists (code claimed : Q) (code' claimed' : list Q),
    nth_error (x_adj (fst (adjust_read_counts two_gene_obj))) 1 = Some (code :: code')
    /\ adjust_low_claimed two_gene_obj 1 = claimed :: claimed'
    /\ code == 50 # 3
    /\ claimed == 25 # 2
    /\ ~ code == claimed.
Proof.
  do 4 eexists.
  split; [reflexivity |].
  split; [reflexivity |].
  split; [vm_compute; reflexivity |].
  split; [vm_compute; reflexivity |].
  vm_compute. discriminate.
Qed.

(** ** Chunked dispatch *)

Lemma mapM_pure {A B : Type} (g : A -> B) (l : list A) :
  mapM (fun a => Ok (g a)) l = Ok (map g l).
Proof.
  induction l as [| a l IH]; simpl; [reflexivity |]. rewrite IH. reflexivity.
Qed.

Lemma mapM_app {A B : Type} (f : A -> result B) (l1 l2 : list A) :
  mapM f (l1 ++ l2)
  = (r1 <- mapM f l1 ;; r2 <- mapM f l2 ;; Ok (r1 ++ r2)).
Proof.
  induction l1 as [| a l1 IH]; simpl.
  - destruct (mapM f l2); reflexivity.
  - destruct (f a) as [b | e]; simpl; [| reflexivity].
    rewrite IH. destruct (mapM f l1) as [r1 | e]; simpl; [| reflexivity].
    destruct (mapM f l2); reflexivity.
Qed.

(** Running the chunks one after the other and flattening is running the
    whole list. *)
Lemma mapM_concat {A B : Type} (f : A -> result B) (cs : list (list A)) :
  (rs <- mapM (mapM f) cs ;; Ok (concat rs)) = mapM f (concat cs).
Proof.
  induction cs as [| c cs IH]; simpl; [reflexivity |].
  rewrite mapM_app, <- IH.
  destruct (mapM f c) as [r | e]; simpl; [| reflexivity].
  destruct (mapM (mapM f) cs); reflexivity.
Qed.

(** For a job [f] that draws nothing: however a list is cut into chunks
    that follow each other, the chunked run is the serial run; only
    [concat cs = l] is asked of the cut. *)
Lemma chunked_run_is_serial {A B : Type} (f : A -> result B) (l : list A)
    (cs : list (list A)) :
  concat cs = l ->
  (rs <- Parallel (mapM f) cs ;; Ok (concat rs)) = mapM f l.
Proof. intros <-. apply mapM_concat. Qed.

Lemma chunks_concat {A : Type} (fuel csize : nat) (l : list A) :
  (1 <= csize)%nat -> (length l <= fuel)%nat -> concat (chunks fuel csize l) = l.
Proof.
  intros Hc. revert l. induction fuel as [| fuel IH]; intros l Hlen.
  - destruct l; [reflexivity | simpl in Hlen; lia].
  - destruct l as [| a l]; [reflexivity |].
    cbn [chunks concat]. rewrite IH.
    + apply firstn_skipn.
    + rewrite length_skipn. simpl length in *. lia.
Qed.

(** The chunks of [split_into_chunks] are the list, cut. *)
Lemma split_into_chunks_concat {A : Type} (l : list A) (n : nat) :
  (1 <= n)%nat -> exists cs, split_into_chunks l n = Ok cs /\ concat cs = l.
Proof.
  intros Hn. unfold split_into_chunks.
  destruct (Nat.eqb_spec n 0); [lia |].
  eexists. split; [reflexivity |].
  destruct l as [| a l]; [reflexivity |].
  apply chunks_concat; [| lia].
  apply Nat.div_le_lower_bound; simpl length; lia.
Qed.

Section Dispatch.

Variable svds : list (list Q) -> list Q * Q * list Q.
Variable sqrt : Q -> Q.
Variable norm : list (list Q) -> Q.

(** A call of [baseline_selection] looks at its draw only under
    downsampling, and only at the values it asks for. *)
Lemma baseline_selection_draw (rc rc' : nat -> nat) (self : GeneNMFOA)
    (F : list (list Q)) :
  (downsample_rate self <= 1)%nat \/ (forall n, rc n = rc' n) ->
  baseline_selection svds sqrt norm rc self F
  = baseline_selection svds sqrt norm rc' self F.
Proof.
  intros H. unfold baseline_selection.
  assert (Hover : baseline_overhead rc self F = baseline_overhead rc' self F).
  { unfold baseline_overhead.
    destruct (Nat.ltb_spec 1 (downsample_rate self)) as [Hrate | Hrate]; [| reflexivity].
    destruct H as [H | H]; [lia |].
    unfold downsample_2d, systematic_sample, np_random_choice.
    rewrite !H. reflexivity. }
  rewrite Hover. reflexivity.
Qed.

Lemma run_serial_draw (self : GeneNMFOA) (draws draws' : nat -> nat -> nat)
    (first : nat) (x : list (list (list Q))) :
  (downsample_rate self <= 1)%nat
  \/ (forall i n, (first <= i < first + length x)%nat -> draws i n = draws' i n) ->
  run_baseline_selection_serial svds sqrt norm self draws first x
  = run_baseline_selection_serial svds sqrt norm self draws' first x.
Proof.
  revert first. induction x as [| F x IH]; intros first H; [reflexivity |].
  cbn [run_baseline_selection_serial].
  rewrite (@baseline_selection_draw (draws first) (draws' first) self F).
  - rewrite IH; [reflexivity |].
    destruct H as [H | H]; [left; exact H | right].
    intros i n Hi. apply H. simpl length. lia.
  - destruct H as [H | H]; [left; exact H | right].
    intros n. apply H. simpl length. lia.
Qed.

Lemma run_serial_app (self : GeneNMFOA) (draws : nat -> nat -> nat) (first : nat)
    (l1 l2 : list (list (list Q))) :
  run_baseline_selection_serial svds sqrt norm self draws first (l1 ++ l2)
  = (r1 <- run_baseline_selection_serial svds sqrt norm self draws first l1 ;;
     r2 <- run_baseline_selection_serial svds sqrt norm self draws (first + length l1) l2 ;;
     Ok (r1 ++ r2)).
Proof.
  revert first. induction l1 as [| F l1 IH]; intros first.
  - cbn [app run_baseline_selection_serial bind length]. rewrite Nat.add_0_r.
    destruct (run_baseline_selection_serial svds sqrt norm self draws first l2);
      reflexivity.
  - cbn [app run_baseline_selection_serial length].
    destruct (baseline_selection svds sqrt norm (draws first) self F) as [r | e];
      cbn [bind]; [| reflexivity].
    rewrite IH. replace (S first + length l1)%nat with (first + S (length l1))%nat by lia.
    destruct (run_baseline_selection_serial svds sqrt norm self draws (S first) l1)
      as [r1 | e]; cbn [bind]; [| reflexivity].
    destruct (run_baseline_selection_serial svds sqrt norm self draws
                (first + S (length l1)) l2); reflexivity.
Qed.

(** Running the chunks, each from the position of its first gene, and
    flattening is running the whole list. *)
Lemma run_serial_chunks (self : GeneNMFOA) (draws : nat -> nat -> nat) (first : nat)
    (cs : list (list (list (list Q)))) :
  (rs <- Parallel (fun job =>
                     run_baseline_selection_serial svds sqrt norm self draws
                       (fst job) (snd job))
           (with_offsets first cs) ;;
   Ok (concat rs))
  = run_baseline_selection_serial svds sqrt norm self draws first (concat cs).
Proof.
  unfold Parallel. revert first. induction cs as [| c cs IH]; intros first;
    [reflexivity |].
  cbn [with_offsets mapM concat fst snd]. rewrite run_serial_app, <- IH.
  destruct (run_baseline_selection_serial svds sqrt norm self draws first c) as [r | e];
    cbn [bind]; [| reflexivity].
  destruct (mapM _ (with_offsets (first + length c) cs)); reflexivity.
Qed.

(** The serial run gives one result per gene, in order: that of
    [baseline_selection] on the gene, with the draw of its call. *)
Lemma run_serial_nth (self : GeneNMFOA) (draws : nat -> nat -> nat) (first : nat)
    (x : list (list (list Q))) (r : list (list (list Q) * bool)) :
  run_baseline_selection_serial svds sqrt norm self draws first x = Ok r ->
  length r = length x
  /\ forall (i : nat) (F : list (list Q)),
       nth_error x i = Some F ->
       exists res,
         nth_error r i = Some res
         /\ baseline_selection svds sqrt norm (draws (first + i)%nat) self F = Ok res.
Proof.
  revert first r. induction x as [| F0 x IH]; intros first r Hrun.
  - injection Hrun as <-. split; [reflexivity |]. intros [| i] F HF; discriminate.
  - cbn [run_baseline_selection_serial] in Hrun.
    destruct (baseline_selection svds sqrt norm (draws first) self F0) as [r0 | e] eqn:H0;
      cbn [bind] in Hrun; [| discriminate].
    destruct (run_baseline_selection_serial svds sqrt norm self draws (S first) x)
      as [rs | e] eqn:Hrs; cbn [bind] in Hrun; [| discriminate].
    injection Hrun as <-. destruct (IH _ _ Hrs) as [Hlen Hnth].
    split; [simpl; congruence |].
    intros [| i] F HF; simpl in HF.
    + injection HF as <-. exists r0. rewrite Nat.add_0_r. auto.
    + destruct (Hnth i F HF) as [res [Hres Hsel]]. exists res.
      replace (first + S i)%nat with (S first + i)%nat by lia. auto.
Qed.

(** C7, as amended.  With a chunk count of at least 1, [par_apply_nmf]
    returns what [run_nmf_serial] returns on the unsplit list, result i
    being that of gene i; and when there is no downsampling, or when every
    gene's call receives in both runs the same draw, [par_apply_baseline_selection]
    returns the estimates, sets the flags and raises as
    [run_baseline_selection_serial] on the unsplit list does, result i
    being that of [baseline_selection] on gene i. *)
Theorem parallel_equals_serial (self : GeneNMFOA) (dat : list (list (list Q)))
    (draws draws' : nat -> nat -> nat) :
  (1 <= mem_splits self)%nat ->
  (downsample_rate self <= 1)%nat
  \/ (forall i n, (i < length dat)%nat -> draws i n = draws' i n) ->
  par_apply_nmf svds sqrt self dat = Ok (run_nmf_serial svds sqrt self dat)
  /\ par_apply_baseline_selection svds sqrt norm draws dat self
     = match run_baseline_selection_serial svds sqrt norm self draws' 0 dat with
       | Ok r => (set_use_baseline_selection (map snd r) self, Ok (map fst r))
       | Raise e => (self, Raise e)
       end
  /\ (forall i : nat,
        nth_error (run_nmf_serial svds sqrt self dat) i
        = option_map (nmf_estimate svds sqrt self) (nth_error dat i))
  /\ forall (r : list (list (list Q) * bool)) (i : nat) (F : list (list Q)),
       run_baseline_selection_serial svds sqrt norm self draws' 0 dat = Ok r ->
       nth_error dat i = Some F ->
       exists res,
         nth_error r i = Some res
         /\ baseline_selection svds sqrt norm (draws' i) self F = Ok res.
Proof.
  intros Hn Hdraws.
  destruct (split_into_chunks_concat dat Hn) as [cs [Hsplit Hcat]].
  split; [| split; [| split]].
  - unfold par_apply_nmf, Parallel. rewrite Hsplit. cbn [bind].
    rewrite mapM_pure. cbn [bind]. f_equal.
    unfold run_nmf_serial. rewrite <- concat_map, Hcat. reflexivity.
  - unfold par_apply_baseline_selection, bindM, get_self, lift, assign, ret.
    rewrite Hsplit.
    pose proof (run_serial_chunks self draws 0 cs) as Hm.
    rewrite Hcat in Hm.
    rewrite <- (@run_serial_draw self draws draws' 0%nat dat), <- Hm.
    + destruct (Parallel _ (with_offsets 0 cs)); reflexivity.
    + destruct Hdraws as [H | H]; [left; exact H | right].
      intros i n Hi. apply H. lia.
  - intros i. unfold run_nmf_serial. apply nth_error_map.
  - intros r i F Hrun HF.
    destruct (run_serial_nth _ _ _ _ Hrun) as [_ Hnth]. exact (Hnth i F HF).
Qed.

End Dispatch.

(** Three genes in two chunks. *)
Lemma parallel_equals_serial_witness :
  par_apply_nmf svds_envelope sqrt_unit split_obj three_genes
  = Ok (run_nmf_serial svds_envelope sqrt_unit split_obj three_genes).
Proof.
  apply (@parallel_equals_serial svds_envelope sqrt_unit norm_l1 split_obj three_genes
           draws_zero draws_zero).
  - vm_compute. lia.
  - left. vm_compute. lia.
Defined.

(** ** Reindexing of the bins *)

Lemma bin_range_shift (c len s : nat) :
  map (fun idx => (idx - Z.of_nat c)%Z) (map Z.of_nat (seq (s + c) len))
  = map Z.of_nat (seq s len).
Proof.
  revert s. induction len as [| len IH]; intros s; simpl; [reflexivity |].
  f_equal; [lia |]. apply (IH (S s)).
Qed.

Lemma bin_range_pred (c k : nat) :
  map (fun idx => (idx - Z.of_nat c)%Z) (bin_range c (S k)) = bin_range c k.
Proof.
  unfold bin_range. replace (S k * c)%nat with (k * c + c)%nat by lia.
  apply bin_range_shift.
Qed.

Lemma bin_ranges_pred (c s len : nat) :
  map (map (fun idx => (idx - Z.of_nat c)%Z)) (map (bin_range c) (seq (S s) len))
  = map (bin_range c) (seq s len).
Proof.
  rewrite <- seq_shift, !map_map. apply map_ext. intros k. apply bin_range_pred.
Qed.

Lemma bin_range_first (c k : nat) :
  (1 <= c)%nat -> first_item (bin_range c k) = Ok (Z.of_nat (k * c)).
Proof.
  intros Hc. unfold first_item, item, bin_range.
  destruct c as [| c]; [lia |]. reflexivity.
Qed.

Lemma bin_range_last (c k : nat) :
  (1 <= c)%nat -> last_item (bin_range c k) = Ok (Z.of_nat (k * c + c - 1)).
Proof.
  intros Hc. unfold last_item, item, bin_range.
  rewrite length_map, length_seq, nth_error_map, nth_error_seq.
  destruct (Nat.ltb_spec (c - 1) c); [| lia].
  simpl. do 2 f_equal. lia.
Qed.

Lemma equal_bins_length (c B : nat) : length (equal_bins c B) = B.
Proof. unfold equal_bins. rewrite length_map. apply length_seq. Qed.

Lemma firstn_seq_le (n s len : nat) :
  (n <= len)%nat -> firstn n (seq s len) = seq s n.
Proof.
  revert s len. induction n as [| n IH]; intros s [| len] H; simpl; try reflexivity; try lia.
  f_equal. apply IH. lia.
Qed.

(** What is left of the equal partition once bin [d] is deleted. *)
Lemma equal_bins_delete (c B d : nat) :
  (d < B)%nat ->
  delete_at d (equal_bins c B)
  = equal_bins c d ++ map (bin_range c) (seq (S d) (B - 1 - d)).
Proof.
  intros Hd. unfold delete_at, equal_bins.
  rewrite firstn_map, skipn_map, firstn_seq_le, skipn_seq by lia.
  replace (B - S d)%nat with (B - 1 - d)%nat by lia.
  reflexivity.
Qed.

Lemma equal_bins_split (c n m : nat) :
  equal_bins c (n + m) = equal_bins c n ++ map (bin_range c) (seq n m).
Proof.
  unfold equal_bins. rewrite seq_app, map_app. reflexivity.
Qed.

Lemma item_app_r {A : Type} (l1 l2 : list A) (i : nat) :
  item (l1 ++ l2) (length l1 + i) = item l2 i.
Proof.
  unfold item. rewrite nth_error_app2 by lia.
  replace (length l1 + i - length l1)%nat with i by lia. reflexivity.
Qed.

(** Deleting a bin of the equal partition and shifting gives the equal
    partition with one bin less, whenever two bins or more are left or the
    deleted bin was the last one. *)
Lemma shift_bins_reindexes (c B d : nat) :
  (1 <= c)%nat -> (d < B)%nat -> (3 <= B \/ d = B - 1)%nat ->
  shift_bins (delete_at d (equal_bins c B)) d = Ok (equal_bins c (B - 1)).
Proof.
  intros Hc Hd Hcase.
  rewrite equal_bins_delete by exact Hd.
  set (rest := map (bin_range c) (seq (S d) (B - 1 - d))).
  assert (Hlen : length (equal_bins c d ++ rest) = (B - 1)%nat).
  { unfold rest. rewrite length_app, equal_bins_length, length_map, length_seq. lia. }
  unfold shift_bins. rewrite Hlen.
  destruct (Nat.eqb_spec d (B - 1)) as [Hlast | Hnotlast].
  - (* the last bin was deleted *)
    cbn [orb]. unfold rest. replace (B - 1 - d)%nat with 0%nat by lia.
    simpl. rewrite app_nil_r. subst d. reflexivity.
  - destruct (Nat.eqb_spec (B - 1) 1) as [Hone | Hmany]; [lia |].
    cbn [orb].
    assert (Hrest : rest = bin_range c (S d) :: map (bin_range c) (seq (S (S d)) (B - 2 - d))).
    { unfold rest. replace (B - 1 - d)%nat with (S (B - 2 - d)) by lia. reflexivity. }
    assert (Hdelta :
              (if (d =? 0)%nat then
                 b0 <- item (equal_bins c d ++ rest) 0%nat ;; first_item b0
               else
                 bd <- item (equal_bins c d ++ rest) d ;;
                 f <- first_item bd ;;
                 bp <- item (equal_bins c d ++ rest) (d - 1)%nat ;;
                 l <- last_item bp ;;
                 Ok (f - l - 1)%Z) = Ok (Z.of_nat c)).
    { destruct (Nat.eqb_spec d 0) as [Hz | Hnz].
      - subst d. rewrite Hrest. cbn [equal_bins seq map app item nth_error bind].
        rewrite bin_range_first by exact Hc. f_equal. lia.
      - pose proof (item_app_r (equal_bins c d) rest 0) as Hi.
        rewrite equal_bins_length, Nat.add_0_r in Hi. rewrite Hi, Hrest.
        cbn [item nth_error bind].
        rewrite bin_range_first by exact Hc. cbn [bind].
        assert (Hprev : item (equal_bins c d ++ bin_range c (S d)
                               :: map (bin_range c) (seq (S (S d)) (B - 2 - d))) (d - 1)
                        = Ok (bin_range c (d - 1))).
        { unfold item. rewrite nth_error_app1 by (rewrite equal_bins_length; lia).
          unfold equal_bins. rewrite nth_error_map, nth_error_seq.
          destruct (Nat.ltb_spec (d - 1) d); [reflexivity | lia]. }
        rewrite Hprev. cbn [bind].
        rewrite bin_range_last by exact Hc. cbn [bind]. f_equal. nia. }
    rewrite Hdelta. cbn [bind]. f_equal.
    rewrite firstn_app, skipn_app, equal_bins_length.
    replace (d - d)%nat with 0%nat by lia.
    rewrite firstn_all2 by (rewrite equal_bins_length; lia).
    rewrite skipn_all2 by (rewrite equal_bins_length; lia).
    cbn [firstn skipn app]. rewrite app_nil_r.
    unfold rest. rewrite bin_ranges_pred.
    replace (B - 1)%nat with (d + (B - 1 - d))%nat at 2 by lia.
    symmetry. apply equal_bins_split.
Qed.

Lemma equal_bins_flatten (c B : nat) :
  flatten_2d (equal_bins c B) = map Z.of_nat (seq 0 (B * c)).
Proof.
  unfold flatten_2d. induction B as [| B IH]; [reflexivity |].
  replace (S B) with (B + 1)%nat by lia.
  rewrite equal_bins_split, concat_app, IH.
  cbn [seq map concat]. rewrite app_nil_r. unfold bin_range.
  rewrite <- map_app. f_equal.
  replace ((B + 1) * c)%nat with (B * c + c)%nat by lia.
  rewrite seq_app. reflexivity.
Qed.

(** With two bins, deleting the first one leaves the second one where it
    was: [len(bins) == 1] returns before any shift. *)
Lemma shift_bins_one_left (c : nat) :
  shift_bins (delete_at 0 (equal_bins c 2)) 0 = Ok [bin_range c 1].
Proof. reflexivity. Qed.

(** C5, at the input where the code departs from it.  The partition of
    [0, 4) into the bins [0, 1] and [2, 3] loses its first bin; [shift_bins]
    returns the survivor [2, 3] as it is, where the claim has [0, 1]: the
    early return on [len(bins) == 1] comes before the shift that the branch
    [dropped_bin == 0] makes for three bins and more. *)
Theorem shift_bins_keeps_single_survivor :
  equal_bins 2 2 = [[0; 1]; [2; 3]]%Z
  /\ delete_at 0 (equal_bins 2 2) = [[2; 3]]%Z
  /\ shift_bins (delete_at 0 (equal_bins 2 2)) 0 = Ok [[2; 3]]%Z
  /\ shift_bins (delete_at 0 (equal_bins 2 3)) 0 = Ok [[0; 1]; [2; 3]]%Z
  /\ forall bins' : list (list Z),
       shift_bins (delete_at 0 (equal_bins 2 2)) 0 = Ok bins' ->
       unique (flatten_2d bins') <> map Z.of_nat (seq 0 (4 - 2)).
Proof.
  repeat split; try reflexivity.
  intros bins' H. cbv in H. injection H as <-. cbv. discriminate.
Qed.

(** ** The trimming loop *)

Lemma mapM_length {A B : Type} (f : A -> result B) (l : list A) (r : list B) :
  mapM f l = Ok r -> length r = length l.
Proof.
  revert r. induction l as [| a l IH]; intros r; simpl.
  - intros [= <-]. reflexivity.
  - destruct (f a) as [b | e]; simpl; [| discriminate].
    destruct (mapM f l) as [bs | e]; simpl; [| discriminate].
    intros [= <-]. simpl. f_equal. apply IH. reflexivity.
Qed.

Lemma argmax_from_lt (l : list Q) (best_i i : nat) (best : Q) :
  (best_i < i)%nat -> (argmax_from best_i best i l < i + length l)%nat.
Proof.
  revert best_i i best. induction l as [| v l IH]; intros best_i i best H; simpl.
  - lia.
  - destruct (Qltb best v).
    + specialize (IH i (S i) v). lia.
    + specialize (IH best_i (S i) best). lia.
Qed.

Lemma nanargmax_lt (l : list Q) (i : nat) : nanargmax l = Ok i -> (i < length l)%nat.
Proof.
  destruct l as [| v l]; simpl; [discriminate |].
  intros [= <-]. pose proof (@argmax_from_lt l 0 1 v). lia.
Qed.

Lemma delete_at_length {A : Type} (i : nat) (l : list A) :
  (i < length l)%nat -> S (length (delete_at i l)) = length l.
Proof.
  intros H. unfold delete_at. rewrite length_app, length_firstn, length_skipn. lia.
Qed.

Lemma shift_bins_length (b b' : list (list Z)) (d : nat) :
  shift_bins b d = Ok b' -> length b' = length b.
Proof.
  unfold shift_bins.
  destruct ((d =? length b) || (length b =? 1))%nat.
  - intros [= <-]. reflexivity.
  - match goal with |- bind ?m _ = _ -> _ => destruct m as [delta | e] end;
      simpl; [| discriminate].
    intros [= <-].
    rewrite length_app, length_map, length_firstn, length_skipn. lia.
Qed.

Section Trimming.

Variable svds : list (list Q) -> list Q * Q * list Q.
Variable sqrt : Q -> Q.
Variable norm : list (list Q) -> Q.

(** A pass of the loop deletes one bin, and leaves in [n_bins] the number
    of bins there were before the deletion. *)
Lemma trim_body_counts (self : GeneNMFOA) (st st' : trim_state) :
  trim_body svds sqrt norm self st = Ok st' ->
  t_n_bins st' = length (t_bin_segs st)
  /\ S (length (t_bin_segs st')) = length (t_bin_segs st).
Proof.
  unfold trim_body.
  destruct (mapM _ (t_bin_segs st)) as [ss | e] eqn:Hss; simpl; [| discriminate].
  destruct (nanargmax _) as [drop_idx | e] eqn:Hdrop; simpl; [| discriminate].
  destruct (shift_bins _ drop_idx) as [segs | e] eqn:Hshift; simpl; [| discriminate].
  destruct (index_cols _ _) as [F_bin | e]; simpl; [| discriminate].
  intros [= <-]. simpl. split; [reflexivity |].
  apply shift_bins_length in Hshift. rewrite Hshift.
  apply delete_at_length.
  apply nanargmax_lt in Hdrop. rewrite length_map in Hdrop.
  apply mapM_length in Hss. lia.
Qed.

(** The DI vector the loop works with comes out of the clipping lines, at
    the start and after every pass. *)
Lemma baseline_start_rho (self : GeneNMFOA) (F : list (list Q)) (hi : list Z)
    (K E : list Q) (st : trim_state) :
  baseline_start svds sqrt self F hi = Ok (K, E, st) ->
  Forall di_cell_ok (t_rho_vec st).
Proof.
  unfold baseline_start.
  destruct (take_cols F (sort hi)) as [F_start | e]; simpl; [| discriminate].
  destruct (nmf_factors svds sqrt self F_start) as [K0 E0].
  destruct (split_into_chunks _ _) as [segs | e]; simpl; [| discriminate].
  intros [= <- <- <-]. apply di_scores_range.
Qed.

Lemma trim_body_rho (self : GeneNMFOA) (st st' : trim_state) :
  trim_body svds sqrt norm self st = Ok st' ->
  Forall di_cell_ok (t_rho_vec st').
Proof.
  unfold trim_body.
  destruct (mapM _ (t_bin_segs st)) as [ss | e]; simpl; [| discriminate].
  destruct (nanargmax _) as [drop_idx | e]; simpl; [| discriminate].
  destruct (shift_bins _ drop_idx) as [segs | e]; simpl; [| discriminate].
  destruct (index_cols _ _) as [F_bin | e]; simpl; [| discriminate].
  intros [= <-]. apply di_scores_range.
Qed.

(** With [min_bins] bins left, a stale count and a DI score above 0.1, the
    loop goes on. *)
Lemma trim_cond_at_floor (self : GeneNMFOA) (st : trim_state) (m : Q) :
  stale_count st ->
  length (t_bin_segs st) = min_bins self ->
  vmax (t_rho_vec st) = Ok m -> 1 # 10 < m ->
  trim_cond self st = Ok true.
Proof.
  unfold stale_count, trim_cond. intros Hn Hlen Hm Hgt.
  rewrite Hn, Hlen.
  destruct (Nat.ltb_spec (min_bins self) (S (min_bins self))); [| lia].
  rewrite Hm. simpl. f_equal. apply Qltb_true. exact Hgt.
Qed.

(** What the loop does keep: it never goes further than one bin below
    [min_bins]. *)
Lemma trim_loop_floor (fuel : nat) (self : GeneNMFOA) (st st' : trim_state) :
  t_n_bins st = length (t_bin_segs st)
  \/ (stale_count st /\ (min_bins self <= S (length (t_bin_segs st)))%nat) ->
  trim_loop svds sqrt norm fuel self st = Ok st' ->
  st' = st
  \/ (stale_count st' /\ (min_bins self <= S (length (t_bin_segs st')))%nat).
Proof.
  revert st. induction fuel as [| fuel IH]; intros st Hinv; simpl.
  - destruct (trim_cond self st) as [[|] | e]; simpl; try discriminate.
    intros [= <-]. left. reflexivity.
  - destruct (trim_cond self st) as [[|] | e] eqn:Hc; simpl; try discriminate.
    + destruct (trim_body svds sqrt norm self st) as [st1 | e] eqn:Hb; simpl;
        [| discriminate].
      intros Hloop. apply trim_body_counts in Hb. destruct Hb as [Hn Hlen].
      assert (Hgo : (min_bins self < t_n_bins st)%nat).
      { unfold trim_cond in Hc.
        destruct (Nat.ltb_spec (min_bins self) (t_n_bins st)); [assumption | discriminate]. }
      assert (Hinv1 : stale_count st1 /\ (min_bins self <= S (length (t_bin_segs st1)))%nat).
      { unfold stale_count in *. destruct Hinv as [H0 | [H0 H1]]; split; lia. }
      destruct (IH st1 (or_intror Hinv1) Hloop) as [-> | H]; right; assumption.
    + intros [= <-]. left. reflexivity.
Qed.

End Trimming.

(** With two bins the two slips meet: the survivor of the first pass keeps
    its old positions, the stale count lets a second pass start, and that
    pass indexes the shrunken matrix out of range. *)
Lemma two_bins_index_error :
  baseline_selection svds_envelope sqrt_unit norm_l1 choice_zero two_bins_obj short_gene
  = Raise IndexError.
Proof. vm_compute. reflexivity. Qed.

(** ** Early exit of baseline selection *)

Section EarlyExit.

Variable svds : list (list Q) -> list Q * Q * list Q.
Variable sqrt : Q -> Q.
Variable norm : list (list Q) -> Q.
Variable random_choice : nat -> nat.

(** The flag a returning call gives back tells which way the overhead
    went. *)
Lemma baseline_selection_flag (self : GeneNMFOA) (F est : list (list Q)) (ran : bool) :
  baseline_selection svds sqrt norm random_choice self F = Ok (est, ran) ->
  (ran = false /\ est = F /\ baseline_overhead random_choice self F = Ok None)
  \/ (ran = true /\ exists hi, baseline_overhead random_choice self F = Ok (Some hi)).
Proof.
  unfold baseline_selection.
  destruct (baseline_overhead random_choice self F) as [[hi |] | e]; cbn [bind].
  - destruct (baseline_start svds sqrt self F hi) as [[[K E] st] | e]; cbn [bind];
      [| discriminate].
    destruct (trim_loop _ _ _ _ _ _) as [st' | e]; cbn [bind]; [| discriminate].
    destruct (baseline_finish _ _ _ _ _ _ _) as [est' | e]; cbn [bind]; [| discriminate].
    intros [= <- <-]. right. eauto.
  - intros [= <- <-]. left. auto.
  - discriminate.
Qed.

(** C3, as amended.  Without downsampling a gene with fewer than
    [min_high_coverage] high-coverage positions, and with downsampling a
    gene with at most one high-coverage position among the sampled ones,
    makes [baseline_selection] return the flag False and the input matrix
    itself.  A sample row that sums to zero is not looked at. *)
Theorem early_exit_on_low_coverage (self : GeneNMFOA) (F : list (list Q)) (hi : list Z) :
  get_high_coverage_idx F = Ok hi ->
  ((downsample_rate self <= 1)%nat /\ (length hi < min_high_coverage self)%nat)
  \/ (exists a idx,
        (1 < downsample_rate self)%nat
        /\ downsample_2d random_choice self F false = Ok (a, idx)
        /\ (length (intersect1d (index_list idx) hi) <= 1)%nat) ->
  baseline_selection svds sqrt norm random_choice self F = Ok (F, false).
Proof.
  intros Hhi Hcase. unfold baseline_selection, baseline_overhead.
  destruct Hcase as [[Hrate Hfew] | [a [idx [Hrate [Hdown Hfew]]]]].
  - destruct (Nat.ltb_spec 1 (downsample_rate self)); [lia |].
    simpl. rewrite Hhi. simpl.
    destruct (Nat.ltb_spec (length hi) (min_high_coverage self)); [reflexivity | lia].
  - destruct (Nat.ltb_spec 1 (downsample_rate self)); [| lia].
    rewrite Hdown. simpl. rewrite Hhi. simpl.
    destruct (Nat.leb_spec (length (intersect1d (index_list idx) hi)) 1);
      [reflexivity | lia].
Qed.

(** A gene with enough high-coverage positions is not stopped by a silent
    sample, whatever the numeric libraries answer. *)
Lemma silent_sample_goes_on :
  baseline_selection svds sqrt norm random_choice low_threshold_obj silent_sample_gene
  <> Ok (silent_sample_gene, false).
Proof.
  intros H. apply baseline_selection_flag in H.
  destruct H as [[_ [_ H]] | [H _]]; discriminate.
Qed.

End EarlyExit.

(** C7 as stated fails under downsampling, where [np.random.choice] gives
    every call a draw of its own.  With a stride of 2, [alternating_gene] has
    its high-coverage positions at 0 and 2: the run in which the call draws
    1 samples the positions 1 and 3, finds none of them of high coverage
    and returns the input with the flag False, while the run in which the
    call draws 0 samples 0 and 2 and goes on to the fit, so that it raises
    or returns the flag True, whatever the numeric libraries answer. *)
Lemma parallel_equals_serial_counterexample :
  (1 <= mem_splits stride_one_chunk_obj)%nat
  /\ forall (svds : list (list Q) -> list Q * Q * list Q) (sqrt : Q -> Q)
        (norm : list (list Q) -> Q),
      par_apply_baseline_selection svds sqrt norm draws_one [alternating_gene]
        stride_one_chunk_obj
      = (set_use_baseline_selection [false] stride_one_chunk_obj, Ok [alternating_gene])
      /\ par_apply_baseline_selection svds sqrt norm draws_one [alternating_gene]
           stride_one_chunk_obj
         <> match run_baseline_selection_serial svds sqrt norm stride_one_chunk_obj
                    draws_zero 0 [alternating_gene] with
            | Ok r =>
                (set_use_baseline_selection (map snd r) stride_one_chunk_obj,
                 Ok (map fst r))
            | Raise e => (stride_one_chunk_obj, Raise e)
            end.
Proof.
  split; [vm_compute; lia |]. intros svds sqrt norm.
  assert (Hpar : par_apply_baseline_selection svds sqrt norm draws_one [alternating_gene]
                   stride_one_chunk_obj
                 = (set_use_baseline_selection [false] stride_one_chunk_obj,
                    Ok [alternating_gene])).
  { vm_compute. reflexivity. }
  split; [exact Hpar |]. rewrite Hpar.
  cbn [run_baseline_selection_serial].
  destruct (baseline_selection svds sqrt norm (draws_zero 0) stride_one_chunk_obj
              alternating_gene) as [[est ran] | e] eqn:Hrun; cbn [bind map fst snd].
  - apply baseline_selection_flag in Hrun.
    destruct Hrun as [[_ [_ Hover]] | [-> _]]; [vm_compute in Hover; discriminate |].
    intros H. apply (f_equal (fun r => use_baseline_selection (fst r))) in H.
    discriminate H.
  - discriminate.
Qed.

(** [peak_gene] leaves early without downsampling and with it. *)
Lemma early_exit_on_low_coverage_witness :
  baseline_selection svds_envelope sqrt_unit norm_l1 choice_zero low_threshold_obj peak_gene
  = Ok (peak_gene, false)
  /\ baseline_selection svds_envelope sqrt_unit norm_l1 choice_zero downsampling_obj peak_gene
     = Ok (peak_gene, false).
Proof.
  split.
  - apply (@early_exit_on_low_coverage svds_envelope sqrt_unit norm_l1 choice_zero
             low_threshold_obj peak_gene [0%Z]).
    + reflexivity.
    + left. split; vm_compute; lia.
  - apply (@early_exit_on_low_coverage svds_envelope sqrt_unit norm_l1 choice_zero
             downsampling_obj peak_gene [0%Z]).
    + reflexivity.
    + right. exists (Arr2 [[10; 1]; [10; 1]]), (inr [0%Z; 2%Z]).
      split; [vm_compute; lia |].
      split; [reflexivity | vm_compute; lia].
Defined.

(** C3 as stated fails, twice.  The second sample of [silent_sample_gene]
    sums to zero, all three positions are of high coverage where two are
    asked for, and [baseline_selection] runs to its end and returns the flag
    True with an estimate that is not the input.  And under downsampling
    [six_position_gene], with six high-coverage positions where fifty are
    asked for, is not stopped either: three of them are sampled, which is
    more than one. *)
Lemma early_exit_counterexample :
  (has_zero_row silent_sample_gene
   /\ baseline_selection svds_envelope sqrt_unit norm_l1 choice_zero
        low_threshold_obj silent_sample_gene
      = Ok ([[10; 10; 10]; [10; 10; 10]], true)
   /\ baseline_selection svds_envelope sqrt_unit norm_l1 choice_zero
        low_threshold_obj silent_sample_gene
      <> Ok (silent_sample_gene, false))
  /\ (get_high_coverage_idx six_position_gene = Ok [0; 1; 2; 3; 4; 5]%Z
      /\ min_high_coverage downsampling_fifty_obj = 50%nat
      /\ exists est,
           baseline_selection svds_envelope sqrt_unit norm_l1 choice_zero
             downsampling_fifty_obj six_position_gene = Ok (est, true)).
Proof.
  split; [split; [| split] | split; [| split]].
  - exists [0; 0; 0]. split; [right; left; reflexivity | reflexivity].
  - vm_compute. reflexivity.
  - apply silent_sample_goes_on.
  - reflexivity.
  - reflexivity.
  - eexists. vm_compute. reflexivity.
Qed.

(** ** The contract of fit and transform *)

Ltac run_M := unfold bindM, assign, lift, get_self, raise, ret.

Ltac break_match :=
  match goal with
  | |- context [match ?X with _ => _ end] => destruct X eqn:?
  | |- context [if ?X then _ else _] => destruct X eqn:?
  end.

Ltac break_hyp :=
  match goal with
  | H : (_, _) = (_, _) |- _ => inversion H; subst; clear H
  | H : context [match ?X with _ => _ end] |- _ => destruct X eqn:?; cbn in H
  | H : context [if ?X then _ else _] |- _ => destruct X eqn:?; cbn in H
  end.

Ltac run_fit := unfold fit; run_M; cbn; repeat (break_match; cbn); repeat break_hyp; cbn.

Lemma mapM_raise {A B : Type} (f : A -> result B) (l : list A) (e : exn) :
  mapM f l = Raise e -> exists a, In a l /\ f a = Raise e.
Proof.
  induction l as [| a l IH]; simpl; [discriminate |].
  destruct (f a) as [b | e'] eqn:Hfa; simpl.
  - destruct (mapM f l) as [bs | e'']; simpl; [discriminate |].
    intros [= ->]. destruct (IH eq_refl) as [a' [Hin Ha']]. eauto.
  - intros [= ->]. eauto.
Qed.

Lemma shape_at_raise (a : ndarray) (i : nat) (e : exn) :
  shape_at a i = Raise e -> e = IndexError.
Proof.
  unfold shape_at, item. destruct (nth_error (shape a) i); [discriminate |].
  intros [= <-]. reflexivity.
Qed.

Ltac no_value_error :=
  match goal with
  | H : shape_at _ _ = Raise ValueError |- _ =>
      apply shape_at_raise in H; discriminate
  | H : mapM (fun a => shape_at a 1) _ = Raise ValueError |- _ =>
      let a := fresh "a" in
      apply mapM_raise in H; destruct H as [a [_ H]];
      apply shape_at_raise in H; discriminate
  end.

(** [fit] sets the flag on its last line only. *)
Lemma fit_flag (cov_dat : list (string * ndarray)) (reads_dat : list (list Q))
    (self : GeneNMFOA) :
  snd (fit cov_dat reads_dat self) = Ok tt
  \/ fitted (fst (fit cov_dat reads_dat self)) = fitted self.
Proof.
  run_fit; auto.
Qed.

Lemma fit_ok_sets_flag (cov_dat : list (string * ndarray)) (reads_dat : list (list Q))
    (self : GeneNMFOA) :
  snd (fit cov_dat reads_dat self) = Ok tt ->
  fitted (fst (fit cov_dat reads_dat self)) = true.
Proof.
  run_fit; auto; discriminate.
Qed.

(** The flag of an object that was fitted before survives a later call of
    [fit] that raises: the guard of [transform] only protects an object
    that has never been fitted. *)
Remark refit_failure_keeps_flag (cov_dat : list (string * ndarray))
    (reads_dat : list (list Q)) (self : GeneNMFOA) (e : exn) :
  fitted self = true ->
  snd (fit cov_dat reads_dat self) = Raise e ->
  fitted (fst (fit cov_dat reads_dat self)) = true.
Proof.
  intros Hflag Hraise.
  destruct (fit_flag cov_dat reads_dat self) as [Hok | Hsame].
  - rewrite Hok in Hraise. discriminate.
  - rewrite Hsame. exact Hflag.
Qed.

(** By the time [fit] raises a [ValueError] it has stored its inputs. *)
Lemma fit_value_error_fields (cov_dat : list (string * ndarray))
    (reads_dat : list (list Q)) (self : GeneNMFOA) :
  snd (fit cov_dat reads_dat self) = Raise ValueError ->
  n_genes (fst (fit cov_dat reads_dat self)) = length cov_dat
  /\ genes (fst (fit cov_dat reads_dat self)) = map fst cov_dat
  /\ cov_mats (fst (fit cov_dat reads_dat self)) = map snd cov_dat
  /\ x (fst (fit cov_dat reads_dat self)) = reads_dat
  /\ x_adj (fst (fit cov_dat reads_dat self)) = reads_dat.
Proof.
  run_fit; try congruence; try no_value_error; auto;
    intros [= ->]; no_value_error.
Qed.

(** [downsample_2d] refuses a stride that reaches the length of the gene. *)
Lemma downsample_2d_stride (random_choice : nat -> nat) (self : GeneNMFOA)
    (F : list (list Q)) :
  (1 < downsample_rate self)%nat -> (ncols F <= downsample_rate self)%nat ->
  downsample_2d random_choice self F false = Raise ValueError.
Proof.
  intros Hrate Hlen. unfold downsample_2d.
  destruct (Nat.eqb_spec (downsample_rate self) 1); [lia |].
  destruct (Nat.leb_spec (ncols F) (downsample_rate self)); [reflexivity | lia].
Qed.

(** For one gene of rank 2 and one row of counts, [fit] raises on the stride
    exactly when the stride is above 1 and above the length of the gene:
    a stride equal to the length passes. *)
Lemma fit_one_gene (g : string) (m : list (list Q)) (counts : list Q) (self : GeneNMFOA) :
  snd (fit [(g, Arr2 m)] [counts] self)
  = if ((1 <? downsample_rate self) && (ncols m <? downsample_rate self))%nat
    then Raise ValueError else Ok tt.
Proof.
  unfold fit. run_M. cbn.
  destruct (downsample_rate self) as [| [| r]]; cbv beta iota; try reflexivity.
  destruct (Nat.leb_spec (S (S r)) (ncols m)), (Nat.leb_spec (ncols m) (S r));
    cbn [negb andb snd]; try reflexivity; lia.
Qed.

Lemma mapM_shape_2d (mats : list (list (list Q))) :
  mapM (fun a => shape_at a 1) (map Arr2 mats) = Ok (map ncols mats).
Proof.
  induction mats as [| m mats IH]; [reflexivity |].
  cbn [map mapM]. rewrite IH. reflexivity.
Qed.

Lemma mapM_as_2d (mats : list (list (list Q))) : mapM as_2d (map Arr2 mats) = Ok mats.
Proof.
  induction mats as [| m mats IH]; [reflexivity |].
  cbn [map mapM]. rewrite IH. reflexivity.
Qed.

Lemma forallb_ndim_2d (mats : list (list (list Q))) :
  forallb (fun z => (ndim z =? 2)%nat) (map Arr2 mats) = true.
Proof. induction mats as [| m mats IH]; [reflexivity | exact IH]. Qed.

Lemma fold_min_spec (l : list nat) (a r : nat) :
  (r <= fold_left Nat.min l a)%nat <-> (r <= a)%nat /\ Forall (fun n => (r <= n)%nat) l.
Proof.
  revert a. induction l as [| b l IH]; intros a; simpl.
  - split; [intros H; split; [exact H | constructor] | intros [H _]; exact H].
  - rewrite IH. split.
    + intros [H1 H2]. split; [lia |]. constructor; [lia | exact H2].
    + intros [H1 H2]. inversion H2; subst. split; [lia | assumption].
Qed.

Lemma np_vstack_sums (m0 : list (list Q)) (mats : list (list (list Q))) :
  np_vstack (row_sums m0 :: map row_sums mats)
  = if forallb (fun m => (nrows m =? nrows m0)%nat) mats
    then Ok (row_sums m0 :: map row_sums mats) else Raise ValueError.
Proof.
  unfold np_vstack.
  replace (forallb (fun r' => (length r' =? length (row_sums m0))%nat) (map row_sums mats))
    with (forallb (fun m => (nrows m =? nrows m0)%nat) mats); [reflexivity |].
  unfold row_sums, nrows. rewrite length_map.
  induction mats as [| m mats IH]; [reflexivity |].
  cbn [map forallb]. rewrite length_map, IH. reflexivity.
Qed.

Lemma forallb_false_In {A : Type} (f : A -> bool) (l : list A) :
  forallb f l = false -> exists a, In a l /\ f a = false.
Proof.
  induction l as [| a l IH]; simpl; [discriminate |].
  destruct (f a) eqn:Hfa; simpl.
  - intros H. destruct (IH H) as [b [Hb Hfb]]. eauto.
  - intros _. eauto.
Qed.

Ltac fit_step := cbn -[Nat.ltb Nat.leb Nat.eqb Z.div Z.add Z.to_nat nbytes np_vstack].

(** For genes of rank 2 and as many rows of counts, [fit] raises a
    [ValueError] exactly when the stride is above 1 and above the length of
    some gene, or when the genes do not all have the number of samples of
    the first one, which [np.vstack] refuses; a stride equal to the shortest
    length passes. *)
Lemma fit_stride_check (cov_dat : list (string * ndarray))
    (mats : list (list (list Q))) (reads_dat : list (list Q)) (self : GeneNMFOA) :
  mats <> [] -> map snd cov_dat = map Arr2 mats -> nrows reads_dat = length cov_dat ->
  snd (fit cov_dat reads_dat self) = Raise ValueError
  <-> ((1 < downsample_rate self)%nat
       /\ exists m, In m mats /\ (ncols m < downsample_rate self)%nat)
      \/ exists m, In m mats /\ nrows m <> nrows (hd [] mats).
Proof.
  intros Hne Hsnd Hrows.
  destruct mats as [| m0 mats]; [congruence |].
  destruct cov_dat as [| [g0 a0] cov_dat]; [discriminate |].
  injection Hsnd as Ha0 Hsnd. cbn [snd] in Ha0. subst a0.
  unfold fit. run_M. fit_step.
  rewrite Hsnd.
  change (shape_at (Arr2 m0) 1) with (Ok (A := nat) (ncols m0)).
  cbn [bind]. rewrite mapM_shape_2d. cbn [bind fst snd].
  fit_step.
  unfold nrows in Hrows. cbn [length] in Hrows. rewrite Hrows, Nat.eqb_refl.
  cbn [negb]. rewrite forallb_ndim_2d. cbn [negb andb].
  assert (Hsame : forallb (fun m => (nrows m =? nrows m0)%nat) mats = true
                  -> ~ exists m, In m (m0 :: mats) /\ nrows m <> nrows m0).
  { intros Hall [m [[<- | Hin] Hm]]; [congruence |].
    rewrite forallb_forall in Hall. apply Hm, Nat.eqb_eq, Hall. exact Hin. }
  assert (Hdiff : forallb (fun m => (nrows m =? nrows m0)%nat) mats = false
                  -> exists m, In m (m0 :: mats) /\ nrows m <> nrows m0).
  { intros Hall. apply forallb_false_In in Hall. destruct Hall as [m [Hin Hm]].
    exists m. split; [right; exact Hin | apply Nat.eqb_neq; exact Hm]. }
  cbn [hd].
  destruct (Nat.ltb_spec 1 (downsample_rate self)) as [Hrate | Hrate].
  - fit_step.
    destruct (Nat.leb_spec (downsample_rate self) (fold_left Nat.min (map ncols mats) (ncols m0)))
      as [Hle | Hgt].
    + fit_step. rewrite mapM_as_2d. fit_step. rewrite ?Nat.eqb_refl. cbn [andb negb].
      rewrite np_vstack_sums.
      destruct (forallb (fun m => (nrows m =? nrows m0)%nat) mats) eqn:Hall; fit_step.
      * split; [discriminate |].
        intros [[_ [m [Hin Hlt]]] | Hex]; [| destruct (Hsame eq_refl Hex)].
        apply fold_min_spec in Hle. destruct Hle as [H0 Hall'].
        destruct Hin as [<- | Hin]; [lia |].
        rewrite Forall_forall in Hall'.
        specialize (Hall' (ncols m) (in_map ncols _ _ Hin)). lia.
      * split; [intros _; right; apply Hdiff; reflexivity | reflexivity].
    + fit_step.
      split; [intros _ | reflexivity]. left. split; [exact Hrate |].
      destruct (Nat.le_gt_cases (downsample_rate self) (ncols m0)) as [H0 | H0];
        [| exists m0; split; [left; reflexivity | exact H0]].
      destruct (Exists_dec (fun n => (n < downsample_rate self)%nat) (map ncols mats))
        as [Hex | Hnex].
      { intros n. apply lt_dec. }
      * apply Exists_exists in Hex. destruct Hex as [n [Hn Hlt]].
        apply in_map_iff in Hn. destruct Hn as [m [<- Hin]].
        exists m. split; [right; exact Hin | exact Hlt].
      * exfalso. assert (Hle : (downsample_rate self
                                 <= fold_left Nat.min (map ncols mats) (ncols m0))%nat).
        { apply fold_min_spec. split; [exact H0 |].
          apply Forall_forall. intros n Hn.
          destruct (Nat.le_gt_cases (downsample_rate self) n) as [Hok | Hbad];
            [exact Hok |].
          exfalso. apply Hnex. apply Exists_exists. exists n. split; assumption. }
        lia.
  - fit_step. rewrite mapM_as_2d. fit_step. rewrite ?Nat.eqb_refl. cbn [andb negb].
      rewrite np_vstack_sums.
    destruct (forallb (fun m => (nrows m =? nrows m0)%nat) mats) eqn:Hall; fit_step.
    + split; [discriminate |].
      intros [[H _] | Hex]; [lia | destruct (Hsame eq_refl Hex)].
    + split; [intros _; right; apply Hdiff; reflexivity | reflexivity].
Qed.

(** C9, at the input where the code departs from it.  The stride is 2 and
    the one gene has 2 positions.  [fit] returns and sets the flag: its test
    is [np.min(self.Lis) >= self.downsample_rate].  The error comes later,
    from [downsample_2d] inside the parallel baseline selection of
    [transform], whose test is [self.downsample_rate >= Li]. *)
Theorem fit_accepts_stride_equal_to_length :
  downsample_rate stride_two_obj = 2%nat
  /\ Lis (fst (fit two_position_gene [[5; 5]] stride_two_obj)) = [2%nat]
  /\ snd (fit two_position_gene [[5; 5]] stride_two_obj) = Ok tt
  /\ fitted (fst (fit two_position_gene [[5; 5]] stride_two_obj)) = true
  /\ downsample_2d choice_zero (fst (fit two_position_gene [[5; 5]] stride_two_obj))
       [[3; 3]; [1; 1]] false = Raise ValueError
  /\ snd (transform svds_envelope sqrt_unit norm_l1 median_sorted all_draws_zero
            (fst (fit two_position_gene [[5; 5]] stride_two_obj)))
     = Raise ValueError.
Proof.
  repeat split; vm_compute; reflexivity.
Qed.

Section FitContract.

Variable svds : list (list Q) -> list Q * Q * list Q.
Variable sqrt : Q -> Q.
Variable norm : list (list Q) -> Q.
Variable median : list Q -> Q.
Variable draws : nat -> nat -> nat -> nat.

(** [transform] on an object whose flag is down raises and changes
    nothing. *)
Lemma transform_unfitted (self : GeneNMFOA) :
  fitted self = false ->
  transform svds sqrt norm median draws self = (self, Raise ValueError).
Proof.
  intros H. unfold transform. run_M. rewrite H. reflexivity.
Qed.

(** C10.  On an object whose flag is down (as [__init__] leaves it), a call
    of [fit] that raises leaves the flag down, and [transform] then raises
    and leaves the object as it is, so every later call raises too; when
    the error is one of the [ValueError]s of the checks, the gene list, the
    coverage matrices and the two copies of the read counts are already
    those of the call. *)
Theorem failed_fit_blocks_transform
    (cov_dat : list (string * ndarray)) (reads_dat : list (list Q))
    (self : GeneNMFOA) (e : exn) :
  fitted self = false ->
  snd (fit cov_dat reads_dat self) = Raise e ->
  fitted (fst (fit cov_dat reads_dat self)) = false
  /\ transform svds sqrt norm median draws (fst (fit cov_dat reads_dat self))
     = (fst (fit cov_dat reads_dat self), Raise ValueError)
  /\ (e = ValueError ->
      genes (fst (fit cov_dat reads_dat self)) = map fst cov_dat
      /\ cov_mats (fst (fit cov_dat reads_dat self)) = map snd cov_dat
      /\ x (fst (fit cov_dat reads_dat self)) = reads_dat
      /\ x_adj (fst (fit cov_dat reads_dat self)) = reads_dat).
Proof.
  intros Hflag Hraise.
  assert (Hdown : fitted (fst (fit cov_dat reads_dat self)) = false).
  { destruct (fit_flag cov_dat reads_dat self) as [Hok | Hsame].
    - rewrite Hok in Hraise. discriminate.
    - rewrite Hsame. exact Hflag. }
  split; [exact Hdown |].
  split; [apply transform_unfitted; exact Hdown |].
  intros ->. apply fit_value_error_fields in Hraise. tauto.
Qed.

End FitContract.

(** The three checks of [fit], each failing on a fresh object: two rows of
    counts for one gene, a coverage array of rank 3, a stride of 3 on a gene
    of 2 positions. *)
Lemma failed_fit_blocks_transform_witness :
  fitted (fst (fit two_position_gene two_count_rows stride_two_obj)) = false
  /\ fitted (fst (fit rank_three_gene [[5; 5]] stride_two_obj)) = false
  /\ fitted (fst (fit two_position_gene [[5; 5]] (init 1 3 1 1 20 1))) = false.
Proof.
  split; [| split].
  - apply (@failed_fit_blocks_transform svds_envelope sqrt_unit norm_l1 median_sorted
             all_draws_zero two_position_gene two_count_rows stride_two_obj ValueError);
      reflexivity.
  - apply (@failed_fit_blocks_transform svds_envelope sqrt_unit norm_l1 median_sorted
             all_draws_zero rank_three_gene [[5; 5]] stride_two_obj ValueError);
      reflexivity.
  - apply (@failed_fit_blocks_transform svds_envelope sqrt_unit norm_l1 median_sorted
             all_draws_zero two_position_gene [[5; 5]] (init 1 3 1 1 20 1) ValueError);
      reflexivity.
Defined.

(** ** Shapes *)

Lemma zip_with_length {A B C : Type} (f : A -> B -> C) (a : list A) (b : list B) :
  length (zip_with f a b) = Nat.min (length a) (length b).
Proof.
  revert b. induction a as [| x0 a IH]; intros [| y b]; simpl; auto.
Qed.

Lemma rect_has_dims (m : list (list Q)) : rect m -> has_dims (nrows m) (ncols m) m.
Proof. intros H. split; [reflexivity | exact H]. Qed.

Lemma has_dims_rect (p L : nat) (m : list (list Q)) :
  has_dims p L m -> rect m /\ nrows m = p /\ (p = 0%nat \/ ncols m = L).
Proof.
  intros [Hlen Hrows]. unfold rect, nrows, ncols.
  destruct m as [| r m]; simpl in *.
  - split; [constructor | split; [exact Hlen | left; symmetry; exact Hlen]].
  - inversion Hrows as [| r0 m0 Hr Hm]; subst.
    split; [| split; [reflexivity | right; reflexivity]].
    constructor; [reflexivity | exact Hm].
Qed.

Lemma dot_dims (p L : nat) (K E : list Q) :
  length K = p -> (p = 0%nat \/ length E = L) -> has_dims p L (dot K E).
Proof.
  intros HK HE. unfold dot. split.
  - rewrite length_map. exact HK.
  - apply Forall_map, Forall_forall. intros k Hk. rewrite length_map.
    destruct HE as [Hz | HE]; [| exact HE].
    subst p. destruct K; [destruct Hk | discriminate].
Qed.

Lemma zip_rows_length (L : nat) (f : Q -> Q -> Q) (a b : list (list Q)) :
  Forall (fun r => length r = L) a -> Forall (fun r => length r = L) b ->
  Forall (fun r => length r = L) (zip_with (zip_with f) a b).
Proof.
  intros Ha. revert b. induction Ha as [| r a Hr Ha IH]; intros b Hb; simpl.
  - constructor.
  - destruct Hb as [| r' b Hr' Hb]; constructor.
    + rewrite zip_with_length, Hr, Hr'. apply Nat.min_id.
    + apply IH. exact Hb.
Qed.

Lemma mat_zip_dims (p L : nat) (f : Q -> Q -> Q) (a b : list (list Q)) :
  has_dims p L a -> has_dims p L b -> has_dims p L (mat_zip f a b).
Proof.
  unfold mat_zip. intros [Ha Hra] [Hb Hrb]. split.
  - rewrite zip_with_length, Ha, Hb. apply Nat.min_id.
  - apply zip_rows_length; assumption.
Qed.

Lemma mat_map_dims (p L : nat) (f : Q -> Q) (a : list (list Q)) :
  has_dims p L a -> has_dims p L (mat_map f a).
Proof.
  unfold mat_map. intros [Ha Hra]. split.
  - rewrite length_map. exact Ha.
  - apply Forall_map. eapply Forall_impl; [| exact Hra].
    intros r Hr. simpl. rewrite length_map. exact Hr.
Qed.

Lemma clamp_row_dominates (r r' : list Q) :
  length r = length r' ->
  Forall2 Qle r' (zip_with (fun e v => if Qltb e v then v else e) r r').
Proof.
  revert r'. induction r as [| e r IH]; intros [| v r'] Hlen; simpl in *;
    try constructor; try discriminate.
  - destruct (Qltb e v) eqn:Hlt; qbool; lra.
  - apply IH. congruence.
Qed.

(** The quality-control line dominates its second argument. *)
Lemma over_approx_dominates (p L : nat) (est x0 : list (list Q)) :
  has_dims p L est -> has_dims p L x0 -> mat_le x0 (over_approx est x0).
Proof.
  unfold over_approx, mat_zip, mat_le. intros [He Hre] [Hx Hrx].
  assert (Hlen : length est = length x0) by congruence. clear He Hx.
  revert x0 Hlen Hrx.
  induction Hre as [| r est Hr Hre IH]; intros [| r' x0] Hlen Hrx; simpl in *;
    try constructor; try discriminate.
  - apply clamp_row_dominates. inversion Hrx; subst. congruence.
  - apply IH; [congruence | inversion Hrx; assumption].
Qed.

Lemma mat_le_refl (m : list (list Q)) : mat_le m m.
Proof.
  unfold mat_le. induction m as [| r m IH]; constructor; [| exact IH].
  induction r as [| q r IHr]; constructor; [apply Qle_refl | exact IHr].
Qed.

Section OverApproximation.

Variable svds : list (list Q) -> list Q * Q * list Q.
Variable sqrt : Q -> Q.
Variable norm : list (list Q) -> Q.
Variable random_choice : nat -> nat.

Hypothesis svds_ok : svds_shaped svds.

Lemma rank_one_dims (p L : nat) (m : list (list Q)) :
  has_dims p L m ->
  length (fst (rank_one_approx svds m)) = p
  /\ (p = 0%nat \/ length (snd (rank_one_approx svds m)) = L).
Proof.
  intros Hm. destruct (has_dims_rect Hm) as [Hrect [Hrows Hcols]].
  destruct (svds_ok Hrect) as [Hu Hv].
  unfold rank_one_approx. destruct (svds m) as [[u s0] v]. simpl in *.
  rewrite length_map. split; [congruence |].
  destruct Hcols as [Hz | Hc]; [left; exact Hz | right; congruence].
Qed.

Lemma nmf_step_shapes (p L : nat) (x0 : list (list Q)) (c : Q)
    (st : list Q * list Q * list (list Q) * list (list Q)) :
  has_dims p L x0 -> nmf_shapes p L st -> nmf_shapes p L (nmf_step svds x0 c st).
Proof.
  intros Hx. destruct st as [[[K E] est] lmbda]. intros [_ [_ [Hest Hl]]].
  unfold nmf_step.
  set (lmbda' := mat_map _ (mat_zip Qminus lmbda _)).
  assert (Hl' : has_dims p L lmbda').
  { apply mat_map_dims, mat_zip_dims; [exact Hl |].
    apply mat_map_dims, mat_zip_dims; assumption. }
  assert (Hsum : has_dims p L (mat_zip Qplus est lmbda')) by (apply mat_zip_dims; assumption).
  destruct (rank_one_dims Hsum) as [HK HE].
  destruct (rank_one_approx svds (mat_zip Qplus est lmbda')) as [K' E']. simpl in *.
  split; [exact HK |]. split; [exact HE |].
  split; [apply dot_dims; assumption | exact Hl'].
Qed.

Lemma nmf_run_shapes (self : GeneNMFOA) (p L : nat) (x0 : list (list Q)) :
  has_dims p L x0 -> nmf_shapes p L (nmf_run svds sqrt self x0).
Proof.
  intros Hx. unfold nmf_run.
  destruct (rank_one_dims Hx) as [HK HE].
  destruct (rank_one_approx svds x0) as [K E]. simpl in HK, HE.
  generalize (sqrt (inject_Z (Z.of_nat (nmf_iter self)))). intros c.
  induction (nmf_iter self) as [| n IH].
  - split; [exact HK |]. split; [exact HE |].
    split; [apply dot_dims; assumption | apply mat_map_dims; exact Hx].
  - rewrite Nat.iter_succ. apply nmf_step_shapes; assumption.
Qed.

(** [nmf(x)] dominates [x]. *)
Lemma nmf_estimate_dominates (self : GeneNMFOA) (x0 : list (list Q)) :
  rect x0 -> mat_le x0 (nmf_estimate svds sqrt self x0).
Proof.
  intros Hrect. pose proof (rect_has_dims Hrect) as Hx.
  pose proof (nmf_run_shapes self Hx) as Hrun.
  unfold nmf_estimate.
  destruct (nmf_run svds sqrt self x0) as [[[K E] est] lmbda].
  destruct Hrun as [_ [_ [Hest _]]].
  eapply over_approx_dominates; eassumption.
Qed.

Lemma nmf_factors_length (self : GeneNMFOA) (p L : nat) (x0 : list (list Q)) :
  has_dims p L x0 -> length (fst (nmf_factors svds sqrt self x0)) = p.
Proof.
  intros Hx. pose proof (nmf_run_shapes self Hx) as Hrun.
  unfold nmf_factors.
  destruct (nmf_run svds sqrt self x0) as [[[K E] est] lmbda].
  destruct Hrun as [HK _]. simpl. rewrite length_map. exact HK.
Qed.

Lemma take_cols_dims (x0 m : list (list Q)) (idx : list Z) :
  take_cols x0 idx = Ok m -> has_dims (nrows x0) (length idx) m.
Proof.
  unfold take_cols.
  destruct (mapM (norm_index (ncols x0)) idx) as [js | e] eqn:Hjs; simpl; [| discriminate].
  intros [= <-]. apply mapM_length in Hjs. split.
  - apply length_map.
  - apply Forall_map, Forall_forall. intros r _. rewrite length_map. exact Hjs.
Qed.

Lemma index_cols_dims (x0 m : list (list Q)) (idx : list Z) :
  index_cols x0 idx = Ok m -> has_dims (nrows x0) (length idx) m.
Proof.
  destruct idx as [| z idx]; [discriminate | apply take_cols_dims].
Qed.

Lemma floor_K_length (K K' : list Q) : floor_K K = Ok K' -> length K' = length K.
Proof.
  unfold floor_K. destruct (filter _ K); [discriminate |].
  intros [= <-]. apply length_map.
Qed.

Lemma scale_rows_dims (p L : nat) (F : list (list Q)) (K : list Q) :
  has_dims p L F -> length K = p -> has_dims p L (scale_rows F K).
Proof.
  unfold scale_rows. intros [HF Hrows] HK. split.
  - rewrite zip_with_length, HF, HK. apply Nat.min_id.
  - clear HF HK. revert K.
    induction Hrows as [| r F Hr Hrows IH]; intros [| k K]; simpl; constructor.
    + rewrite length_map. exact Hr.
    + apply IH.
Qed.

Lemma fold_max_length (L : nat) (rs : list (list Q)) (r : list Q) :
  length r = L -> Forall (fun r' => length r' = L) rs ->
  length (fold_left (zip_with Qmaxb) rs r) = L.
Proof.
  intros Hr Hrs. revert r Hr.
  induction Hrs as [| r' rs Hr' Hrs IH]; intros r Hr; simpl; [exact Hr |].
  apply IH. rewrite zip_with_length, Hr, Hr'. apply Nat.min_id.
Qed.

Lemma col_max_length (p L : nat) (m : list (list Q)) (E : list Q) :
  has_dims p L m -> col_max m = Ok E -> length E = L.
Proof.
  intros [_ Hrows]. unfold col_max. destruct m as [| r rs]; [discriminate |].
  intros [= <-]. inversion Hrows; subst. apply fold_max_length; auto.
Qed.

Lemma trim_body_dims (self : GeneNMFOA) (st st' : trim_state) :
  trim_body svds sqrt norm self st = Ok st' ->
  exists L, has_dims (nrows (t_F_bin st)) L (t_F_bin st').
Proof.
  unfold trim_body.
  destruct (mapM _ (t_bin_segs st)) as [ss | e]; simpl; [| discriminate].
  destruct (nanargmax _) as [drop_idx | e]; simpl; [| discriminate].
  destruct (shift_bins _ drop_idx) as [segs | e]; simpl; [| discriminate].
  destruct (index_cols _ _) as [F_bin | e] eqn:Hcols; simpl; [| discriminate].
  intros [= <-]. simpl. eexists. apply (index_cols_dims _ _ Hcols).
Qed.

Lemma trim_loop_dims (fuel : nat) (self : GeneNMFOA) (p : nat) (st st' : trim_state) :
  (exists L, has_dims p L (t_F_bin st)) ->
  trim_loop svds sqrt norm fuel self st = Ok st' ->
  exists L, has_dims p L (t_F_bin st').
Proof.
  revert st. induction fuel as [| fuel IH]; intros st Hst; simpl.
  - destruct (trim_cond self st) as [[|] | e]; simpl; try discriminate.
    intros [= <-]. exact Hst.
  - destruct (trim_cond self st) as [[|] | e]; simpl; try discriminate.
    + destruct (trim_body svds sqrt norm self st) as [st1 | e] eqn:Hb; simpl;
        [| discriminate].
      apply IH. destruct Hst as [L [Hp _]].
      destruct (trim_body_dims _ _ Hb) as [L1 H1]. exists L1.
      unfold nrows in H1. rewrite Hp in H1. exact H1.
    + intros [= <-]. exact Hst.
Qed.

Lemma baseline_start_dims (self : GeneNMFOA) (F : list (list Q)) (hi : list Z)
    (K E : list Q) (st : trim_state) :
  baseline_start svds sqrt self F hi = Ok (K, E, st) ->
  length K = nrows F /\ exists L, has_dims (nrows F) L (t_F_bin st).
Proof.
  unfold baseline_start.
  destruct (take_cols F (sort hi)) as [F_start | e] eqn:Hcols; simpl; [| discriminate].
  apply take_cols_dims in Hcols.
  pose proof (nmf_factors_length self Hcols) as HK.
  destruct (nmf_factors svds sqrt self F_start) as [K0 E0]. simpl in HK.
  destruct (split_into_chunks _ _) as [segs | e]; simpl; [| discriminate].
  intros [= <- <- <-]. simpl. split; [exact HK | eauto].
Qed.

Lemma baseline_finish_dominates (self : GeneNMFOA) (p L : nat) (F est : list (list Q))
    (K E : list Q) (st : trim_state) :
  has_dims p L F -> length K = p -> (exists L', has_dims p L' (t_F_bin st)) ->
  baseline_finish svds sqrt self F K E st = Ok est ->
  mat_le F est.
Proof.
  intros HF HK [L' Hst]. unfold baseline_finish.
  destruct (vmax (t_rho_vec st)) as [m | e]; simpl; [| discriminate].
  pose proof (nmf_factors_length self Hst) as HK'.
  assert (HK1 : length (fst (if Qltb m (1 # 10)
                              then nmf_factors svds sqrt self (t_F_bin st)
                              else (K, E))) = p).
  { destruct (Qltb m (1 # 10)); [exact HK' | exact HK]. }
  destruct (if Qltb m (1 # 10) then nmf_factors svds sqrt self (t_F_bin st) else (K, E))
    as [K1 E1].
  simpl in HK1.
  destruct (floor_K K1) as [K2 | e] eqn:Hfloor; simpl; [| discriminate].
  apply floor_K_length in Hfloor.
  assert (HK2 : length K2 = p) by congruence.
  destruct (col_max (scale_rows F K2)) as [E2 | e] eqn:Hmax; simpl; [| discriminate].
  apply (@col_max_length p L _ _ (@scale_rows_dims p L F K2 HF HK2)) in Hmax.
  intros [= <-].
  apply over_approx_dominates with (p := p) (L := L); [| exact HF].
  apply mat_map_dims, dot_dims; [exact HK2 | right; exact Hmax].
Qed.

(** [baseline_selection(F)] dominates [F]. *)
Lemma baseline_selection_dominates (self : GeneNMFOA) (F est : list (list Q)) (ran : bool) :
  rect F ->
  baseline_selection svds sqrt norm random_choice self F = Ok (est, ran) ->
  mat_le F est.
Proof.
  intros Hrect. unfold baseline_selection.
  destruct (baseline_overhead random_choice self F) as [[hi |] | e]; cbn [bind].
  - destruct (baseline_start svds sqrt self F hi) as [[[K E] st] | e] eqn:Hstart;
      cbn [bind]; [| discriminate].
    destruct (baseline_start_dims _ _ _ Hstart) as [HK Hst].
    destruct (trim_loop _ _ _ _ _ _) as [st' | e] eqn:Hloop; cbn [bind]; [| discriminate].
    pose proof (trim_loop_dims _ _ _ Hst Hloop) as Hst'.
    destruct (baseline_finish _ _ _ _ _ _ _) as [est' | e] eqn:Hfin; cbn [bind];
      [| discriminate].
    intros [= <- <-].
    eapply baseline_finish_dominates; [apply rect_has_dims; exact Hrect | | |]; eassumption.
  - intros [= <- <-]. apply mat_le_refl.
  - discriminate.
Qed.

End OverApproximation.

Lemma svds_envelope_shaped : svds_shaped svds_envelope.
Proof.
  intros m Hrect. unfold svds_envelope. simpl. split; [apply length_map |].
  destruct m as [| r rs]; [reflexivity |]. simpl.
  apply fold_max_length; [reflexivity |].
  inversion Hrect; subst. assumption.
Qed.

(** C1.  Whenever [svds] answers with factors of the shape of its argument,
    the matrix that [nmf(x)] returns with [factors=False] is at least [x] at
    every entry, and the estimate that [baseline_selection(F)] returns is at
    least [F] at every entry; non-negativity of the input is not needed. *)
Theorem estimates_dominate_coverage
    (svds : list (list Q) -> list Q * Q * list Q) (sqrt : Q -> Q)
    (norm : list (list Q) -> Q) (random_choice : nat -> nat) (self : GeneNMFOA) :
  svds_shaped svds ->
  (forall x0 est : list (list Q),
      rect x0 -> nmf svds sqrt self x0 false = inr est -> mat_le x0 est)
  /\ (forall (F est : list (list Q)) (ran : bool),
         rect F ->
         baseline_selection svds sqrt norm random_choice self F = Ok (est, ran) ->
         mat_le F est).
Proof.
  intros Hsvds. split.
  - intros x0 est Hrect [= <-]. apply nmf_estimate_dominates; assumption.
  - intros F est ran Hrect Hrun.
    eapply baseline_selection_dominates; eassumption.
Qed.

(** Both estimates on concrete genes, with [svds_envelope] for [svds]. *)
Lemma estimates_dominate_coverage_witness :
  mat_le [[1; 2; 3]; [3; 2; 1]] [[3; 2; 3]; [3; 2; 3]]
  /\ mat_le silent_sample_gene [[10; 10; 10]; [10; 10; 10]].
Proof.
  destruct (@estimates_dominate_coverage svds_envelope sqrt_unit norm_l1 choice_zero
              low_threshold_obj svds_envelope_shaped) as [Hnmf Hbase].
  split.
  - apply Hnmf; [repeat constructor | vm_compute; reflexivity].
  - apply (Hbase silent_sample_gene _ true); [repeat constructor | vm_compute; reflexivity].
Defined.

(** ** The bound of the modelled loop is never met *)

Lemma bind_no_fuel {A B : Type} (m : result A) (k : A -> result B) :
  no_fuel_error m -> (forall a, m = Ok a -> no_fuel_error (k a)) ->
  no_fuel_error (bind m k).
Proof.
  intros Hm Hk. destruct m as [a | e]; simpl; [apply Hk; reflexivity |].
  intros [= ->]. apply Hm. reflexivity.
Qed.

Lemma mapM_no_fuel {A B : Type} (f : A -> result B) (l : list A) :
  (forall a, no_fuel_error (f a)) -> no_fuel_error (mapM f l).
Proof.
  intros Hf. induction l as [| a l IH]; simpl; [discriminate |].
  apply bind_no_fuel; [apply Hf |]. intros b _.
  apply bind_no_fuel; [exact IH |]. intros bs _. discriminate.
Qed.

Create HintDb nofuel.

Ltac nofuel :=
  repeat match goal with
    | |- no_fuel_error (bind _ _) => apply bind_no_fuel; [| intros ? ?]
    | |- no_fuel_error (mapM _ _) => apply mapM_no_fuel; intros ?
    | |- no_fuel_error (Ok _) => discriminate
    | |- no_fuel_error (Raise _) => discriminate
    | |- no_fuel_error (if ?c then _ else _) => destruct c
    | |- no_fuel_error (match ?v with _ => _ end) => destruct v
    | |- _ => solve [auto with nofuel]
    end.

Lemma norm_index_no_fuel (L : nat) (i : Z) : no_fuel_error (norm_index L i).
Proof. unfold norm_index. nofuel. Qed.
#[local] Hint Resolve norm_index_no_fuel : nofuel.

Lemma take_cols_no_fuel (m : list (list Q)) (idx : list Z) : no_fuel_error (take_cols m idx).
Proof. unfold take_cols. nofuel. Qed.
#[local] Hint Resolve take_cols_no_fuel : nofuel.

Lemma index_cols_no_fuel (m : list (list Q)) (idx : list Z) :
  no_fuel_error (index_cols m idx).
Proof. destruct idx; [discriminate | apply take_cols_no_fuel]. Qed.
#[local] Hint Resolve index_cols_no_fuel : nofuel.

Lemma take_rows_no_fuel (m : list (list Q)) (idx : list Z) : no_fuel_error (take_rows m idx).
Proof. unfold take_rows. nofuel. Qed.
#[local] Hint Resolve take_rows_no_fuel : nofuel.

Lemma item_no_fuel {A : Type} (l : list A) (i : nat) : no_fuel_error (item l i).
Proof. unfold item. nofuel. Qed.
#[local] Hint Resolve item_no_fuel : nofuel.

Lemma col_max_no_fuel (m : list (list Q)) : no_fuel_error (col_max m).
Proof. unfold col_max. nofuel. Qed.
#[local] Hint Resolve col_max_no_fuel : nofuel.

Lemma vmax_no_fuel (v : list Q) : no_fuel_error (vmax v).
Proof. unfold vmax. nofuel. Qed.
#[local] Hint Resolve vmax_no_fuel : nofuel.

Lemma nanargmax_no_fuel (v : list Q) : no_fuel_error (nanargmax v).
Proof. unfold nanargmax. nofuel. Qed.
#[local] Hint Resolve nanargmax_no_fuel : nofuel.

Lemma get_high_coverage_idx_no_fuel (m : list (list Q)) :
  no_fuel_error (get_high_coverage_idx m).
Proof. unfold get_high_coverage_idx, mat_max. nofuel. Qed.
#[local] Hint Resolve get_high_coverage_idx_no_fuel : nofuel.

Lemma floor_K_no_fuel (K : list Q) : no_fuel_error (floor_K K).
Proof. unfold floor_K. nofuel. Qed.
#[local] Hint Resolve floor_K_no_fuel : nofuel.

Lemma split_into_chunks_no_fuel {A : Type} (l : list A) (n : nat) :
  no_fuel_error (split_into_chunks l n).
Proof. unfold split_into_chunks. nofuel. Qed.
#[local] Hint Resolve split_into_chunks_no_fuel : nofuel.

Lemma shift_bins_no_fuel (b : list (list Z)) (d : nat) : no_fuel_error (shift_bins b d).
Proof. unfold shift_bins, first_item, last_item. nofuel. Qed.
#[local] Hint Resolve shift_bins_no_fuel : nofuel.

Section NoFuel.

Variable svds : list (list Q) -> list Q * Q * list Q.
Variable sqrt : Q -> Q.
Variable norm : list (list Q) -> Q.
Variable random_choice : nat -> nat.

Lemma downsample_2d_no_fuel (self : GeneNMFOA) (m : list (list Q)) (by_row : bool) :
  no_fuel_error (downsample_2d random_choice self m by_row).
Proof. unfold downsample_2d, systematic_sample, np_random_choice. nofuel. Qed.

Lemma baseline_overhead_no_fuel (self : GeneNMFOA) (F : list (list Q)) :
  no_fuel_error (baseline_overhead random_choice self F).
Proof.
  pose proof downsample_2d_no_fuel. unfold baseline_overhead. nofuel.
Qed.

Lemma baseline_start_no_fuel (self : GeneNMFOA) (F : list (list Q)) (hi : list Z) :
  no_fuel_error (baseline_start svds sqrt self F hi).
Proof. unfold baseline_start. nofuel. Qed.

Lemma trim_cond_no_fuel (self : GeneNMFOA) (st : trim_state) :
  no_fuel_error (trim_cond self st).
Proof. unfold trim_cond. nofuel. Qed.

Lemma trim_body_no_fuel (self : GeneNMFOA) (st : trim_state) :
  no_fuel_error (trim_body svds sqrt norm self st).
Proof. unfold trim_body. nofuel. Qed.

Lemma baseline_finish_no_fuel (self : GeneNMFOA) (F : list (list Q)) (K E : list Q)
    (st : trim_state) :
  no_fuel_error (baseline_finish svds sqrt self F K E st).
Proof. unfold baseline_finish. nofuel. Qed.

(** A fuel above the number of bins is enough for the loop. *)
Lemma trim_loop_no_fuel (fuel : nat) (self : GeneNMFOA) (st : trim_state) :
  (length (t_bin_segs st) < fuel)%nat ->
  no_fuel_error (trim_loop svds sqrt norm fuel self st).
Proof.
  revert st. induction fuel as [| fuel IH]; intros st Hlen; [lia |].
  cbn [trim_loop].
  apply bind_no_fuel; [apply trim_cond_no_fuel |].
  intros [|] _; [| discriminate].
  apply bind_no_fuel; [apply trim_body_no_fuel |].
  intros st' Hb. apply IH. apply trim_body_counts in Hb. lia.
Qed.

(** [baseline_selection] ends in a value or in a python exception. *)
Lemma baseline_selection_no_fuel (self : GeneNMFOA) (F : list (list Q)) :
  no_fuel_error (baseline_selection svds sqrt norm random_choice self F).
Proof.
  unfold baseline_selection.
  apply bind_no_fuel; [apply baseline_overhead_no_fuel |].
  intros [hi |] _; [| discriminate].
  apply bind_no_fuel; [apply baseline_start_no_fuel |].
  intros [[K E] st] _.
  apply bind_no_fuel; [apply trim_loop_no_fuel; lia |].
  intros st' _.
  apply bind_no_fuel; [apply baseline_finish_no_fuel |].
  intros est _. discriminate.
Qed.

End NoFuel.

(** * Further properties of the code *)

(** ** High-coverage positions *)

Lemma Qmaxb_ge_l (a b : Q) : a <= Qmaxb a b.
Proof. unfold Qmaxb. destruct (Qltb a b) eqn:H; qbool; lra. Qed.

Lemma Qmaxb_ge_r (a b : Q) : b <= Qmaxb a b.
Proof. unfold Qmaxb. destruct (Qltb a b) eqn:H; qbool; lra. Qed.

Lemma Qmaxb_cases (a b : Q) : Qmaxb a b = a \/ Qmaxb a b = b.
Proof. unfold Qmaxb. destruct (Qltb a b); auto. Qed.

Lemma fold_max_in (l : list Q) (a : Q) : In (fold_left Qmaxb l a) (a :: l).
Proof.
  revert a. induction l as [| b l IH]; intros a; simpl.
  - auto.
  - destruct (IH (Qmaxb a b)) as [H | H].
    + rewrite <- H. destruct (Qmaxb_cases a b) as [E | E]; rewrite E; simpl; auto.
    + simpl. auto.
Qed.

Lemma fold_max_ge_init (l : list Q) (a : Q) : a <= fold_left Qmaxb l a.
Proof.
  revert a. induction l as [| b l IH]; intros a; simpl.
  - lra.
  - specialize (IH (Qmaxb a b)). pose proof (Qmaxb_ge_l a b). lra.
Qed.

Lemma fold_max_upper (l : list Q) (a k : Q) : In k (a :: l) -> k <= fold_left Qmaxb l a.
Proof.
  revert a. induction l as [| b l IH]; intros a H; simpl in *.
  - destruct H as [H | []]. subst. lra.
  - destruct H as [H | [H | H]].
    + subst. pose proof (fold_max_ge_init l (Qmaxb k b)).
      pose proof (Qmaxb_ge_l k b). lra.
    + subst. pose proof (fold_max_ge_init l (Qmaxb a k)).
      pose proof (Qmaxb_ge_r a k). lra.
    + apply IH. right. exact H.
Qed.

Lemma Forall2_Qle_refl (r : list Q) : Forall2 Qle r r.
Proof. induction r; constructor; [apply Qle_refl | assumption]. Qed.

Lemma Forall2_Qle_trans (a b c : list Q) :
  Forall2 Qle a b -> Forall2 Qle b c -> Forall2 Qle a c.
Proof.
  intros Hab. revert c. induction Hab as [| x0 y a b Hxy Hab IH]; intros c Hbc.
  - inversion Hbc. constructor.
  - inversion Hbc as [| y' z b' c' Hyz Hbc']; subst.
    constructor; [lra | apply IH; assumption].
Qed.

Lemma zip_max_upper (a b : list Q) :
  length a = length b ->
  Forall2 Qle a (zip_with Qmaxb a b) /\ Forall2 Qle b (zip_with Qmaxb a b).
Proof.
  revert b. induction a as [| x0 a IH]; intros [| y b] Hlen; simpl in *;
    try discriminate.
  - split; constructor.
  - destruct (IH b) as [Ha Hb]; [congruence |].
    split; constructor; auto using Qmaxb_ge_l, Qmaxb_ge_r.
Qed.

Lemma fold_zip_max_upper (L : nat) (rs : list (list Q)) (acc : list Q) :
  length acc = L -> Forall (fun r => length r = L) rs ->
  Forall2 Qle acc (fold_left (zip_with Qmaxb) rs acc)
  /\ Forall (fun row => Forall2 Qle row (fold_left (zip_with Qmaxb) rs acc)) rs.
Proof.
  intros Hacc Hrs. revert acc Hacc.
  induction Hrs as [| r rs Hr Hrs IH]; intros acc Hacc; simpl.
  - split; [apply Forall2_Qle_refl | constructor].
  - destruct (@zip_max_upper acc r) as [Ha Hb]; [congruence |].
    destruct (IH (zip_with Qmaxb acc r)) as [H1 H2].
    { rewrite zip_with_length, Hacc, Hr. apply Nat.min_id. }
    split; [eapply Forall2_Qle_trans; eassumption |].
    constructor; [eapply Forall2_Qle_trans; eassumption | exact H2].
Qed.

(** The column maxima are at least every row, entry by entry. *)
Lemma col_max_upper (p L : nat) (m : list (list Q)) (E : list Q) :
  has_dims p L m -> col_max m = Ok E -> Forall (fun row => Forall2 Qle row E) m.
Proof.
  intros [_ Hrows]. unfold col_max. destruct m as [| r rs]; [discriminate |].
  intros [= <-]. inversion Hrows as [| r0 rs0 Hr Hrs]; subst.
  destruct (@fold_zip_max_upper (length r) rs r eq_refl Hrs) as [H1 H2].
  constructor; assumption.
Qed.

Lemma where_from_In (mask : list bool) (i z : Z) :
  In z (where_from i mask)
  <-> exists k : nat, nth_error mask k = Some true /\ z = (i + Z.of_nat k)%Z.
Proof.
  revert i. induction mask as [| b mask IH]; intros i; simpl.
  - split; [intros [] | intros [[| k] [H _]]; discriminate].
  - assert (Htail : In z (where_from (i + 1) mask)
                    <-> exists k, nth_error mask k = Some true
                                  /\ z = (i + Z.of_nat (S k))%Z).
    { rewrite IH. split; intros [k [Hk Hz]]; exists k; split; auto; lia. }
    destruct b; simpl; rewrite ?Htail; split.
    + intros [<- | [k [Hk Hz]]]; [exists 0%nat; split; [reflexivity | lia] |].
      exists (S k). auto.
    + intros [[| k] [Hk Hz]]; [left; lia | right; exists k; auto].
    + intros [k [Hk Hz]]. exists (S k). auto.
    + intros [[| k] [Hk Hz]]; [discriminate | exists k; auto].
Qed.

Lemma where_from_sorted (mask : list bool) (i : Z) :
  StronglySorted Z.lt (where_from i mask).
Proof.
  revert i. induction mask as [| b mask IH]; intros i; simpl; [constructor |].
  destruct b; [| apply IH].
  constructor; [apply IH |].
  apply Forall_forall. intros z Hz. apply where_from_In in Hz.
  destruct Hz as [k [_ ->]]. lia.
Qed.

Lemma high_coverage_idx_In (m : list (list Q)) (hi : list Z) :
  get_high_coverage_idx m = Ok hi ->
  exists cm gm,
    col_max m = Ok cm /\ mat_max m = Ok gm
    /\ forall z : Z,
         In z hi
         <-> (0 <= z)%Z
             /\ exists v, nth_error cm (Z.to_nat z) = Some v /\ (1 # 10) * gm < v.
Proof.
  unfold get_high_coverage_idx.
  destruct (col_max m) as [cm | e]; simpl; [| discriminate].
  destruct (mat_max m) as [gm | e]; simpl; [| discriminate].
  intros [= <-].
  exists cm, gm. split; [reflexivity |]. split; [reflexivity |].
  intros z. unfold np_where. rewrite where_from_In. split.
  - intros [k [Hk ->]]. split; [lia |].
    rewrite nth_error_map in Hk.
    replace (Z.to_nat (0 + Z.of_nat k)) with k by lia.
    destruct (nth_error cm k) as [v |]; [| discriminate].
    exists v. split; [reflexivity |].
    injection Hk as Hk. apply Qltb_true. exact Hk.
  - intros [Hz [v [Hv Hgt]]]. exists (Z.to_nat z). split; [| lia].
    rewrite nth_error_map, Hv. simpl. f_equal. apply Qltb_true. exact Hgt.
Qed.

(** [get_high_coverage_idx] lists, in increasing order and once each, the
    positions whose column maximum is above a tenth of the maximum of the
    matrix. *)
Theorem high_coverage_idx_spec (m : list (list Q)) (hi : list Z) :
  get_high_coverage_idx m = Ok hi ->
  StronglySorted Z.lt hi
  /\ exists cm gm,
       col_max m = Ok cm /\ mat_max m = Ok gm
       /\ forall z : Z,
            In z hi
            <-> (0 <= z)%Z
                /\ exists v, nth_error cm (Z.to_nat z) = Some v /\ (1 # 10) * gm < v.
Proof.
  intros Hhi. split; [| apply high_coverage_idx_In; exact Hhi].
  unfold get_high_coverage_idx in Hhi.
  destruct (col_max m) as [cm | e]; simpl in Hhi; [| discriminate].
  destruct (mat_max m) as [gm | e]; simpl in Hhi; [| discriminate].
  injection Hhi as <-. apply where_from_sorted.
Qed.

(** [peak_gene] has one such position. *)
Lemma high_coverage_idx_spec_witness :
  StronglySorted Z.lt [0%Z]
  /\ exists cm gm,
       col_max peak_gene = Ok cm /\ mat_max peak_gene = Ok gm
       /\ forall z : Z,
            In z [0%Z]
            <-> (0 <= z)%Z
                /\ exists v, nth_error cm (Z.to_nat z) = Some v /\ (1 # 10) * gm < v.
Proof.
  apply (@high_coverage_idx_spec peak_gene [0%Z]). reflexivity.
Defined.

Lemma Forall2_nth_error {A B : Type} (R : A -> B -> Prop) (a : list A) (b : list B)
    (i : nat) (u : A) :
  Forall2 R a b -> nth_error a i = Some u ->
  exists v, nth_error b i = Some v /\ R u v.
Proof.
  intros H. revert i. induction H as [| x0 y a b Hxy H IH]; intros [| i] Hi;
    simpl in *; try discriminate.
  - injection Hi as <-. eauto.
  - apply IH. exact Hi.
Qed.

Lemma mat_max_in (m : list (list Q)) (gm : Q) :
  mat_max m = Ok gm -> exists row, In row m /\ In gm row.
Proof.
  unfold mat_max, vmax. destruct (concat m) as [| a l] eqn:Hcat; [discriminate |].
  intros [= <-]. apply in_concat. rewrite Hcat. apply fold_max_in.
Qed.

(** A gene with some positive coverage has a high-coverage position: the
    column of its maximum. *)
Theorem positive_gene_has_high_coverage (m : list (list Q)) (gm : Q) :
  rect m -> mat_max m = Ok gm -> 0 < gm ->
  exists hi, get_high_coverage_idx m = Ok hi /\ hi <> [].
Proof.
  intros Hrect Hmax Hpos.
  destruct (mat_max_in _ Hmax) as [row [Hrow Hgm]].
  destruct (col_max m) as [cm | e] eqn:Hcm;
    [| destruct m; [destruct Hrow | discriminate]].
  pose proof (col_max_upper (rect_has_dims Hrect) Hcm) as Hup.
  rewrite Forall_forall in Hup. specialize (Hup row Hrow).
  apply In_nth_error in Hgm. destruct Hgm as [i Hi].
  destruct (Forall2_nth_error i Hup Hi) as [v [Hv Hle]].
  destruct (get_high_coverage_idx m) as [hi | e] eqn:Hhi.
  - exists hi. split; [reflexivity |].
    destruct (high_coverage_idx_In _ Hhi) as [cm' [gm' [Hcm' [Hgm' Hspec]]]].
    rewrite Hcm in Hcm'. injection Hcm' as <-.
    rewrite Hmax in Hgm'. injection Hgm' as <-.
    assert (Hin : In (Z.of_nat i) hi).
    { apply Hspec. split; [lia |]. exists v.
      rewrite Nat2Z.id. split; [exact Hv | lra]. }
    intros ->. destruct Hin.
  - unfold get_high_coverage_idx in Hhi. rewrite Hcm, Hmax in Hhi. discriminate.
Qed.

(** [silent_sample_gene] has a maximum of 10. *)
Lemma positive_gene_has_high_coverage_witness :
  exists hi, get_high_coverage_idx silent_sample_gene = Ok hi /\ hi <> [].
Proof.
  apply (@positive_gene_has_high_coverage silent_sample_gene 10).
  - repeat constructor.
  - reflexivity.
  - reflexivity.
Defined.

Lemma zip_max_zero (a b : list Q) :
  Forall (fun q => q == 0) a -> Forall (fun q => q == 0) b ->
  Forall (fun q => q == 0) (zip_with Qmaxb a b).
Proof.
  intros Ha. revert b. induction Ha as [| x0 a Hx Ha IH]; intros b Hb; simpl.
  - constructor.
  - destruct Hb as [| y b Hy Hb]; constructor.
    + destruct (Qmaxb_cases x0 y) as [-> | ->]; assumption.
    + apply IH. exact Hb.
Qed.

Lemma col_max_zero (m : list (list Q)) (cm : list Q) :
  all_zero m -> col_max m = Ok cm -> Forall (fun q => q == 0) cm.
Proof.
  unfold all_zero, col_max. intros Hz. destruct m as [| r rs]; [discriminate |].
  intros [= <-]. inversion Hz as [| r0 rs0 Hr Hrs]; subst. clear Hz.
  revert r Hr. induction Hrs as [| r' rs Hr' Hrs IH]; intros r Hr; simpl.
  - exact Hr.
  - apply IH. apply zip_max_zero; assumption.
Qed.

(** A gene whose entries are all zero has no high-coverage position. *)
Lemma zero_gene_no_high_coverage (m : list (list Q)) (hi : list Z) :
  all_zero m -> get_high_coverage_idx m = Ok hi -> hi = [].
Proof.
  intros Hz Hhi.
  destruct (high_coverage_idx_In _ Hhi) as [cm [gm [Hcm [Hgm Hspec]]]].
  destruct hi as [| z hi]; [reflexivity | exfalso].
  destruct (proj1 (Hspec z) (or_introl eq_refl)) as [_ [v [Hv Hgt]]].
  pose proof (col_max_zero Hz Hcm) as Hcz.
  rewrite Forall_forall in Hcz. specialize (Hcz v (nth_error_In _ _ Hv)).
  destruct (mat_max_in _ Hgm) as [row [Hrow Hin]].
  unfold all_zero in Hz. rewrite Forall_forall in Hz. specialize (Hz row Hrow).
  rewrite Forall_forall in Hz. specialize (Hz gm Hin).
  simpl in Hcz, Hz. rewrite Hcz, Hz in Hgt. lra.
Qed.

Lemma intersect1d_nil_r (a : list Z) : intersect1d a [] = [].
Proof.
  unfold intersect1d. induction a as [| z a IH]; [reflexivity | exact IH].
Qed.

Section ZeroGene.

Variable svds : list (list Q) -> list Q * Q * list Q.
Variable sqrt : Q -> Q.
Variable norm : list (list Q) -> Q.
Variable random_choice : nat -> nat.

(** On a gene without any read [baseline_selection] can only take its
    early exit, provided one high-coverage position at least is asked for
    when there is no downsampling; without downsampling, and on a matrix
    that has an entry, it does return. *)
Theorem zero_gene_early_exit (self : GeneNMFOA) (F : list (list Q)) :
  all_zero F ->
  ((downsample_rate self <= 1)%nat -> (1 <= min_high_coverage self)%nat) ->
  (forall est ran,
      baseline_selection svds sqrt norm random_choice self F = Ok (est, ran) ->
      est = F /\ ran = false)
  /\ ((downsample_rate self <= 1)%nat -> concat F <> [] ->
      baseline_selection svds sqrt norm random_choice self F = Ok (F, false)).
Proof.
  intros Hz Hmin. split.
  - intros est ran Hrun. apply baseline_selection_flag in Hrun.
    destruct Hrun as [[-> [-> _]] | [_ [hi Hover]]]; [auto | exfalso].
    unfold baseline_overhead in Hover.
    destruct (Nat.ltb_spec 1 (downsample_rate self)) as [Hrate | Hrate].
    + destruct (downsample_2d random_choice self F false) as [[a idx] | e];
        simpl in Hover; [| discriminate].
      destruct (get_high_coverage_idx F) as [hi0 | e] eqn:Hhi; simpl in Hover;
        [| discriminate].
      rewrite (zero_gene_no_high_coverage Hz Hhi), intersect1d_nil_r in Hover.
      discriminate.
    + simpl in Hover.
      destruct (get_high_coverage_idx F) as [hi0 | e] eqn:Hhi; simpl in Hover;
        [| discriminate].
      rewrite (zero_gene_no_high_coverage Hz Hhi) in Hover. simpl in Hover.
      destruct (Nat.ltb_spec 0 (min_high_coverage self)); [discriminate | lia].
  - intros Hrate Hcat. unfold baseline_selection, baseline_overhead.
    destruct (Nat.ltb_spec 1 (downsample_rate self)); [lia |]. simpl.
    destruct (get_high_coverage_idx F) as [hi0 | e] eqn:Hhi.
    + rewrite (zero_gene_no_high_coverage Hz Hhi). simpl.
      destruct (Nat.ltb_spec 0 (min_high_coverage self)); [reflexivity | lia].
    + exfalso. unfold get_high_coverage_idx, mat_max, vmax in Hhi.
      destruct F as [| r rs]; [apply Hcat; reflexivity |]. simpl in Hhi.
      destruct (r ++ concat rs) eqn:Hc; [apply Hcat; exact Hc | discriminate].
Qed.

End ZeroGene.

(** [empty_gene] under the default thresholds. *)
Lemma zero_gene_early_exit_witness :
  baseline_selection svds_envelope sqrt_unit norm_l1 choice_zero default_bins_obj empty_gene
  = Ok (empty_gene, false).
Proof.
  apply (@zero_gene_early_exit svds_envelope sqrt_unit norm_l1 choice_zero
           default_bins_obj empty_gene).
  - repeat constructor.
  - intros _. vm_compute. lia.
  - vm_compute. lia.
  - discriminate.
Defined.

(** ** Systematic downsampling *)

Lemma arange_in_range (start stop step : nat) :
  (1 <= step)%nat ->
  Forall (fun z => (Z.of_nat start <= z < Z.of_nat stop)%Z) (arange start stop step).
Proof.
  intros Hstep. unfold arange. apply Forall_map, Forall_forall.
  intros k Hk. apply in_seq in Hk.
  pose proof (Nat.Div0.mul_div_le (stop - start + step - 1) step) as Hdiv.
  nia.
Qed.

Lemma stepped_sorted (start step a n : nat) :
  (1 <= step)%nat ->
  StronglySorted Z.lt (map (fun k => Z.of_nat (start + k * step)) (seq a n)).
Proof.
  intros Hstep. revert a. induction n as [| n IH]; intros a; simpl; constructor.
  - apply IH.
  - apply Forall_map, Forall_forall. intros k Hk. apply in_seq in Hk. nia.
Qed.

Lemma arange_sorted (start stop step : nat) :
  (1 <= step)%nat -> StronglySorted Z.lt (arange start stop step).
Proof. intros Hstep. apply stepped_sorted. exact Hstep. Qed.

(** The docstring of [_systematic_sample] promises ceil(n / take_every)
    positions; the code gives that or one less, depending on the draw. *)
Lemma arange_count (start stop step : nat) :
  (start < step)%nat ->
  (stop / step <= length (arange start stop step) <= (stop + step - 1) / step)%nat.
Proof.
  intros Hstart. unfold arange. rewrite length_map, length_seq. split.
  - apply Nat.Div0.div_le_mono. lia.
  - apply Nat.Div0.div_le_mono. lia.
Qed.

Lemma mapM_norm_index (L : nat) (idx : list Z) :
  Forall (fun z => (0 <= z < Z.of_nat L)%Z) idx ->
  mapM (norm_index L) idx = Ok (map Z.to_nat idx).
Proof.
  induction 1 as [| z idx Hz Hidx IH]; [reflexivity |].
  cbn [mapM map]. rewrite IH. unfold norm_index.
  destruct (Z.leb_spec 0 z), (Z.ltb_spec z (Z.of_nat L)); try lia. reflexivity.
Qed.

Lemma take_cols_in_range (m : list (list Q)) (idx : list Z) :
  Forall (fun z => (0 <= z < Z.of_nat (ncols m))%Z) idx ->
  take_cols m idx = Ok (map (fun r => map (fun j => nth j r 0) (map Z.to_nat idx)) m).
Proof.
  intros H. unfold take_cols. rewrite mapM_norm_index by exact H. reflexivity.
Qed.

Section Downsampling.

Variable random_choice : nat -> nat.

Lemma arange_columns (F : list (list Q)) (start step : nat) :
  (1 <= step)%nat ->
  Forall (fun z => (0 <= z < Z.of_nat (ncols F))%Z) (arange start (ncols F) step).
Proof.
  intros Hstep. eapply Forall_impl; [| apply arange_in_range; exact Hstep].
  intros z Hz. simpl in Hz. lia.
Qed.

Lemma downsample_2d_ok (self : GeneNMFOA) (F : list (list Q)) :
  (1 < downsample_rate self)%nat -> (downsample_rate self < ncols F)%nat ->
  downsample_2d random_choice self F false
  = Ok (Arr2 (map (fun r =>
                     map (fun j => nth j r 0)
                       (map Z.to_nat
                          (arange (random_choice (downsample_rate self)) (ncols F)
                             (downsample_rate self)))) F),
        inr (arange (random_choice (downsample_rate self)) (ncols F)
               (downsample_rate self))).
Proof.
  intros Hlo Hhi.
  unfold downsample_2d, systematic_sample, np_random_choice.
  destruct (Nat.eqb_spec (downsample_rate self) 1); [lia |].
  destruct (Nat.leb_spec (ncols F) (downsample_rate self)); [lia |].
  destruct (Nat.eqb_spec (downsample_rate self) 0); [lia |].
  cbn [bind]. rewrite take_cols_in_range by (apply arange_columns; lia). reflexivity.
Qed.

(** With a stride above 1 and below the number of positions,
    [downsample_2d] by columns returns the columns at the positions draw,
    draw + stride, ...: they are in range and increasing, so no index error
    can arise, and when the draw is below the stride, as [np.random.choice]
    promises, their number is floor(L / stride) or ceil(L / stride). *)
Theorem downsample_2d_columns (self : GeneNMFOA) (F : list (list Q)) :
  (1 < downsample_rate self)%nat -> (downsample_rate self < ncols F)%nat ->
  let idx := arange (random_choice (downsample_rate self)) (ncols F) (downsample_rate self) in
  downsample_2d random_choice self F false
  = Ok (Arr2 (map (fun r => map (fun j => nth j r 0) (map Z.to_nat idx)) F), inr idx)
  /\ Forall (fun z => (0 <= z < Z.of_nat (ncols F))%Z) idx
  /\ StronglySorted Z.lt idx
  /\ ((random_choice (downsample_rate self) < downsample_rate self)%nat ->
      (ncols F / downsample_rate self <= length idx
       <= (ncols F + downsample_rate self - 1) / downsample_rate self)%nat).
Proof.
  intros Hlo Hhi idx. split; [apply downsample_2d_ok; assumption |].
  split; [apply arange_columns; lia |].
  split; [apply arange_sorted; lia | apply arange_count].
Qed.

(** [downsample_2d] by columns returns exactly when the stride is 1 or
    lies strictly between 1 and the number of positions; a stride of 0 on a
    matrix with columns is refused by [np.random.choice]. *)
Theorem downsample_2d_returns (self : GeneNMFOA) (F : list (list Q)) :
  (exists r, downsample_2d random_choice self F false = Ok r)
  <-> downsample_rate self = 1%nat
      \/ (1 < downsample_rate self)%nat /\ (downsample_rate self < ncols F)%nat.
Proof.
  split.
  - intros [r Hr]. unfold downsample_2d in Hr.
    destruct (Nat.eqb_spec (downsample_rate self) 1); [left; assumption | right].
    destruct (Nat.leb_spec (ncols F) (downsample_rate self)); [discriminate |].
    unfold systematic_sample, np_random_choice in Hr.
    destruct (Nat.leb_spec (ncols F) (downsample_rate self)); [lia |].
    destruct (Nat.eqb_spec (downsample_rate self) 0); [discriminate | lia].
  - intros [Hone | [Hlo Hhi]].
    + unfold downsample_2d. rewrite Hone. simpl. eauto.
    + rewrite (downsample_2d_ok self F Hlo Hhi). eauto.
Qed.

End Downsampling.

(** Every second column of [six_columns], from the first one. *)
Lemma downsample_2d_columns_witness :
  downsample_2d choice_zero downsampling_obj six_columns false
  = Ok (Arr2 [[1; 3; 5]; [6; 4; 2]], inr [0; 2; 4]%Z).
Proof.
  apply (@downsample_2d_columns choice_zero downsampling_obj six_columns);
    vm_compute; lia.
Defined.

(** ** What fit leaves behind *)

Lemma forallb_rank_two (l : list ndarray) :
  forallb (fun z => (ndim z =? 2)%nat) l = true -> exists mats, l = map Arr2 mats.
Proof.
  induction l as [| a l IH]; simpl.
  - exists []. reflexivity.
  - intros H. apply andb_true_iff in H. destruct H as [Ha Hl].
    destruct (IH Hl) as [mats ->].
    destruct a; try discriminate. exists (m :: mats). reflexivity.
Qed.

Lemma fit_ok_inv (cov_dat : list (string * ndarray)) (reads_dat : list (list Q))
    (self : GeneNMFOA) :
  snd (fit cov_dat reads_dat self) = Ok tt ->
  exists mats,
    mats <> [] /\ map snd cov_dat = map Arr2 mats
    /\ nrows reads_dat = length cov_dat.
Proof.
  run_fit; try congruence; intros _;
    match goal with
    | H : negb (forallb _ _) = false |- _ =>
        apply negb_false_iff, forallb_rank_two in H; destruct H as [mats Hm]
    end;
    match goal with
    | H : negb (_ =? _)%nat = false |- _ => apply negb_false_iff, Nat.eqb_eq in H
    end;
    exists mats; simpl in *;
    (split; [intros ->; discriminate | split; [exact Hm | assumption]]).
Qed.

(** After a call of [fit] that returns, the coverage arrays are all of
    rank 2 and as many as the rows of the read counts, the flag is up, every
    gene is marked baseline-eligible, the lengths and the coverage sums are
    those of the matrices, the adjusted counts are the raw counts, the
    stride, when there is one, is at most every length, the number of
    chunks is at least [n_jobs], and every gene has the number of samples of
    the first one. *)
Theorem fit_postconditions (cov_dat : list (string * ndarray))
    (reads_dat : list (list Q)) (self : GeneNMFOA) :
  snd (fit cov_dat reads_dat self) = Ok tt ->
  exists mats,
    mats <> [] /\ map snd cov_dat = map Arr2 mats
    /\ nrows reads_dat = length cov_dat
    /\ fitted (fst (fit cov_dat reads_dat self)) = true
    /\ n_genes (fst (fit cov_dat reads_dat self)) = length cov_dat
    /\ genes (fst (fit cov_dat reads_dat self)) = map fst cov_dat
    /\ p (fst (fit cov_dat reads_dat self)) = nrows (hd [] mats)
    /\ x (fst (fit cov_dat reads_dat self)) = reads_dat
    /\ x_adj (fst (fit cov_dat reads_dat self)) = reads_dat
    /\ use_baseline_selection (fst (fit cov_dat reads_dat self))
       = repeat true (length cov_dat)
    /\ Lis (fst (fit cov_dat reads_dat self)) = map ncols mats
    /\ cov_sums (fst (fit cov_dat reads_dat self)) = map row_sums mats
    /\ (n_jobs self <= mem_splits (fst (fit cov_dat reads_dat self)))%nat
    /\ ((1 < downsample_rate self)%nat ->
        Forall (fun m => (downsample_rate self <= ncols m)%nat) mats)
    /\ Forall (fun m => nrows m = nrows (hd [] mats)) mats.
Proof.
  intros Hok. destruct (fit_ok_inv _ _ _ Hok) as [mats [Hne [Hsnd Hrows]]].
  exists mats. split; [exact Hne |]. split; [exact Hsnd |]. split; [exact Hrows |].
  revert Hok.
  destruct mats as [| m0 mats]; [congruence |].
  destruct cov_dat as [| [g0 a0] cov_dat]; [discriminate |].
  injection Hsnd as Ha0 Hsnd. cbn [snd] in Ha0. subst a0.
  unfold fit. run_M. fit_step.
  rewrite Hsnd.
  change (shape_at (Arr2 m0) 1) with (Ok (A := nat) (ncols m0)).
  cbn [bind]. rewrite mapM_shape_2d. cbn [bind fst snd].
  fit_step.
  unfold nrows in Hrows. cbn [length] in Hrows. rewrite Hrows, Nat.eqb_refl.
  cbn [negb]. rewrite forallb_ndim_2d. cbn [negb andb hd].
  assert (Hsamples : forallb (fun m => (nrows m =? nrows m0)%nat) mats = true ->
                     Forall (fun m => nrows m = nrows m0) (m0 :: mats)).
  { intros Hall. constructor; [reflexivity |].
    apply Forall_forall. intros m Hm. rewrite forallb_forall in Hall.
    apply Nat.eqb_eq, Hall. exact Hm. }
  destruct (Nat.ltb_spec 1 (downsample_rate self)) as [Hrate | Hrate].
  - fit_step.
    destruct (Nat.leb_spec (downsample_rate self) (fold_left Nat.min (map ncols mats) (ncols m0)))
      as [Hle | Hgt];
      fit_step; [| discriminate].
    rewrite mapM_as_2d. fit_step. rewrite ?Nat.eqb_refl. cbn [andb negb].
    rewrite np_vstack_sums.
    destruct (forallb (fun m => (nrows m =? nrows m0)%nat) mats) eqn:Hall; fit_step;
      [| discriminate].
    intros _. repeat (split; [reflexivity |]).
    rewrite ?Nat.eqb_refl. cbn [andb negb fst mem_splits set_fitted set_mem_splits].
    split; [| split; [| apply Hsamples; reflexivity]].
    + match goal with |- context [(n_jobs self <? ?X)%nat] =>
        destruct (Nat.ltb_spec (n_jobs self) X) end; lia.
    + intros _. apply fold_min_spec in Hle. destruct Hle as [H0 Hall'].
      constructor; [exact H0 |].
      apply Forall_forall. intros m Hm. rewrite Forall_forall in Hall'.
      apply Hall'. apply in_map. exact Hm.
  - fit_step.
    rewrite mapM_as_2d. fit_step. rewrite ?Nat.eqb_refl. cbn [andb negb].
    rewrite np_vstack_sums.
    destruct (forallb (fun m => (nrows m =? nrows m0)%nat) mats) eqn:Hall; fit_step;
      [| discriminate].
    intros _. repeat (split; [reflexivity |]).
    rewrite ?Nat.eqb_refl. cbn [andb negb fst mem_splits set_fitted set_mem_splits].
    split; [| split; [intros; lia | apply Hsamples; reflexivity]].
    match goal with |- context [(n_jobs self <? ?X)%nat] =>
      destruct (Nat.ltb_spec (n_jobs self) X) end; lia.
Qed.

(** [two_position_gene] with one row of counts. *)
Lemma fit_postconditions_witness :
  exists mats,
    mats <> [] /\ map snd two_position_gene = map Arr2 mats
    /\ nrows one_count_row = length two_position_gene
    /\ fitted (fst (fit two_position_gene one_count_row stride_two_obj)) = true
    /\ n_genes (fst (fit two_position_gene one_count_row stride_two_obj))
       = length two_position_gene
    /\ genes (fst (fit two_position_gene one_count_row stride_two_obj))
       = map fst two_position_gene
    /\ p (fst (fit two_position_gene one_count_row stride_two_obj)) = nrows (hd [] mats)
    /\ x (fst (fit two_position_gene one_count_row stride_two_obj)) = one_count_row
    /\ x_adj (fst (fit two_position_gene one_count_row stride_two_obj)) = one_count_row
    /\ use_baseline_selection (fst (fit two_position_gene one_count_row stride_two_obj))
       = repeat true (length two_position_gene)
    /\ Lis (fst (fit two_position_gene one_count_row stride_two_obj)) = map ncols mats
    /\ cov_sums (fst (fit two_position_gene one_count_row stride_two_obj))
       = map row_sums mats
    /\ (n_jobs stride_two_obj
        <= mem_splits (fst (fit two_position_gene one_count_row stride_two_obj)))%nat
    /\ ((1 < downsample_rate stride_two_obj)%nat ->
        Forall (fun m => (downsample_rate stride_two_obj <= ncols m)%nat) mats)
    /\ Forall (fun m => nrows m = nrows (hd [] mats)) mats.
Proof.
  apply (@fit_postconditions two_position_gene one_count_row stride_two_obj). reflexivity.
Defined.

Lemma mapM_ok_all {A B : Type} (f : A -> result B) (l : list A) (r : list B) :
  mapM f l = Ok r -> Forall (fun a => exists b, f a = Ok b) l.
Proof.
  revert r. induction l as [| a l IH]; intros r; simpl; [constructor |].
  destruct (f a) as [b | e] eqn:Hfa; simpl; [| discriminate].
  destruct (mapM f l) as [bs | e]; simpl; [| discriminate].
  intros _. constructor; [eauto | eapply IH; reflexivity].
Qed.

Lemma shape_at_low_rank (a : ndarray) :
  (ndim a < 2)%nat -> shape_at a 1 = Raise IndexError.
Proof. destruct a; simpl; intros H; try lia; reflexivity. Qed.

(** A coverage array of rank 0 or 1 never reaches the rank check of
    [fit]: reading its shape raises an [IndexError] first, so the
    [ValueError] of that check is only seen for ranks of 3 and more. *)
Theorem fit_low_rank_index_error (cov_dat : list (string * ndarray))
    (reads_dat : list (list Q)) (self : GeneNMFOA) (a : ndarray) :
  In a (map snd cov_dat) -> (ndim a < 2)%nat ->
  snd (fit cov_dat reads_dat self) = Raise IndexError
  /\ fitted (fst (fit cov_dat reads_dat self)) = fitted self.
Proof.
  intros Hin Hrank.
  assert (Hraise : snd (fit cov_dat reads_dat self) = Raise IndexError).
  { destruct cov_dat as [| [g0 a0] cov_dat]; [destruct Hin |].
    unfold fit. run_M. cbn -[Nat.ltb Nat.leb Nat.eqb Z.div Z.add Z.to_nat nbytes mapM].
    destruct (shape_at a0 0) as [p0 | e] eqn:Hp0.
    - cbn -[Nat.ltb Nat.leb Nat.eqb Z.div Z.add Z.to_nat nbytes mapM].
      destruct (mapM (fun a1 => shape_at a1 1) (a0 :: map snd cov_dat)) as [lis | e]
        eqn:Hlis.
      + exfalso. apply mapM_ok_all in Hlis. rewrite Forall_forall in Hlis.
        destruct (Hlis a Hin) as [b Hb].
        rewrite (shape_at_low_rank _ Hrank) in Hb. discriminate.
      + cbn. apply mapM_raise in Hlis. destruct Hlis as [a1 [_ Ha1]].
        apply shape_at_raise in Ha1. subst. reflexivity.
    - cbn. apply shape_at_raise in Hp0. subst. reflexivity. }
  split; [exact Hraise |].
  destruct (fit_flag cov_dat reads_dat self) as [Hok | Hsame]; [| exact Hsame].
  rewrite Hok in Hraise. discriminate.
Qed.

(** The second array of [vector_gene] is of rank 1. *)
Lemma fit_low_rank_index_error_witness :
  snd (fit vector_gene [[5; 5]; [7; 7]] stride_two_obj) = Raise IndexError
  /\ fitted (fst (fit vector_gene [[5; 5]; [7; 7]] stride_two_obj))
     = fitted stride_two_obj.
Proof.
  apply (@fit_low_rank_index_error vector_gene [[5; 5]; [7; 7]] stride_two_obj
           (Arr1 [3; 3])).
  - right. left. reflexivity.
  - vm_compute. lia.
Defined.

(** The two [ValueError]s on two genes: genes of 2 and 6 positions under a
    stride of 3, and genes of two samples and of one sample without
    stride. *)
Lemma fit_stride_check_witness :
  snd (fit [("g"%string, Arr2 [[3; 3]; [1; 1]]); ("h"%string, Arr2 six_columns)]
         [[5; 5]; [7; 7]] (init 1 3 1 1 20 1))
  = Raise ValueError
  /\ snd (fit [("g"%string, Arr2 [[3; 3]; [1; 1]]); ("h"%string, Arr2 [[3; 3]])]
           [[5; 5]; [7; 7]] (init 1 1 1 1 20 1))
     = Raise ValueError.
Proof.
  split.
  - apply (@fit_stride_check
             [("g"%string, Arr2 [[3; 3]; [1; 1]]); ("h"%string, Arr2 six_columns)]
             [[[3; 3]; [1; 1]]; six_columns] [[5; 5]; [7; 7]] (init 1 3 1 1 20 1)).
    + discriminate.
    + reflexivity.
    + reflexivity.
    + left. split; [vm_compute; lia |].
      exists [[3; 3]; [1; 1]]. split; [left; reflexivity | vm_compute; lia].
  - apply (@fit_stride_check
             [("g"%string, Arr2 [[3; 3]; [1; 1]]); ("h"%string, Arr2 [[3; 3]])]
             [[[3; 3]; [1; 1]]; [[3; 3]]] [[5; 5]; [7; 7]] (init 1 1 1 1 20 1)).
    + discriminate.
    + reflexivity.
    + reflexivity.
    + right. exists [[3; 3]]. split; [right; left; reflexivity | vm_compute; lia].
Defined.

(** ** What transform leaves alone *)

Lemma keeps_bind {A B C : Type} (f : GeneNMFOA -> C) (m : M A) (k : A -> M B) :
  keeps f m -> (forall a, keeps f (k a)) -> keeps f (bindM m k).
Proof.
  intros Hm Hk s. unfold bindM. specialize (Hm s).
  destruct (m s) as [s' [a | e]]; simpl in *.
  - rewrite (Hk a s'). exact Hm.
  - exact Hm.
Qed.

Lemma keeps_unless_ok_bind {A B C : Type} (f : GeneNMFOA -> C) (m : M A) (k : A -> M B) :
  keeps f m -> (forall a, keeps_unless_ok f (k a)) -> keeps_unless_ok f (bindM m k).
Proof.
  intros Hm Hk s. unfold bindM. specialize (Hm s).
  destruct (m s) as [s' [a | e]]; simpl in *.
  - destruct (Hk a s') as [H | H]; [left; congruence | right; exact H].
  - left. exact Hm.
Qed.

Lemma sets_transformed_bind {A B : Type} (m : M A) (k : A -> M B) :
  (forall a, sets_transformed (k a)) -> sets_transformed (bindM m k).
Proof.
  intros Hk s b. unfold bindM.
  destruct (m s) as [s' [a | e]]; simpl; [apply Hk | discriminate].
Qed.

Ltac keeps_tac :=
  repeat match goal with
    | |- keeps _ (bindM _ _) => apply keeps_bind; [| intros ?]
    | |- keeps _ (if ?c then _ else _) => destruct c
    | |- keeps _ (match ?v with _ => _ end) => destruct v
    | |- keeps _ _ => solve [intros ?; reflexivity | assumption]
    end.

Section TransformInvariants.

Variable svds : list (list Q) -> list Q * Q * list Q.
Variable sqrt : Q -> Q.
Variable norm : list (list Q) -> Q.
Variable median : list Q -> Q.
Variable draws : nat -> nat -> nat -> nat.

Lemma compute_scale_factors_keeps (ests : list (list (list Q))) :
  keeps (fun s => (settings s, transformed s)) (compute_scale_factors median ests).
Proof. unfold compute_scale_factors. keeps_tac. Qed.

Lemma adjust_coverage_curves_keeps :
  keeps (fun s => (settings s, transformed s)) adjust_coverage_curves.
Proof. unfold adjust_coverage_curves. keeps_tac. Qed.

Lemma adjust_read_counts_keeps :
  keeps (fun s => (settings s, transformed s)) adjust_read_counts.
Proof. unfold adjust_read_counts. keeps_tac. Qed.

Lemma par_apply_baseline_selection_keeps (d : nat -> nat -> nat)
    (dat : list (list (list Q))) :
  keeps (fun s => (settings s, transformed s))
    (par_apply_baseline_selection svds sqrt norm d dat).
Proof. unfold par_apply_baseline_selection. keeps_tac. Qed.

Lemma degnorm_round_keeps (d : nat -> nat -> nat) :
  keeps (fun s => (settings s, transformed s))
    (degnorm_round svds sqrt norm median d).
Proof.
  pose proof compute_scale_factors_keeps. pose proof adjust_coverage_curves_keeps.
  pose proof adjust_read_counts_keeps. pose proof par_apply_baseline_selection_keeps.
  unfold degnorm_round. keeps_tac.
  all: match goal with H : _ |- _ => apply H end.
Qed.

Lemma degnorm_rounds_keeps (i n : nat) :
  keeps (fun s => (settings s, transformed s))
    (degnorm_rounds svds sqrt norm median draws i n).
Proof.
  revert i. induction n as [| n IH]; intros i; simpl; [intros s; reflexivity |].
  apply keeps_bind; [apply degnorm_round_keeps | intros _; apply IH].
Qed.

Lemma keeps_settings_of {A : Type} (m : M A) :
  keeps (fun s => (settings s, transformed s)) m -> keeps settings m.
Proof. intros Hm s. specialize (Hm s). congruence. Qed.

Lemma keeps_transformed_of {A : Type} (m : M A) :
  keeps (fun s => (settings s, transformed s)) m -> keeps transformed m.
Proof. intros Hm s. specialize (Hm s). congruence. Qed.

Lemma transform_keeps_settings :
  keeps settings (transform svds sqrt norm median draws).
Proof.
  unfold transform.
  repeat match goal with
    | |- keeps _ (bindM _ _) => apply keeps_bind; [| intros ?]
    | |- keeps _ (if ?c then _ else _) => destruct c
    | |- keeps _ (compute_scale_factors _ _) =>
        apply keeps_settings_of, compute_scale_factors_keeps
    | |- keeps _ adjust_coverage_curves =>
        apply keeps_settings_of, adjust_coverage_curves_keeps
    | |- keeps _ adjust_read_counts => apply keeps_settings_of, adjust_read_counts_keeps
    | |- keeps _ (degnorm_rounds _ _ _ _ _ _ _) =>
        apply keeps_settings_of, degnorm_rounds_keeps
    | |- keeps _ _ => solve [intros ?; reflexivity]
    end.
Qed.

Lemma transform_sets_flag :
  sets_transformed (transform svds sqrt norm median draws).
Proof.
  unfold transform.
  repeat match goal with
    | |- sets_transformed (bindM _ _) => apply sets_transformed_bind; intros ?
    | |- sets_transformed (if ?c then _ else _) => destruct c
    end;
    intros s b Hb; solve [discriminate | reflexivity].
Qed.

Lemma transform_flag_unless_ok :
  keeps_unless_ok transformed (transform svds sqrt norm median draws).
Proof.
  unfold transform.
  repeat match goal with
    | |- keeps_unless_ok _ (bindM _ _) =>
        apply keeps_unless_ok_bind; [| intros ?]
    | |- keeps_unless_ok _ (if ?c then _ else _) => destruct c
    | |- keeps _ (compute_scale_factors _ _) =>
        apply keeps_transformed_of, compute_scale_factors_keeps
    | |- keeps _ adjust_coverage_curves =>
        apply keeps_transformed_of, adjust_coverage_curves_keeps
    | |- keeps _ adjust_read_counts =>
        apply keeps_transformed_of, adjust_read_counts_keeps
    | |- keeps _ (degnorm_rounds _ _ _ _ _ _ _) =>
        apply keeps_transformed_of, degnorm_rounds_keeps
    | |- keeps _ _ => solve [intros ?; reflexivity]
    | |- keeps_unless_ok _ (raise _) => intros ?; left; reflexivity
    | |- keeps_unless_ok _ (assign _) => intros ?; right; eexists; reflexivity
    end.
Qed.

(** [transform] never touches what [__init__] and [fit] stored (the
    configuration, the raw counts, the coverage matrices and their sums, the
    gene list, the flag [fitted]), whether it returns or raises; it puts
    the flag [transformed] up exactly on its last line, so the flag is up
    after a call that returns, and unchanged after a call that raises at
    any step; and it only returns on a fitted object. *)
Theorem transform_invariants (self : GeneNMFOA) :
  settings (fst (transform svds sqrt norm median draws self)) = settings self
  /\ (snd (transform svds sqrt norm median draws self) = Ok tt ->
      transformed (fst (transform svds sqrt norm median draws self)) = true
      /\ fitted self = true)
  /\ (forall e,
         snd (transform svds sqrt norm median draws self) = Raise e ->
         transformed (fst (transform svds sqrt norm median draws self))
         = transformed self).
Proof.
  split; [apply transform_keeps_settings | split].
  - intros Hok. split; [exact (transform_sets_flag self Hok) |].
    unfold transform in Hok. revert Hok. run_M.
    destruct (fitted self); [reflexivity | discriminate].
  - intros e He.
    destruct (transform_flag_unless_ok self) as [H | [a Ha]]; [exact H | congruence].
Qed.

Lemma fit_ok_fields (cov_dat : list (string * ndarray)) (reads_dat : list (list Q))
    (self : GeneNMFOA) :
  snd (fit cov_dat reads_dat self) = Ok tt ->
  n_genes (fst (fit cov_dat reads_dat self)) = length cov_dat
  /\ genes (fst (fit cov_dat reads_dat self)) = map fst cov_dat
  /\ cov_mats (fst (fit cov_dat reads_dat self)) = map snd cov_dat
  /\ x (fst (fit cov_dat reads_dat self)) = reads_dat.
Proof.
  run_fit; try congruence; auto; discriminate.
Qed.

(** [fit_transform] is [fit] followed by [transform]: an error of [fit]
    is the error of the call, and [transform] is not started; a call that
    returns leaves an object with both flags up that holds the inputs of
    the call. *)
Theorem fit_transform_contract (cov_dat : list (string * ndarray))
    (reads_dat : list (list Q)) (self : GeneNMFOA) :
  (forall e,
      snd (fit cov_dat reads_dat self) = Raise e ->
      fit_transform svds sqrt norm median draws cov_dat reads_dat self
      = (fst (fit cov_dat reads_dat self), Raise e))
  /\ (snd (fit_transform svds sqrt norm median draws cov_dat reads_dat self)
      = Ok tt ->
      snd (fit cov_dat reads_dat self) = Ok tt
      /\ fitted (fst (fit_transform svds sqrt norm median draws
                        cov_dat reads_dat self)) = true
      /\ transformed (fst (fit_transform svds sqrt norm median draws
                             cov_dat reads_dat self)) = true
      /\ x (fst (fit_transform svds sqrt norm median draws
                   cov_dat reads_dat self)) = reads_dat
      /\ genes (fst (fit_transform svds sqrt norm median draws
                       cov_dat reads_dat self)) = map fst cov_dat
      /\ cov_mats (fst (fit_transform svds sqrt norm median draws
                          cov_dat reads_dat self)) = map snd cov_dat).
Proof.
  unfold fit_transform, bindM.
  pose proof (@fit_ok_sets_flag cov_dat reads_dat self) as Hflag.
  pose proof (@fit_ok_fields cov_dat reads_dat self) as Hfields.
  destruct (fit cov_dat reads_dat self) as [s1 [[] | e1]]; cbn [fst snd] in *.
  - split; [discriminate |]. intros Hok.
    pose proof (transform_keeps_settings s1) as Hkeep.
    pose proof (transform_sets_flag s1 Hok) as Hup.
    destruct (Hfields eq_refl) as [Hn [Hg [Hc Hx]]].
    specialize (Hflag eq_refl).
    unfold settings in Hkeep. injection Hkeep as _ _ _ _ _ _ _ _ Hx' _ _ _ Hc' _ Hg' Hf'.
    repeat split; congruence.
  - split; [intros e [= ->]; reflexivity | discriminate].
Qed.

End TransformInvariants.

(** [transform] on [fitted_obj], one round: it returns, and the flag is
    up. *)
Lemma transform_invariants_witness :
  transformed (fst (transform svds_envelope sqrt_unit norm_l1 median_sorted all_draws_zero
                      fitted_obj)) = true
  /\ fitted fitted_obj = true.
Proof.
  apply (@transform_invariants svds_envelope sqrt_unit norm_l1 median_sorted all_draws_zero
           fitted_obj).
  vm_compute. reflexivity.
Defined.

(** ** Scores and counts of particular samples *)

Lemma nth_error_zip_with {A B C : Type} (f : A -> B -> C) (a : list A) (b : list B)
    (i : nat) (u : A) (v : B) :
  nth_error a i = Some u -> nth_error b i = Some v ->
  nth_error (zip_with f a b) i = Some (f u v).
Proof.
  revert b i. induction a as [| x0 a IH]; intros [| y b] [| i]; simpl;
    try discriminate.
  - intros [= ->] [= ->]. reflexivity.
  - apply IH.
Qed.

(** A sample without coverage on a gene gets the highest DI score the code
    gives, 1 - 1e-5, whatever the estimate is. *)
Theorem silent_sample_saturates (median : list Q -> Q) (ests : list (list (list Q)))
    (self : GeneNMFOA) (g j : nat) (csums : list Q) (c : Q)
    (est : list (list Q)) (erow : list Q) :
  nth_error (cov_sums self) g = Some csums -> nth_error csums j = Some c -> c == 0 ->
  nth_error ests g = Some est -> nth_error est j = Some erow ->
  exists row,
    nth_error (rho (fst (compute_scale_factors median ests self))) g = Some row
    /\ nth_error row j = Some (1 - (1 # 100000)).
Proof.
  intros Hcs Hc Hzero Hest Herow.
  rewrite compute_scale_factors_rho. unfold di_matrix, mat_map, mat_zip.
  assert (Hsums : nth_error (map row_sums ests) g = Some (row_sums est)).
  { rewrite nth_error_map, Hest. reflexivity. }
  assert (He : nth_error (row_sums est) j = Some (vsum erow)).
  { unfold row_sums. rewrite nth_error_map, Herow. reflexivity. }
  eexists. split.
  - rewrite nth_error_map.
    rewrite (nth_error_zip_with (zip_with (fun c0 e => 1 - c0 / (e + 1))) _ _ _ Hcs Hsums).
    reflexivity.
  - rewrite nth_error_map.
    rewrite (nth_error_zip_with (fun c0 e => 1 - c0 / (e + 1)) _ _ _ Hc He).
    simpl. f_equal. apply clip_di_saturated.
    rewrite Hzero. unfold Qdiv. rewrite Qmult_0_l. lra.
Qed.

(** The second sample of [silent_obj]. *)
Lemma silent_sample_saturates_witness :
  exists row,
    nth_error (rho (fst (compute_scale_factors median_sorted faint_estimate silent_obj))) 0
    = Some row
    /\ nth_error row 1 = Some (1 - (1 # 100000)).
Proof.
  apply (@silent_sample_saturates median_sorted faint_estimate silent_obj 0%nat 1%nat
           [1; 0] 0 (dot [1; 1] [1; 999998]) [1 * 1; 1 * 999998]);
    reflexivity.
Defined.

(** A baseline-eligible gene gets, in every sample, its raw count over 1
    minus its own DI score. *)
Theorem adjust_eligible_uses_own_score (self : GeneNMFOA) (g : nat)
    (raw scores old : list Q) :
  nth_error (use_baseline_selection self) g = Some true ->
  nth_error (x self) g = Some raw ->
  nth_error (rho self) g = Some scores ->
  nth_error (x_adj self) g = Some old ->
  nth_error (x_adj (fst (adjust_read_counts self))) g
  = Some (zip_with (fun xv r => xv / (1 - r)) raw scores).
Proof.
  intros Hsel Hraw Hrho Hold.
  assert (Hstd : existsb (fun b => b) (use_baseline_selection self) = true).
  { apply existsb_nth_true with (g := g). exact Hsel. }
  assert (Hneg : nth_error (map negb (use_baseline_selection self)) g = Some false).
  { rewrite nth_error_map, Hsel. reflexivity. }
  assert (Hval : nth_error (mat_zip (fun xv r => xv / (1 - r)) (x self) (rho self)) g
                 = Some (zip_with (fun xv r => xv / (1 - r)) raw scores)).
  { unfold mat_zip. apply nth_error_zip_with; assumption. }
  unfold adjust_read_counts, bindM, get_self, assign, ret.
  rewrite Hstd. cbn.
  destruct (existsb (fun b => b) (map negb (use_baseline_selection self))); cbn.
  - rewrite assign_rows_keep by exact Hneg.
    rewrite (assign_rows_nth _ _ _ g Hsel Hval Hold). reflexivity.
  - rewrite (assign_rows_nth _ _ _ g Hsel Hval Hold). reflexivity.
Qed.

(** The first gene of [two_gene_obj], which is eligible. *)
Lemma adjust_eligible_uses_own_score_witness :
  nth_error (x_adj (fst (adjust_read_counts two_gene_obj))) 0
  = Some (zip_with (fun xv r => xv / (1 - r)) [10; 20] [1 # 5; 1 # 10]).
Proof.
  apply (@adjust_eligible_uses_own_score two_gene_obj 0%nat [10; 20] [1 # 5; 1 # 10]
           [10; 20]);
    reflexivity.
Defined.

Lemma assign_rows_idem (sel : list bool) (vals m : list (list Q)) :
  assign_rows sel vals (assign_rows sel vals m) = assign_rows sel vals m.
Proof.
  revert vals m. induction sel as [| b sel IH]; intros [| v vals] [| r m]; simpl;
    try reflexivity.
  rewrite IH. destruct b; reflexivity.
Qed.

Lemma assign_rows_absorb (sel : list bool) (vals vals' m : list (list Q)) :
  assign_rows sel vals (assign_rows (map negb sel) vals' (assign_rows sel vals m))
  = assign_rows (map negb sel) vals' (assign_rows sel vals m).
Proof.
  revert vals vals' m.
  induction sel as [| b sel IH]; intros [| v vals] [| v' vals'] [| r m]; simpl;
    try reflexivity.
  - rewrite assign_rows_idem. destruct b; reflexivity.
  - rewrite IH. destruct b; reflexivity.
Qed.

Lemma set_x_adj_twice (a b : list (list Q)) (s : GeneNMFOA) :
  set_x_adj a (set_x_adj b s) = set_x_adj a s.
Proof. reflexivity. Qed.

(** The adjusted counts are computed from the raw counts and the DI
    scores alone: a second call of [adjust_read_counts] changes nothing. *)
Theorem adjust_read_counts_idempotent (self : GeneNMFOA) :
  fst (adjust_read_counts (fst (adjust_read_counts self)))
  = fst (adjust_read_counts self).
Proof.
  unfold adjust_read_counts, bindM, get_self, assign, ret.
  assert (Hu : forall v s, use_baseline_selection (set_x_adj v s)
                           = use_baseline_selection s) by reflexivity.
  assert (Hx : forall v s, x (set_x_adj v s) = x s) by reflexivity.
  assert (Hr : forall v s, rho (set_x_adj v s) = rho s) by reflexivity.
  assert (Ha : forall v s, x_adj (set_x_adj v s) = v) by reflexivity.
  destruct (existsb (fun b => b) (use_baseline_selection self)) eqn:Hstd;
    destruct (existsb (fun b => b) (map negb (use_baseline_selection self))) eqn:Hlow;
    repeat (progress (cbn [fst snd]; rewrite ?Hu, ?Hx, ?Hr, ?Ha, ?Hstd, ?Hlow));
    rewrite ?set_x_adj_twice; try reflexivity; f_equal.
  - rewrite assign_rows_absorb, assign_rows_idem. reflexivity.
  - apply assign_rows_idem.
  - apply assign_rows_idem.
Qed.

(** ** The estimate of baseline selection *)

Lemma floor_K_floor (K K' : list Q) :
  floor_K K = Ok K' -> Forall (fun k => epsilon <= k) K'.
Proof.
  unfold floor_K.
  destruct (filter (fun k => Qgeb k epsilon) K) as [| a l] eqn:Hf; [discriminate |].
  intros [= <-].
  assert (Hm : In (fold_left Qminb l a) (filter (fun k => Qgeb k epsilon) K)).
  { rewrite Hf. apply fold_min_in. }
  apply filter_In in Hm. destruct Hm as [_ Hme]. qbool.
  apply Forall_map, Forall_forall. intros k _.
  destruct (Qltb k epsilon) eqn:Hk; qbool; assumption.
Qed.

(** A row that the envelope covers after the division by [k] is below the
    row of the estimate, so the last line of [baseline_selection] leaves
    the estimate as it is. *)
Lemma clamp_row_noop (k : Q) (E r : list Q) :
  0 < k -> Forall2 Qle (map (fun f => f / k) r) E ->
  zip_with (fun e v => if Qltb e v then v else e) (map (fun e => Qabs (k * e)) E) r
  = map (fun e => Qabs (k * e)) E.
Proof.
  intros Hk. revert E. induction r as [| v r IH]; intros E H; simpl in H.
  - inversion H. reflexivity.
  - inversion H as [| q e r' E' Hq Hrest]; subst. cbn [map zip_with].
    rewrite (IH _ Hrest).
    assert (Hv : v == (v / k) * k) by (field; lra).
    assert (Hle : v <= k * e).
    { rewrite Hv. rewrite (Qmult_comm k e). apply Qmult_le_compat_r; lra. }
    pose proof (Qle_Qabs (k * e)) as Habs.
    assert (Hcell : Qltb (Qabs (k * e)) v = false) by (apply Qltb_false; lra).
    rewrite Hcell. reflexivity.
Qed.

Lemma clamp_noop (E K : list Q) (F : list (list Q)) :
  length K = length F ->
  Forall (fun k => 0 < k) K ->
  Forall (fun row => Forall2 Qle row E) (scale_rows F K) ->
  over_approx (mat_map Qabs (dot K E)) F = mat_map Qabs (dot K E).
Proof.
  unfold over_approx, mat_zip, mat_map, dot, scale_rows.
  intros Hlen HK. revert F Hlen.
  induction HK as [| k K Hk HK IH]; intros F Hlen H; [reflexivity |].
  destruct F as [| r F]; [discriminate |].
  cbn [map zip_with] in *. injection Hlen as Hlen.
  inversion H as [| row rows Hrow Hrows]; subst.
  rewrite (IH _ Hlen Hrows). f_equal.
  rewrite map_map. apply clamp_row_noop; assumption.
Qed.

Section BaselineEstimate.

Variable svds : list (list Q) -> list Q * Q * list Q.
Variable sqrt : Q -> Q.
Variable norm : list (list Q) -> Q.
Variable random_choice : nat -> nat.

Hypothesis svds_ok : svds_shaped svds.

Lemma baseline_finish_rank_one (self : GeneNMFOA) (p L : nat) (F est : list (list Q))
    (K E : list Q) (st : trim_state) :
  has_dims p L F -> length K = p -> (exists L', has_dims p L' (t_F_bin st)) ->
  baseline_finish svds sqrt self F K E st = Ok est ->
  exists K' E',
    length K' = p /\ length E' = L
    /\ Forall (fun k => epsilon <= k) K'
    /\ col_max (scale_rows F K') = Ok E'
    /\ est = mat_map Qabs (dot K' E').
Proof.
  intros HF HK [L' Hst]. unfold baseline_finish.
  destruct (vmax (t_rho_vec st)) as [m | e]; simpl; [| discriminate].
  pose proof (nmf_factors_length sqrt svds_ok self Hst) as HK'.
  assert (HK1 : length (fst (if Qltb m (1 # 10)
                              then nmf_factors svds sqrt self (t_F_bin st)
                              else (K, E))) = p).
  { destruct (Qltb m (1 # 10)); [exact HK' | exact HK]. }
  destruct (if Qltb m (1 # 10) then nmf_factors svds sqrt self (t_F_bin st) else (K, E))
    as [K1 E1].
  simpl in HK1.
  destruct (floor_K K1) as [K2 | e] eqn:Hfloor; simpl; [| discriminate].
  pose proof (floor_K_floor _ Hfloor) as Hfl.
  apply floor_K_length in Hfloor.
  assert (HK2 : length K2 = p) by congruence.
  destruct (col_max (scale_rows F K2)) as [E2 | e] eqn:Hmax; simpl; [| discriminate].
  pose proof (@scale_rows_dims p L F K2 HF HK2) as Hdims.
  intros [= <-]. exists K2, E2.
  split; [exact HK2 |].
  split; [exact (@col_max_length p L _ _ Hdims Hmax) |].
  split; [exact Hfl |]. split; [exact Hmax |].
  apply clamp_noop.
  - destruct HF as [HF _]. congruence.
  - eapply Forall_impl; [| exact Hfl]. intros k Hk. simpl in Hk.
    unfold epsilon in Hk. lra.
  - exact (col_max_upper Hdims Hmax).
Qed.

(** When [baseline_selection] runs to its end, the estimate it returns is
    the rank-one matrix |K E^T| itself, with every entry of K at least 1e-5
    and E the column maxima of F / K: in exact arithmetic the
    over-approximation line that follows has nothing left to raise. *)
Theorem baseline_estimate_rank_one (self : GeneNMFOA) (F est : list (list Q)) :
  rect F ->
  baseline_selection svds sqrt norm random_choice self F = Ok (est, true) ->
  exists K E,
    length K = nrows F /\ length E = ncols F
    /\ Forall (fun k => epsilon <= k) K
    /\ col_max (scale_rows F K) = Ok E
    /\ est = mat_map Qabs (dot K E).
Proof.
  intros Hrect. unfold baseline_selection.
  destruct (baseline_overhead random_choice self F) as [[hi |] | e]; cbn [bind];
    [| discriminate | discriminate].
  destruct (baseline_start svds sqrt self F hi) as [[[K E] st] | e] eqn:Hstart;
    cbn [bind]; [| discriminate].
  destruct (baseline_start_dims sqrt svds_ok _ _ _ Hstart) as [HK Hst].
  destruct (trim_loop _ _ _ _ _ _) as [st' | e] eqn:Hloop; cbn [bind]; [| discriminate].
  pose proof (trim_loop_dims svds sqrt norm _ self _ Hst Hloop) as Hst'.
  destruct (baseline_finish _ _ _ _ _ _ _) as [est' | e] eqn:Hfin; cbn [bind];
    [| discriminate].
  intros [= <-].
  eapply baseline_finish_rank_one; [apply rect_has_dims; exact Hrect | | |]; eassumption.
Qed.

End BaselineEstimate.

(** [silent_sample_gene] with two high-coverage positions asked for. *)
Lemma baseline_estimate_rank_one_witness :
  exists K E,
    length K = nrows silent_sample_gene /\ length E = ncols silent_sample_gene
    /\ Forall (fun k => epsilon <= k) K
    /\ col_max (scale_rows silent_sample_gene K) = Ok E
    /\ [[10; 10; 10]; [10; 10; 10]] = mat_map Qabs (dot K E).
Proof.
  apply (@baseline_estimate_rank_one svds_envelope sqrt_unit norm_l1 choice_zero
           svds_envelope_shaped low_threshold_obj silent_sample_gene).
  - repeat constructor.
  - vm_compute. reflexivity.
Defined.

(** ** What nmf returns *)

Section NmfShape.

Variable svds : list (list Q) -> list Q * Q * list Q.
Variable sqrt : Q -> Q.

Hypothesis svds_ok : svds_shaped svds.

(** Whenever [svds] answers with factors of the shape of its argument,
    [nmf(x)] has the shape of [x], and with [factors=True] it returns a K
    with an entry per row of [x] and an E with an entry per column, none of
    them negative. *)
Theorem nmf_returns_shaped (self : GeneNMFOA) (x0 : list (list Q)) :
  rect x0 ->
  has_dims (nrows x0) (ncols x0) (nmf_estimate svds sqrt self x0)
  /\ length (fst (nmf_factors svds sqrt self x0)) = nrows x0
  /\ (nrows x0 = 0%nat \/ length (snd (nmf_factors svds sqrt self x0)) = ncols x0)
  /\ Forall (fun k => 0 <= k) (fst (nmf_factors svds sqrt self x0))
  /\ Forall (fun e => 0 <= e) (snd (nmf_factors svds sqrt self x0)).
Proof.
  intros Hrect. pose proof (rect_has_dims Hrect) as Hx.
  pose proof (nmf_run_shapes sqrt svds_ok self Hx) as Hrun.
  unfold nmf_estimate, nmf_factors.
  destruct (nmf_run svds sqrt self x0) as [[[K E] est] lmbda].
  destruct Hrun as [HK [HE [Hest _]]]. cbn [fst snd].
  split; [apply mat_zip_dims; assumption |].
  split; [rewrite length_map; exact HK |].
  split; [destruct HE as [HE | HE]; [left; exact HE | right; rewrite length_map; exact HE] |].
  split; apply Forall_map, Forall_forall; intros q _; apply Qabs_nonneg.
Qed.

End NmfShape.

(** The two returns of [nmf] on a gene of two samples and three
    positions. *)
Lemma nmf_returns_shaped_witness :
  has_dims 2 3 (nmf_estimate svds_envelope sqrt_unit split_obj [[1; 2; 3]; [3; 2; 1]])
  /\ length (fst (nmf_factors svds_envelope sqrt_unit split_obj [[1; 2; 3]; [3; 2; 1]]))
     = 2%nat.
Proof.
  destruct (@nmf_returns_shaped svds_envelope sqrt_unit svds_envelope_shaped split_obj
              [[1; 2; 3]; [3; 2; 1]]) as [H1 [H2 _]].
  - repeat constructor.
  - split; [exact H1 | exact H2].
Defined.

(** ** The divisors of the read counts *)

Lemma zip_with_Forall {A B C : Type} (P : A -> Prop) (R : B -> Prop) (S : C -> Prop)
    (f : A -> B -> C) (a : list A) (b : list B) :
  (forall u v, P u -> R v -> S (f u v)) ->
  Forall P a -> Forall R b -> Forall S (zip_with f a b).
Proof.
  intros Hf Ha. revert b. induction Ha as [| u a Hu Ha IH]; intros b Hb; simpl.
  - constructor.
  - destruct Hb as [| v b Hv Hb]; constructor; [apply Hf; assumption | apply IH; exact Hb].
Qed.

Lemma fold_sums_bound (rs : list (list Q)) (acc : list Q) (c : Q) :
  Forall (fun s => 0 <= s /\ s < c) acc ->
  Forall (Forall di_cell_ok) rs ->
  Forall (fun s => 0 <= s /\ s < c + inject_Z (Z.of_nat (length rs)))
    (fold_left (zip_with Qplus) rs acc).
Proof.
  intros Hacc Hrs. revert acc c Hacc.
  induction Hrs as [| r rs Hr Hrs IH]; intros acc c Hacc; simpl fold_left.
  - eapply Forall_impl; [| exact Hacc]. intros s [H0 H1].
    change (inject_Z (Z.of_nat (length (@nil (list Q))))) with 0. split; lra.
  - assert (Hstep : Forall (fun s => 0 <= s /\ s < c + 1) (zip_with Qplus acc r)).
    { eapply zip_with_Forall; [| exact Hacc | exact Hr].
      intros u v [Hu0 Hu1] [Hv0 Hv1]. lra. }
    specialize (IH _ _ Hstep).
    eapply Forall_impl; [| exact IH]. intros s [H0 H1]. split; [exact H0 |].
    replace (length (r :: rs)) with (S (length rs)) by reflexivity.
    rewrite Nat2Z.inj_succ. unfold Z.succ. rewrite inject_Z_plus.
    change (inject_Z 1) with 1. lra.
Qed.

(** The mean of every column of a matrix of DI scores is a DI score. *)
Lemma col_means_range (m : list (list Q)) :
  m <> [] -> Forall (Forall di_cell_ok) m -> Forall di_cell_ok (col_means m).
Proof.
  intros Hne Hm. unfold col_means, col_sums, nrows.
  destruct m as [| r rs]; [congruence |].
  inversion Hm as [| r0 rs0 Hr Hrs]; subst.
  assert (Hr1 : Forall (fun s => 0 <= s /\ s < 1) r).
  { eapply Forall_impl; [| exact Hr]. intros s Hs. exact Hs. }
  pose proof (fold_sums_bound Hr1 Hrs) as Hsum.
  apply Forall_map. eapply Forall_impl; [| exact Hsum].
  intros s [H0 H1]. simpl in H0, H1.
  assert (Hn : inject_Z (Z.of_nat (length (r :: rs))) == 1 + inject_Z (Z.of_nat (length rs))).
  { replace (length (r :: rs)) with (S (length rs)) by reflexivity.
    rewrite Nat2Z.inj_succ. unfold Z.succ. rewrite inject_Z_plus.
    change (inject_Z 1) with 1. lra. }
  assert (Hpos : 0 < inject_Z (Z.of_nat (length (r :: rs)))).
  { rewrite Hn. assert (0 <= inject_Z (Z.of_nat (length rs))).
    { change 0 with (inject_Z 0). rewrite <- Zle_Qle. lia. }
    lra. }
  split.
  - apply Qle_shift_div_l; [exact Hpos | lra].
  - apply Qlt_shift_div_r; [exact Hpos | lra].
Qed.

(** Once [compute_scale_factors] has run on one gene at least, no divisor
    of [adjust_read_counts] is zero or negative: neither 1 minus the DI
    score of a gene in a sample, nor 1 minus the mean DI score of a
    sample. *)
Theorem adjust_divisors_positive (median : list Q -> Q) (ests : list (list (list Q)))
    (self : GeneNMFOA) :
  rho (fst (compute_scale_factors median ests self)) <> [] ->
  Forall (Forall (fun r => 0 < 1 - r)) (rho (fst (compute_scale_factors median ests self)))
  /\ Forall (fun a => 0 < 1 - a)
       (col_means (rho (fst (compute_scale_factors median ests self)))).
Proof.
  intros Hne. rewrite compute_scale_factors_rho in *.
  pose proof (di_matrix_range (cov_sums self) (map row_sums ests)) as Hrange.
  split.
  - eapply Forall_impl; [| exact Hrange]. intros row Hrow.
    eapply Forall_impl; [| exact Hrow]. intros r [_ Hr]. lra.
  - eapply Forall_impl; [| exact (col_means_range Hne Hrange)].
    intros a [_ Ha]. lra.
Qed.

(** The scores of [faint_obj] under [faint_estimate]. *)
Lemma adjust_divisors_positive_witness :
  Forall (Forall (fun r => 0 < 1 - r))
    (rho (fst (compute_scale_factors median_sorted faint_estimate faint_obj)))
  /\ Forall (fun a => 0 < 1 - a)
       (col_means (rho (fst (compute_scale_factors median_sorted faint_estimate faint_obj)))).
Proof.
  apply (@adjust_divisors_positive median_sorted faint_estimate faint_obj).
  vm_compute. discriminate.
Defined.

(** ** The general lemmas at concrete inputs *)

(** The example of the docstring of [shift_bins]: four bins of two
    positions, the second one dropped. *)
Lemma shift_bins_reindexes_witness :
  shift_bins [[0; 1]; [4; 5]; [6; 7]]%Z 1 = Ok [[0; 1]; [2; 3]; [4; 5]]%Z.
Proof.
  apply (@shift_bins_reindexes 2 4 1); lia.
Defined.

(** The loop on [degraded_gene] under the default 20 bins: it stops one
    bin below the floor of 6, and no further. *)
Lemma trim_loop_floor_witness :
  exists st' : trim_state,
    trim_loop svds_envelope sqrt_unit norm_l1 21 default_bins_obj degraded_start = Ok st'
    /\ length (t_bin_segs st') = 5%nat
    /\ (st' = degraded_start
        \/ (stale_count st'
            /\ (min_bins default_bins_obj <= S (length (t_bin_segs st')))%nat)).
Proof.
  destruct (trim_loop svds_envelope sqrt_unit norm_l1 21 default_bins_obj degraded_start)
    as [st' | e] eqn:Hloop; [| vm_compute in Hloop; discriminate].
  exists st'. split; [reflexivity |]. split.
  - vm_compute in Hloop. injection Hloop as <-. reflexivity.
  - apply (@trim_loop_floor svds_envelope sqrt_unit norm_l1 21 default_bins_obj
             degraded_start st'); [left; vm_compute; reflexivity | exact Hloop].
Defined.

(** A second call of [fit] that fails on its first check, on
    [fitted_obj]. *)
Lemma refit_failure_keeps_flag_witness :
  snd (fit two_position_gene two_count_rows fitted_obj) = Raise ValueError
  /\ fitted (fst (fit two_position_gene two_count_rows fitted_obj)) = true.
Proof.
  split; [reflexivity |].
  apply (@refit_failure_keeps_flag two_position_gene two_count_rows fitted_obj ValueError);
    reflexivity.
Defined.

(** [fit_transform] on [two_position_gene] with one round. *)
Lemma fit_transform_contract_witness :
  transformed (fst (fit_transform svds_envelope sqrt_unit norm_l1 median_sorted all_draws_zero
                      two_position_gene one_count_row (init 1 1 1 1 20 1))) = true
  /\ x (fst (fit_transform svds_envelope sqrt_unit norm_l1 median_sorted all_draws_zero
               two_position_gene one_count_row (init 1 1 1 1 20 1))) = one_count_row.
Proof.
  destruct (@fit_transform_contract svds_envelope sqrt_unit norm_l1 median_sorted all_draws_zero
              two_position_gene one_count_row (init 1 1 1 1 20 1)) as [_ H].
  destruct H as [_ [_ [Ht [Hx _]]]]; [vm_compute; reflexivity |].
  split; [exact Ht | exact Hx].
Defined.

(** ** The exon unions *)

Lemma insert_uniq_In (z a : Z) (l : list Z) :
  In a (insert_uniq z l) <-> a = z \/ In a l.
Proof.
  induction l as [| y l IH]; simpl.
  - intuition.
  - destruct (Z.ltb_spec z y); [simpl; intuition |].
    destruct (Z.eqb_spec z y); [subst; simpl; intuition |].
    simpl. rewrite IH. intuition.
Qed.

Lemma unique_In (a : Z) (l : list Z) : In a (unique l) <-> In a l.
Proof.
  induction l as [| z l IH]; simpl; [reflexivity |].
  rewrite insert_uniq_In, IH. intuition.
Qed.

Lemma insert_uniq_sorted (z : Z) (l : list Z) :
  StronglySorted Z.lt l -> StronglySorted Z.lt (insert_uniq z l).
Proof.
  induction 1 as [| y l Hl IH Hy]; simpl.
  - repeat constructor.
  - rewrite Forall_forall in Hy.
    destruct (Z.ltb_spec z y).
    + constructor; [constructor; [exact Hl | apply Forall_forall; exact Hy] |].
      constructor; [assumption |].
      apply Forall_forall. intros a Ha. specialize (Hy a Ha). lia.
    + destruct (Z.eqb_spec z y).
      * constructor; [exact Hl | apply Forall_forall; exact Hy].
      * constructor; [exact IH |].
        apply Forall_forall. intros a Ha. apply insert_uniq_In in Ha.
        destruct Ha as [-> | Ha]; [lia | apply Hy; exact Ha].
Qed.

Lemma unique_sorted (l : list Z) : StronglySorted Z.lt (unique l).
Proof.
  induction l as [| z l IH]; simpl; [constructor | apply insert_uniq_sorted; exact IH].
Qed.

Lemma sorted_NoDup (l : list Z) : StronglySorted Z.lt l -> NoDup l.
Proof.
  induction 1 as [| y l Hl IH Hy]; constructor; [| exact IH].
  intros Hin. rewrite Forall_forall in Hy. specialize (Hy y Hin). lia.
Qed.

Lemma unique_NoDup (l : list Z) : NoDup (unique l).
Proof. apply sorted_NoDup, unique_sorted. Qed.

Lemma insert_row_length (r : Z * Z) (l : list (Z * Z)) :
  (length (insert_row r l) <= S (length l))%nat.
Proof.
  induction l as [| y l IH]; simpl; [lia |].
  destruct (row_ltb r y); [simpl; lia |].
  destruct (row_eqb r y); simpl; lia.
Qed.

Lemma unique_rows_length (l : list (Z * Z)) : (length (unique_rows l) <= length l)%nat.
Proof.
  induction l as [| r l IH]; simpl; [lia |].
  pose proof (insert_row_length r (unique_rows l)). lia.
Qed.

Lemma mapM_ok_map {A B : Type} (f : A -> result B) (g : A -> B) (l : list A) :
  Forall (fun a => f a = Ok (g a)) l -> mapM f l = Ok (map g l).
Proof.
  induction 1 as [| a l Ha Hl IH]; [reflexivity |].
  cbn [mapM map]. rewrite Ha, IH. reflexivity.
Qed.

Lemma item_nth {A : Type} (l : list A) (i : nat) (d : A) :
  (i < length l)%nat -> item l i = Ok (nth i l d).
Proof.
  intros Hi. unfold item. rewrite (nth_error_nth' l d Hi). reflexivity.
Qed.

Lemma rows_at_ok (x : list (Z * Z)) (idx : list nat) :
  Forall (fun i => (i < length x)%nat) idx ->
  rows_at x idx = Ok (map (fun i => nth i x (0, 0)%Z) idx).
Proof.
  intros H. unfold rows_at. apply mapM_ok_map.
  eapply Forall_impl; [| exact H]. intros i Hi. apply item_nth. exact Hi.
Qed.

Lemma at_index_nth {A : Type} (l : list A) (i : Z) (d : A) :
  (0 <= i < Z.of_nat (length l))%Z -> at_index l i = Ok (nth (Z.to_nat i) l d).
Proof.
  intros Hi. unfold at_index, norm_index.
  destruct (Z.leb_spec 0 i), (Z.ltb_spec i (Z.of_nat (length l))); try lia.
  cbn [andb bind]. apply item_nth. lia.
Qed.

Lemma where_from_none (mask : list bool) (i : Z) :
  Forall (fun b => b = false) mask -> where_from i mask = [].
Proof.
  intros H. revert i. induction H as [| b mask Hb Hmask IH]; intros i; simpl.
  - reflexivity.
  - rewrite Hb. apply IH.
Qed.

Lemma sorted_skipn {A : Type} (R : A -> A -> Prop) (l : list A) (i : nat) (a : A) :
  StronglySorted R l -> nth_error l i = Some a -> Forall (R a) (skipn (S i) l).
Proof.
  intros H. revert i. induction H as [| y l Hl IH Hy]; intros [| i] Hi; simpl in *;
    try discriminate.
  - injection Hi as <-. exact Hy.
  - apply IH. exact Hi.
Qed.

Lemma apart_bleeding (x : list (Z * Z)) (i : nat) :
  apart x -> (i < length x)%nat -> bleeding x i = Ok [].
Proof.
  intros Hx Hi. unfold bleeding.
  rewrite (item_nth x (0, 0)%Z Hi). cbn [bind]. f_equal.
  apply where_from_none, Forall_map.
  eapply Forall_impl;
    [| apply (@sorted_skipn _ _ x i _ Hx (nth_error_nth' x (0, 0)%Z Hi))].
  intros r Hr. simpl in Hr. apply Z.leb_gt. exact Hr.
Qed.

Lemma concat_nils {A B : Type} (l : list A) : concat (map (fun _ => @nil B) l) = [].
Proof. induction l; simpl; auto. Qed.

Lemma apart_concat_exons (x : list (Z * Z)) : apart x -> concat_exons x = Ok [].
Proof.
  intros Hx. unfold concat_exons.
  rewrite (@mapM_ok_map _ _ (bleed_pair x) (fun _ => [])).
  - cbn [bind]. rewrite concat_nils. reflexivity.
  - apply Forall_forall. intros i Hi. apply in_seq in Hi.
    unfold bleed_pair. rewrite apart_bleeding by (assumption || lia). reflexivity.
Qed.

Section ExonUnions.

Variable argsort : list Z -> list nat.

(** Exons that lie apart once they are sorted by their start are returned
    in that order, none of them changed. *)
Theorem get_exon_unions_apart (x x1 : list (Z * Z)) :
  length x <> 1%nat ->
  rows_at x (argsort (map fst x)) = Ok x1 -> apart x1 ->
  get_exon_unions argsort x = Ok x1.
Proof.
  intros Hlen Hsort Hapart. unfold get_exon_unions.
  destruct (Nat.eqb_spec (length x) 1); [contradiction |].
  rewrite Hsort. cbn [bind]. rewrite (apart_concat_exons Hapart). reflexivity.
Qed.

End ExonUnions.

(** Three exons that lie apart, out of order. *)
Lemma get_exon_unions_apart_witness :
  get_exon_unions argsort_stable [(20, 30); (0, 10); (15, 18)]%Z
  = Ok [(0, 10); (15, 18); (20, 30)]%Z.
Proof.
  apply (@get_exon_unions_apart argsort_stable [(20, 30); (0, 10); (15, 18)]%Z).
  - vm_compute. lia.
  - reflexivity.
  - repeat constructor.
Defined.

Lemma where_from_range (mask : list bool) (z : Z) :
  In z (np_where mask) -> (0 <= z < Z.of_nat (length mask))%Z.
Proof.
  unfold np_where. intros H. apply where_from_In in H. destruct H as [k [Hk ->]].
  assert (k < length mask)%nat by (apply nth_error_Some; congruence). lia.
Qed.

Lemma fold_zmax_in (l : list Z) (a : Z) : In (fold_left Z.max l a) (a :: l).
Proof.
  revert a. induction l as [| b l IH]; intros a; simpl; [auto |].
  destruct (IH (Z.max a b)) as [H | H]; [| auto].
  rewrite <- H. destruct (Z.max_spec a b) as [[_ ->] | [_ ->]]; auto.
Qed.

Lemma fold_zmin_in (l : list Z) (a : Z) : In (fold_left Z.min l a) (a :: l).
Proof.
  revert a. induction l as [| b l IH]; intros a; simpl; [auto |].
  destruct (IH (Z.min a b)) as [H | H]; [| auto].
  rewrite <- H. destruct (Z.min_spec a b) as [[_ ->] | [_ ->]]; auto.
Qed.


Lemma bleed_pair_range (x : list (Z * Z)) (i : nat) :
  (i < length x)%nat ->
  exists ps, bleed_pair x i = Ok ps /\ Forall (pair_in_range (length x)) ps.
Proof.
  intros Hi. unfold bleed_pair, bleeding.
  rewrite (item_nth x (0, 0)%Z Hi). cbn [bind].
  set (mask := map (fun r => (fst r <=? snd (nth i x (0, 0)%Z))%Z) (skipn (S i) x)).
  assert (Hmask : length mask = (length x - S i)%nat).
  { unfold mask. rewrite length_map, length_skipn. reflexivity. }
  destruct (np_where mask) as [| b0 bs] eqn:Hw.
  - exists []. split; [reflexivity | constructor].
  - eexists. split; [reflexivity |]. constructor; [| constructor].
    pose proof (fold_zmax_in bs b0) as Hin. rewrite <- Hw in Hin.
    apply where_from_range in Hin. unfold pair_in_range. cbn [fst snd]. lia.
Qed.

Lemma mapM_Forall_ok {A B : Type} (f : A -> result B) (P : B -> Prop) (l : list A) :
  (forall a, In a l -> exists b, f a = Ok b /\ P b) ->
  exists bs, mapM f l = Ok bs /\ Forall P bs /\ length bs = length l.
Proof.
  induction l as [| a l IH]; intros H.
  - exists []. repeat split; constructor.
  - destruct (H a (or_introl eq_refl)) as [b [Hb HP]].
    destruct IH as [bs [Hbs [HPs Hlen]]]; [intros a' Ha'; apply H; right; exact Ha' |].
    exists (b :: bs). cbn [mapM]. rewrite Hb, Hbs. cbn [bind length].
    repeat split; [constructor; assumption | congruence].
Qed.

Lemma Forall_concat {A : Type} (P : A -> Prop) (ls : list (list A)) :
  Forall (Forall P) ls -> Forall P (concat ls).
Proof.
  induction 1 as [| l ls Hl Hls IH]; simpl; [constructor |].
  apply Forall_app. split; assumption.
Qed.

Lemma concat_exons_range (x : list (Z * Z)) :
  exists pairs, concat_exons x = Ok pairs /\ Forall (pair_in_range (length x)) pairs.
Proof.
  unfold concat_exons.
  destruct (@mapM_Forall_ok _ _ (bleed_pair x) (Forall (pair_in_range (length x)))
              (seq 0 (length x - 1))) as [ps [Hps [HP _]]].
  { intros i Hi. apply in_seq in Hi. apply bleed_pair_range. lia. }
  rewrite Hps. cbn [bind]. eexists. split; [reflexivity |].
  apply Forall_concat. exact HP.
Qed.

Lemma bleed_start_range (pairs : list (Z * Z)) (j : Z) :
  In j (map snd pairs) ->
  exists k, bleed_start pairs j = Ok k /\ (0 <= k < Z.of_nat (length pairs))%Z.
Proof.
  intros Hj. unfold bleed_start.
  set (mask := map (fun z => (snd z =? j)%Z) pairs).
  assert (Hlen : length mask = length pairs) by (unfold mask; apply length_map).
  destruct (np_where mask) as [| k ks] eqn:Hw.
  - exfalso. apply in_map_iff in Hj. destruct Hj as [z [Hz Hin]].
    apply In_nth_error in Hin. destruct Hin as [n Hn].
    assert (Hk : In (0 + Z.of_nat n)%Z (np_where mask)).
    { unfold np_where. apply where_from_In. exists n. split; [| reflexivity].
      unfold mask. rewrite nth_error_map, Hn. simpl. rewrite Hz, Z.eqb_refl. reflexivity. }
    rewrite Hw in Hk. destruct Hk.
  - eexists. split; [reflexivity |].
    pose proof (fold_zmin_in ks k) as Hin. rewrite <- Hw in Hin.
    apply where_from_range in Hin. lia.
Qed.

Lemma union_exon_ok (x pairs : list (Z * Z)) (j : Z) :
  Forall (pair_in_range (length x)) pairs -> In j (map snd pairs) ->
  exists r, union_exon x pairs j = Ok r.
Proof.
  intros Hrange Hj. unfold union_exon.
  destruct (bleed_start_range pairs j Hj) as [k [-> Hk]]. cbn [bind].
  rewrite (at_index_nth pairs (0, 0)%Z Hk). cbn [bind].
  assert (Hz : pair_in_range (length x) (nth (Z.to_nat k) pairs (0, 0)%Z)).
  { rewrite Forall_forall in Hrange. apply Hrange, nth_In. lia. }
  assert (Hjr : (0 <= j < Z.of_nat (length x))%Z).
  { apply in_map_iff in Hj. destruct Hj as [z [<- Hin]].
    rewrite Forall_forall in Hrange. destruct (Hrange z Hin). lia. }
  destruct Hz as [Hz1 Hz2].
  rewrite (@at_index_nth _ x (fst (nth (Z.to_nat k) pairs (0, 0)%Z)) (0, 0)%Z) by lia.
  cbn [bind]. rewrite (@at_index_nth _ x j (0, 0)%Z) by lia.
  cbn [bind]. eauto.
Qed.

Lemma filter_combine_fst {A : Type} (g : nat -> bool) (s : nat) (xs : list A) :
  length (filter (fun ir => g (fst ir)) (combine (seq s (length xs)) xs))
  = length (filter g (seq s (length xs))).
Proof.
  revert s. induction xs as [| a xs IH]; intros s; simpl; [reflexivity |].
  destruct (g s); simpl; rewrite IH; reflexivity.
Qed.

Lemma filter_split_length {A : Type} (g : A -> bool) (l : list A) :
  (length (filter g l) + length (filter (fun a => negb (g a)) l) = length l)%nat.
Proof.
  induction l as [| a l IH]; simpl; [reflexivity |].
  destruct (g a); simpl; lia.
Qed.

Lemma existsb_eqb_In (k : nat) (ks : list nat) :
  existsb (Nat.eqb k) ks = true <-> In k ks.
Proof.
  rewrite existsb_exists. split.
  - intros [j [Hj Heq]]. apply Nat.eqb_eq in Heq. subst. exact Hj.
  - intros H. exists k. split; [exact H | apply Nat.eqb_refl].
Qed.

(** Deleting distinct positions of a list shortens it by their number. *)
Lemma np_delete_length {A : Type} (x : list A) (idx : list Z) :
  NoDup idx -> Forall (fun z => (0 <= z < Z.of_nat (length x))%Z) idx ->
  exists y, np_delete x idx = Ok y /\ (length y + length idx = length x)%nat.
Proof.
  intros Hnd Hrange. unfold np_delete.
  rewrite mapM_norm_index by exact Hrange. cbn [bind].
  eexists. split; [reflexivity |].
  rewrite length_map.
  rewrite (filter_combine_fst (fun k => negb (existsb (Nat.eqb k) (map Z.to_nat idx)))).
  pose proof (filter_split_length (fun k => existsb (Nat.eqb k) (map Z.to_nat idx))
                (seq 0 (length x))) as Hsplit.
  rewrite length_seq in Hsplit.
  assert (Hsame : length (filter (fun k => existsb (Nat.eqb k) (map Z.to_nat idx))
                            (seq 0 (length x))) = length idx).
  { rewrite <- (length_map Z.to_nat idx).
    assert (Hnd' : NoDup (map Z.to_nat idx)).
    { apply Finite.Injective_map_NoDup_in; [| exact Hnd].
      intros a b Ha Hb Hab. rewrite Forall_forall in Hrange.
      pose proof (Hrange a Ha). pose proof (Hrange b Hb). lia. }
    apply Nat.le_antisymm; apply NoDup_incl_length.
    - apply NoDup_filter, seq_NoDup.
    - intros k Hk. apply filter_In in Hk. apply existsb_eqb_In, Hk.
    - exact Hnd'.
    - intros k Hk. apply filter_In. split; [| apply existsb_eqb_In; exact Hk].
      apply in_map_iff in Hk. destruct Hk as [z [<- Hz]].
      rewrite Forall_forall in Hrange. specialize (Hrange z Hz).
      apply in_seq. lia. }
  lia.
Qed.

Lemma insert_key_perm (l : list Z) (i : nat) (s : list nat) :
  Permutation (insert_key l i s) (i :: s).
Proof.
  induction s as [| j s IH]; simpl; [reflexivity |].
  destruct (nth i l 0 <=? nth j l 0)%Z; [reflexivity |].
  rewrite IH. apply perm_swap.
Qed.

Lemma insert_key_sorted (l : list Z) (i : nat) (s : list nat) :
  StronglySorted Z.le (map (fun k => nth k l 0%Z) s) ->
  StronglySorted Z.le (map (fun k => nth k l 0%Z) (insert_key l i s)).
Proof.
  induction s as [| j s IH]; intros Hs; simpl.
  - repeat constructor.
  - simpl in Hs. inversion Hs as [| y ys Hys Hy]; subst.
    destruct (Z.leb_spec (nth i l 0%Z) (nth j l 0%Z)) as [Hle | Hgt].
    + simpl. constructor; [exact Hs |].
      constructor; [exact Hle |].
      eapply Forall_impl; [| exact Hy]. intros z Hz. simpl in Hz. lia.
    + simpl. constructor; [apply IH; exact Hys |].
      apply Forall_forall. intros z Hz. apply in_map_iff in Hz.
      destruct Hz as [k [<- Hk]].
      apply (Permutation_in _ (insert_key_perm l i s)) in Hk.
      destruct Hk as [<- | Hk]; [lia |].
      rewrite Forall_forall in Hy. apply Hy.
      exact (in_map (fun k0 => nth k0 l 0%Z) s k Hk).
Qed.

(** The stand-in keeps the promise of [np.argsort]. *)
Lemma argsort_stable_sorts : argsort_sorts argsort_stable.
Proof.
  intros l. unfold argsort_stable. generalize (seq 0 (length l)). intros idx. split.
  - induction idx as [| i idx IH]; simpl; [reflexivity |].
    rewrite insert_key_perm. constructor. exact IH.
  - induction idx as [| i idx IH]; simpl; [constructor |].
    apply insert_key_sorted. exact IH.
Qed.

Section ExonUnionsSorted.

Variable argsort : list Z -> list nat.

Hypothesis argsort_ok : argsort_sorts argsort.

Lemma argsort_rows (x : list (Z * Z)) :
  exists x1, rows_at x (argsort (map fst x)) = Ok x1 /\ length x1 = length x.
Proof.
  destruct (argsort_ok (map fst x)) as [Hperm _].
  rewrite length_map in Hperm.
  rewrite rows_at_ok.
  - eexists. split; [reflexivity |].
    rewrite length_map, (Permutation_length Hperm). apply length_seq.
  - apply Forall_forall. intros i Hi.
    apply (Permutation_in _ Hperm), in_seq in Hi. lia.
Qed.

(** [get_exon_unions] returns on every array of exons, without an index
    out of range, and, as its docstring says, never with more rows than it
    was given. *)
Theorem get_exon_unions_returns (x : list (Z * Z)) :
  exists y, get_exon_unions argsort x = Ok y /\ (length y <= length x)%nat.
Proof.
  unfold get_exon_unions.
  destruct (length x =? 1)%nat; [exists x; split; [reflexivity | lia] |].
  destruct (argsort_rows x) as [x1 [-> Hlen1]]. cbn [bind].
  destruct (concat_exons_range x1) as [pairs [-> Hrange]]. cbn [bind].
  destruct pairs as [| z0 pairs0] eqn:Hpairs;
    [exists x1; split; [reflexivity | lia] |].
  rewrite <- Hpairs in *. clear Hpairs z0 pairs0.
  set (drop_exons := unique (flatten_2d (map (fun z => [fst z; snd z]) pairs))).
  assert (Hdrop : forall z, In z pairs -> In (fst z) drop_exons /\ In (snd z) drop_exons).
  { intros z Hz. unfold drop_exons, flatten_2d.
    split; apply (proj2 (unique_In _ _)), in_concat; exists [fst z; snd z];
      (split; [apply in_map_iff; exists z; auto | simpl; auto]). }
  assert (Hdrop_range : Forall (fun i => (0 <= i < Z.of_nat (length x1))%Z) drop_exons).
  { apply Forall_forall. intros i Hi. unfold drop_exons, flatten_2d in Hi.
    apply (proj1 (unique_In _ _)), in_concat in Hi. destruct Hi as [l [Hl Hi]].
    apply in_map_iff in Hl. destruct Hl as [z [<- Hz]].
    rewrite Forall_forall in Hrange. destruct (Hrange z Hz) as [H1 H2].
    destruct Hi as [<- | [<- | []]]; lia. }
  destruct (@mapM_Forall_ok _ _ (union_exon x1 pairs) (fun _ => True)
              (unique (map snd pairs))) as [union_exons [-> [_ Hunions]]].
  { intros j Hj. apply (proj1 (unique_In _ _)) in Hj.
    destruct (@union_exon_ok x1 pairs j Hrange Hj) as [r Hr]. eauto. }
  cbn [bind].
  destruct (np_delete_length x1 (unique_NoDup _) Hdrop_range) as [x2 [Hdel Hlen2]].
  fold drop_exons in Hdel. cbv zeta. rewrite Hdel. cbn [bind].
  destruct (argsort_rows (unique_rows (x2 ++ union_exons))) as [y [-> Hy]].
  exists y. split; [reflexivity |].
  pose proof (unique_rows_length (x2 ++ union_exons)) as Huniq.
  rewrite length_app in Huniq.
  assert (Hfew : (length (unique (map snd pairs)) <= length drop_exons)%nat).
  { apply NoDup_incl_length; [apply unique_NoDup |].
    intros j Hj. apply (proj1 (unique_In _ _)), in_map_iff in Hj.
    destruct Hj as [z [<- Hz]].
    apply Hdrop. exact Hz. }
  unfold drop_exons in *. lia.
Qed.

Lemma argsort_one (k : Z) : argsort [k] = [0%nat].
Proof.
  destruct (argsort_ok [k]) as [Hperm _]. simpl in Hperm.
  apply Permutation_sym, Permutation_length_1_inv in Hperm. exact Hperm.
Qed.

Lemma argsort_two (a c : Z) :
  (a < c)%Z -> argsort [a; c] = [0; 1]%nat /\ argsort [c; a] = [1; 0]%nat.
Proof.
  intros Hac. split.
  - destruct (argsort_ok [a; c]) as [Hperm Hsorted]. simpl in Hperm.
    apply Permutation_sym, Permutation_length_2_inv in Hperm.
    destruct Hperm as [-> | Heq]; [reflexivity | exfalso].
    rewrite Heq in Hsorted. simpl in Hsorted.
    inversion Hsorted as [| y ys _ Hy]; subst. inversion Hy; subst. lia.
  - destruct (argsort_ok [c; a]) as [Hperm Hsorted]. simpl in Hperm.
    apply Permutation_sym, Permutation_length_2_inv in Hperm.
    destruct Hperm as [Heq | ->]; [exfalso | reflexivity].
    rewrite Heq in Hsorted. simpl in Hsorted.
    inversion Hsorted as [| y ys _ Hy]; subst. inversion Hy; subst. lia.
Qed.

Lemma pair_concat_exons (a b c d : Z) :
  (c <= b)%Z -> concat_exons [(a, b); (c, d)] = Ok [(0, 1)%Z].
Proof.
  intros Hcb. unfold concat_exons, bleed_pair, bleeding. cbn.
  destruct (Z.leb_spec c b); [reflexivity | lia].
Qed.

(** Two exons of which the later one starts inside the earlier one are
    replaced, in whichever order they come, by one exon from the earlier
    start to the end of the later one: their union when the later one ends
    last, as in the docstring, and less than their union when it ends
    inside the earlier one. *)
Theorem get_exon_unions_pair (a b c d : Z) :
  (a < c <= b)%Z ->
  get_exon_unions argsort [(a, b); (c, d)] = Ok [(a, d)]
  /\ get_exon_unions argsort [(c, d); (a, b)] = Ok [(a, d)].
Proof.
  intros [Hac Hcb]. destruct (argsort_two Hac) as [H01 H10].
  assert (Hrest :
            (pairs <- concat_exons [(a, b); (c, d)] ;;
             match pairs with
             | [] => Ok [(a, b); (c, d)]
             | _ :: _ =>
                 let drop_exons :=
                   unique (flatten_2d (map (fun z => [fst z; snd z]) pairs)) in
                 union_exons <-
                   mapM (union_exon [(a, b); (c, d)] pairs) (unique (map snd pairs)) ;;
                 x <- np_delete [(a, b); (c, d)] drop_exons ;;
                 let x := x ++ union_exons in
                 let x := unique_rows x in
                 rows_at x (argsort (map fst x))
             end) = Ok [(a, d)]).
  { rewrite (pair_concat_exons a d Hcb). lazy. rewrite argsort_one. reflexivity. }
  unfold get_exon_unions. cbn [length Nat.eqb map fst].
  rewrite H01, H10. cbn [rows_at mapM item nth_error bind].
  split; exact Hrest.
Qed.

End ExonUnionsSorted.

(** Four exons that overlap in two pairs. *)
Lemma get_exon_unions_returns_witness :
  exists y,
    get_exon_unions argsort_stable [(0, 10); (5, 20); (30, 40); (35, 50)]%Z = Ok y
    /\ (length y <= 4)%nat.
Proof.
  exact (@get_exon_unions_returns argsort_stable argsort_stable_sorts
           [(0, 10); (5, 20); (30, 40); (35, 50)]%Z).
Defined.

(** The example of the docstring. *)
Lemma get_exon_unions_pair_witness :
  get_exon_unions argsort_stable [(14563, 14600); (14590, 14640)]%Z
  = Ok [(14563, 14640)]%Z.
Proof.
  apply (@get_exon_unions_pair argsort_stable argsort_stable_sorts
           14563 14600 14590 14640)%Z.
  lia.
Defined.

(** ** The flags of baseline selection *)

Section BaselineFlags.

Variable svds : list (list Q) -> list Q * Q * list Q.
Variable sqrt : Q -> Q.
Variable norm : list (list Q) -> Q.
Variable draws : nat -> nat -> nat.

(** After [par_apply_baseline_selection] has returned there is one
    estimate and one flag per gene, in the order of the genes, they are
    those of [baseline_selection] on that gene, nothing else of the object
    has changed, and a gene whose flag is False has the matrix it came with
    for its estimate. *)
Theorem baseline_flags_match_estimates (self s' : GeneNMFOA)
    (dat ests : list (list (list Q))) :
  (1 <= mem_splits self)%nat ->
  par_apply_baseline_selection svds sqrt norm draws dat self = (s', Ok ests) ->
  length ests = length dat
  /\ length (use_baseline_selection s') = length dat
  /\ s' = set_use_baseline_selection (use_baseline_selection s') self
  /\ forall (i : nat) (F : list (list Q)),
       nth_error dat i = Some F ->
       exists est ran,
         nth_error ests i = Some est
         /\ nth_error (use_baseline_selection s') i = Some ran
         /\ baseline_selection svds sqrt norm (draws i) self F = Ok (est, ran)
         /\ (ran = false -> est = F).
Proof.
  intros Hn.
  destruct (split_into_chunks_concat dat Hn) as [cs [Hsplit Hcat]].
  unfold par_apply_baseline_selection, bindM, get_self, lift, assign, ret.
  rewrite Hsplit.
  pose proof (run_serial_chunks svds sqrt norm self draws 0 cs) as Hm.
  rewrite Hcat in Hm.
  destruct (Parallel _ (with_offsets 0 cs)) as [rs | e]; cbn [bind] in Hm |- *;
    [| discriminate].
  intros [= <- <-]. cbn [use_baseline_selection set_use_baseline_selection].
  symmetry in Hm. destruct (run_serial_nth _ _ _ _ _ _ _ Hm) as [Hlen Hnth].
  rewrite !length_map. split; [exact Hlen |]. split; [exact Hlen |].
  split; [reflexivity |].
  intros i F HF.
  destruct (Hnth i F HF) as [[est ran] [Hi Hrun]]. cbn [Nat.add] in Hrun.
  exists est, ran. rewrite !nth_error_map, Hi. cbn [option_map fst snd].
  split; [reflexivity |]. split; [reflexivity |]. split; [exact Hrun |].
  intros ->. apply baseline_selection_flag in Hrun.
  destruct Hrun as [[_ [-> _]] | [Hran _]]; [reflexivity | discriminate].
Qed.

End BaselineFlags.

(** [three_genes], dispatched in two chunks. *)
Lemma baseline_flags_match_estimates_witness :
  exists s' ests,
    par_apply_baseline_selection svds_envelope sqrt_unit norm_l1 draws_zero three_genes
      split_obj = (s', Ok ests)
    /\ length ests = length three_genes
    /\ length (use_baseline_selection s') = length three_genes.
Proof.
  destruct (par_apply_baseline_selection svds_envelope sqrt_unit norm_l1 draws_zero
              three_genes split_obj) as [s' [ests | e]] eqn:Hrun;
    [| vm_compute in Hrun; discriminate].
  exists s', ests. split; [reflexivity |].
  destruct (@baseline_flags_match_estimates svds_envelope sqrt_unit norm_l1 draws_zero
              split_obj s' three_genes ests) as [H1 [H2 _]];
    [vm_compute; lia | exact Hrun | split; assumption].
Defined.

(** ** The floor of the trimming loop *)

Lemma vsum_zeros (n : nat) : vsum (repeat 0 n) == 0.
Proof.
  induction n as [| n IH]; simpl; [reflexivity |]. rewrite IH. reflexivity.
Qed.

Lemma nth_repeat_in (v d : Q) (B j : nat) : (j < B)%nat -> nth j (repeat v B) d = v.
Proof.
  revert j. induction B as [| B IH]; intros [| j] Hj; simpl; try lia; [reflexivity |].
  apply IH. lia.
Qed.

Lemma pick_repeat (v : Q) (B : nat) (js : list nat) :
  Forall (fun j => (j < B)%nat) js ->
  map (fun j => nth j (repeat v B) 0) js = repeat v (length js).
Proof.
  induction 1 as [| j js Hj Hjs IH]; simpl; [reflexivity |].
  rewrite IH, (nth_repeat_in v 0 Hj). reflexivity.
Qed.

Lemma has_dims_ncols (p L : nat) (m : list (list Q)) :
  has_dims (S p) L m -> ncols m = L.
Proof.
  intros [Hlen Hrows]. destruct m as [| r m]; [discriminate |].
  inversion Hrows; subst. reflexivity.
Qed.

Lemma silent_bin_dims (B : nat) : has_dims 2 B (silent_bin B).
Proof.
  split; [reflexivity |]. repeat constructor; apply repeat_length.
Qed.

(** The DI scores of [silent_bin]: the second sample is at the ceiling
    whatever the estimate is. *)
Lemma silent_scores (B : nat) (KE : list (list Q)) :
  has_dims 2 B KE ->
  exists r, di_scores (row_sums (silent_bin B)) (row_sums KE) = [r; 1 - (1 # 100000)].
Proof.
  intros [Hlen _]. destruct KE as [| k1 [| k2 [| k3 KE]]]; try discriminate.
  unfold di_scores, row_sums, silent_bin. cbn [map zip_with].
  eexists. f_equal. f_equal. apply clip_di_saturated.
  unfold Qdiv. rewrite vsum_zeros, Qmult_0_l. lra.
Qed.

Lemma silent_cond (self : GeneNMFOA) (B : nat) (st : trim_state) :
  silent_inv B st ->
  trim_cond self st = Ok (min_bins self <? t_n_bins st)%nat.
Proof.
  intros [_ [_ [_ [r Hrho]]]]. unfold trim_cond.
  destruct (min_bins self <? t_n_bins st)%nat; [| reflexivity].
  rewrite Hrho. cbn [vmax fold_left bind]. f_equal.
  unfold Qgtb. apply Qltb_true.
  pose proof (Qmaxb_ge_r r (1 - (1 # 100000))). lra.
Qed.

Lemma sorted_app {A : Type} (R : A -> A -> Prop) (l1 l2 : list A) :
  StronglySorted R l1 -> StronglySorted R l2 ->
  (forall a b, In a l1 -> In b l2 -> R a b) ->
  StronglySorted R (l1 ++ l2).
Proof.
  induction 1 as [| a l1 Hl1 IH Ha]; intros Hl2 Hcross; simpl; [exact Hl2 |].
  constructor.
  - apply IH; [exact Hl2 |]. intros u v Hu Hv. apply Hcross; [right; exact Hu | exact Hv].
  - apply Forall_app. split; [exact Ha |].
    apply Forall_forall. intros v Hv. apply Hcross; [left; reflexivity | exact Hv].
Qed.

Lemma seq_sorted (a n : nat) : StronglySorted Z.lt (map Z.of_nat (seq a n)).
Proof.
  revert a. induction n as [| n IH]; intros a; simpl; constructor; [apply IH |].
  apply Forall_map, Forall_forall. intros k Hk. apply in_seq in Hk. lia.
Qed.

Lemma unique_of_sorted (l : list Z) : StronglySorted Z.lt l -> unique l = l.
Proof.
  induction 1 as [| z l Hl IH Hz]; [reflexivity |].
  cbn [unique fold_right]. fold (unique l). rewrite IH.
  destruct l as [| y l]; [reflexivity |].
  inversion Hz; subst. cbn [insert_uniq].
  destruct (Z.ltb_spec z y); [reflexivity | lia].
Qed.

Lemma concat_bin_ranges (s n : nat) :
  concat (map (bin_range 1) (seq s n)) = map Z.of_nat (seq s n).
Proof.
  revert s. induction n as [| n IH]; intros s; [reflexivity |].
  cbn [seq map concat]. rewrite IH. unfold bin_range.
  rewrite Nat.mul_1_r. reflexivity.
Qed.

(** The positions kept when bin [d] of [B] bins of one position goes. *)
Lemma silent_keep_idx (B d : nat) :
  (d < B)%nat ->
  unique (flatten_2d (delete_at d (equal_bins 1 B)))
  = map Z.of_nat (seq 0 d ++ seq (S d) (B - 1 - d)).
Proof.
  intros Hd. rewrite (equal_bins_delete 1 Hd). unfold flatten_2d.
  rewrite concat_app. unfold equal_bins. rewrite !concat_bin_ranges, <- map_app.
  apply unique_of_sorted. rewrite map_app.
  apply sorted_app; [apply seq_sorted | apply seq_sorted |].
  intros u v Hu Hv. apply in_map_iff in Hu, Hv.
  destruct Hu as [i [<- Hi]]. destruct Hv as [j [<- Hj]].
  apply in_seq in Hi, Hj. lia.
Qed.

Section Floor.

Variable svds : list (list Q) -> list Q * Q * list Q.
Variable sqrt : Q -> Q.
Variable norm : list (list Q) -> Q.

Hypothesis svds_ok : svds_shaped svds.

Lemma nmf_estimate_dims (self : GeneNMFOA) (p L : nat) (x0 : list (list Q)) :
  has_dims p L x0 -> has_dims p L (nmf_estimate svds sqrt self x0).
Proof.
  intros Hx. pose proof (nmf_run_shapes sqrt svds_ok self Hx) as Hrun.
  unfold nmf_estimate.
  destruct (nmf_run svds sqrt self x0) as [[[K E] est] lmbda].
  destruct Hrun as [_ [_ [Hest _]]]. apply mat_zip_dims; assumption.
Qed.

(** A pass on [silent_gene] with three bins or more: one bin goes, the
    others are renumbered, and the count keeps the number of bins there
    were. *)
Lemma silent_body (self : GeneNMFOA) (B : nat) (st : trim_state) :
  (3 <= B)%nat -> silent_inv B st ->
  exists st',
    trim_body svds sqrt norm self st = Ok st'
    /\ silent_inv (B - 1) st' /\ t_n_bins st' = B.
Proof.
  intros HB [Hsegs [HF [HKE _]]]. unfold trim_body. rewrite Hsegs, HF.
  pose proof (silent_bin_dims B) as HFd.
  assert (Hcols : ncols (mat_zip Qminus (t_KE_bin st) (silent_bin B)) = B).
  { apply (@has_dims_ncols 1 B). apply mat_zip_dims; assumption. }
  destruct (@mapM_Forall_ok _ _
              (fun seg =>
                 r <- take_cols (mat_zip Qminus (t_KE_bin st) (silent_bin B)) seg ;;
                 f <- take_cols (silent_bin B) seg ;;
                 Ok (norm r, norm f))
              (fun _ => True) (equal_bins 1 B)) as [ss [Hss [_ Hlen]]].
  { intros seg Hseg. unfold equal_bins in Hseg. apply in_map_iff in Hseg.
    destruct Hseg as [k [<- Hk]]. apply in_seq in Hk.
    assert (Hr : forall m : list (list Q), ncols m = B ->
                   Forall (fun z => (0 <= z < Z.of_nat (ncols m))%Z) (bin_range 1 k)).
    { intros m Hm. unfold bin_range. rewrite Hm, Nat.mul_1_r.
      repeat constructor; lia. }
    rewrite (take_cols_in_range _ (Hr _ Hcols)). cbn [bind].
    rewrite (take_cols_in_range _ (Hr _ (has_dims_ncols HFd))). cbn [bind].
    eauto. }
  rewrite Hss. cbn [bind]. rewrite equal_bins_length in Hlen.
  destruct (nanargmax (map (fun rf => if Qeq_bool (snd rf) 0 then 0 else fst rf / snd rf) ss))
    as [d | e] eqn:Hd.
  2:{ exfalso. destruct ss as [| s0 ss]; [simpl in Hlen; lia | discriminate]. }
  cbn [bind]. apply nanargmax_lt in Hd. rewrite length_map, Hlen in Hd.
  rewrite equal_bins_length, (silent_keep_idx Hd).
  rewrite (@shift_bins_reindexes 1 B d) by lia. cbn [bind].
  set (keep := seq 0 d ++ seq (S d) (B - 1 - d)).
  assert (Hkeep_len : length keep = (B - 1)%nat).
  { unfold keep. rewrite length_app, !length_seq. lia. }
  assert (Hkeep_range : Forall (fun j => (j < B)%nat) keep).
  { apply Forall_forall. intros j Hj. unfold keep in Hj. apply in_app_or in Hj.
    destruct Hj as [Hj | Hj]; apply in_seq in Hj; lia. }
  assert (Hcut : index_cols (silent_bin B) (map Z.of_nat keep) = Ok (silent_bin (B - 1))).
  { unfold index_cols. destruct (map Z.of_nat keep) as [| z zs] eqn:Hmap.
    - apply (f_equal (@length Z)) in Hmap. rewrite length_map, Hkeep_len in Hmap.
      simpl in Hmap. lia.
    - rewrite <- Hmap. rewrite take_cols_in_range.
      + assert (Hids : map Z.to_nat (map Z.of_nat keep) = keep).
        { rewrite map_map. rewrite (map_ext _ (fun j => j) Nat2Z.id). apply map_id. }
        rewrite Hids. clearbody keep. unfold silent_bin. cbn [map].
        rewrite !pick_repeat by exact Hkeep_range. rewrite Hkeep_len. reflexivity.
      + rewrite (has_dims_ncols HFd). apply Forall_map.
        eapply Forall_impl; [| exact Hkeep_range]. intros j Hj. simpl in Hj. lia. }
  rewrite Hcut. cbn [bind].
  pose proof (nmf_estimate_dims self (silent_bin_dims (B - 1))) as HKE'.
  destruct (silent_scores HKE') as [r Hr].
  eexists. split; [reflexivity |].
  split; [| reflexivity].
  split; [reflexivity |]. split; [reflexivity |]. split; [exact HKE' |].
  exists r. exact Hr.
Qed.

Lemma trim_loop_step (self : GeneNMFOA) (fuel : nat) (st : trim_state) :
  trim_loop svds sqrt norm (S fuel) self st
  = (go <- trim_cond self st ;;
     if go then st' <- trim_body svds sqrt norm self st ;; trim_loop svds sqrt norm fuel self st'
     else Ok st).
Proof. reflexivity. Qed.

(** From a stale count on, the loop on [silent_gene] drops bins until the
    count it reads is [min_bins], that is until one bin less than that is
    left. *)
Lemma silent_loop (self : GeneNMFOA) (fuel B : nat) (st : trim_state) :
  (3 <= min_bins self)%nat ->
  silent_inv B st -> t_n_bins st = S B ->
  (min_bins self <= S B)%nat -> (S B - min_bins self <= fuel)%nat ->
  exists st',
    trim_loop svds sqrt norm fuel self st = Ok st'
    /\ S (length (t_bin_segs st')) = min_bins self
    /\ t_n_bins st' = min_bins self.
Proof.
  intros Hmin. revert B st. induction fuel as [| fuel IH]; intros B st Hinv Hn Hle Hfuel.
  - assert (HB : S B = min_bins self) by lia.
    cbn [trim_loop]. rewrite (silent_cond self Hinv), Hn, HB, Nat.ltb_irrefl.
    cbn [bind]. exists st. destruct Hinv as [Hsegs _].
    rewrite Hsegs, equal_bins_length. split; [reflexivity | split; lia].
  - cbn [trim_loop]. rewrite (silent_cond self Hinv), Hn. cbn [bind].
    destruct (Nat.ltb_spec (min_bins self) (S B)) as [Hgo | Hstop].
    + destruct (@silent_body self B st) as [st1 [Hbody [Hinv1 Hn1]]]; [lia | exact Hinv |].
      rewrite Hbody. cbn [bind].
      destruct B as [| B]; [lia |].
      replace (S B - 1)%nat with B in Hinv1 by lia.
      apply (IH B st1 Hinv1 Hn1); lia.
    + exists st. destruct Hinv as [Hsegs _].
      rewrite Hsegs, equal_bins_length. split; [reflexivity | split; lia].
Qed.

(** C4, at an input where the code departs from it.  With 20 bins the
    floor is 6.  On [silent_gene], whose second sample has no read, the DI
    score of that sample is 1 - 1e-5 at every pass, whatever the numeric
    libraries answer, so only the count can stop the loop: it still deletes
    a bin when 6 are left, and stops with 5, because its condition reads
    [n_bins], which the body sets before [del bin_segs[drop_idx]]. *)
Theorem trimming_goes_below_min_bins (random_choice : nat -> nat) (self : GeneNMFOA) :
  (downsample_rate self <= 1)%nat -> (min_high_coverage self <= 20)%nat ->
  bins self = 20%nat -> min_bins self = 6%nat ->
  exists st : trim_state,
    trimmed svds sqrt norm random_choice self silent_gene = Ok (Some st)
    /\ length (t_bin_segs st) = 5%nat
    /\ t_n_bins st = 6%nat.
Proof.
  intros Hrate Hcov Hbins Hmin.
  unfold trimmed, baseline_overhead.
  destruct (Nat.ltb_spec 1 (downsample_rate self)); [lia |]. cbn [bind].
  assert (Hhi : get_high_coverage_idx silent_gene = Ok (map Z.of_nat (seq 0 20)))
    by (vm_compute; reflexivity).
  rewrite Hhi. cbn [bind]. rewrite length_map, length_seq.
  destruct (Nat.ltb_spec 20 (min_high_coverage self)); [lia |].
  cbn [bind]. unfold baseline_start.
  assert (Hstart : take_cols silent_gene (sort (map Z.of_nat (seq 0 20)))
                   = Ok (silent_bin 20)) by (vm_compute; reflexivity).
  rewrite Hstart. cbn [bind].
  pose proof (nmf_run_shapes sqrt svds_ok self (silent_bin_dims 20)) as Hrun.
  unfold nmf_factors.
  destruct (nmf_run svds sqrt self (silent_bin 20)) as [[[K E] est] lmbda].
  destruct Hrun as [HK [HE _]].
  rewrite Hbins.
  assert (Hchunks : split_into_chunks (map Z.of_nat (seq 0 (ncols (silent_bin 20)))) 20
                    = Ok (equal_bins 1 20)) by (vm_compute; reflexivity).
  rewrite Hchunks. cbn [bind]. rewrite equal_bins_length.
  assert (HKE : has_dims 2 20 (mat_map Qabs (dot (map Qabs K) (map Qabs E)))).
  { apply mat_map_dims, dot_dims; rewrite length_map; [exact HK |].
    destruct HE as [HE | HE]; [discriminate | right; exact HE]. }
  destruct (silent_scores HKE) as [r Hr].
  set (st0 := mkTrim 20 (equal_bins 1 20) (silent_bin 20)
                (mat_map Qabs (dot (map Qabs K) (map Qabs E)))
                (di_scores (row_sums (silent_bin 20))
                   (row_sums (mat_map Qabs (dot (map Qabs K) (map Qabs E)))))).
  assert (Hinv0 : silent_inv 20 st0).
  { split; [reflexivity |]. split; [reflexivity |]. split; [exact HKE |].
    exists r. exact Hr. }
  change (S (length (t_bin_segs st0))) with 21%nat.
  rewrite trim_loop_step, (silent_cond self Hinv0). cbn [t_n_bins st0 bind].
  rewrite Hmin. cbn [Nat.ltb Nat.leb].
  destruct (@silent_body self 20 st0) as [st1 [Hbody [Hinv1 Hn1]]]; [lia | exact Hinv0 |].
  rewrite Hbody. cbn [bind].
  destruct (@silent_loop self 20 19 st1) as [st' [Hloop [Hlen Hn]]];
    try lia; [exact Hinv1 |].
  rewrite Hloop. cbn [bind]. exists st'. split; [reflexivity |]. split; lia.
Qed.

End Floor.

(** The loop on [silent_gene] under the default 20 bins. *)
Lemma trimming_goes_below_min_bins_witness :
  exists st : trim_state,
    trimmed svds_envelope sqrt_unit norm_l1 choice_zero default_bins_obj silent_gene
    = Ok (Some st)
    /\ length (t_bin_segs st) = 5%nat
    /\ t_n_bins st = 6%nat.
Proof.
  apply (@trimming_goes_below_min_bins svds_envelope sqrt_unit norm_l1
           svds_envelope_shaped choice_zero default_bins_obj);
    vm_compute; lia.
Defined.
